(** * boomi-test-service: hybrid retrieval, rank fusion and bounded-time
      degradation

    A shallow embedding of the Python sources under [app/] and the
    properties of the written specification that were checked against it.

    Conventions of the embedding:
    - Python [float] scores are exact rationals ([Q]); equality of scores
      is [Qeq] ([==]).  Rounding of IEEE doubles is outside the model.
    - Python exceptions are values of [exn]; a computation that may raise
      returns a [result].
    - An insertion-ordered Python [dict] with string keys is an association
      list whose order is the insertion order. *)

From Stdlib Require Import ZArith QArith Qabs List String Ascii Bool.
From Stdlib Require Import DecimalString Lia Lqa Sorted Permutation.
Import ListNotations.

Local Open Scope string_scope.
Local Open Scope Z_scope.

(** ** Exceptions and results *)

Inductive exn : Type :=
| ZeroDivisionError
| KeyError (key : string)
| TimeoutError
| RuntimeError (msg : string)
| CircuitBreakerException (msg : string)
| OtherError (msg : string).

Inductive result (A : Type) : Type :=
| Ok (a : A)
| Raise (e : exn).

Arguments Ok {A} a.
Arguments Raise {A} e.

Definition bind {A B : Type} (m : result A) (f : A -> result B) : result B :=
  match m with
  | Ok a => f a
  | Raise e => Raise e
  end.

Notation "x <- m ;; k" := (bind m (fun x => k))
  (at level 61, m at next level, right associativity).

(** ** Insertion-ordered dictionaries with string keys *)

Section Dict.
Context {V : Type}.

Definition dict := list (string * V).

Fixpoint dict_get (d : dict) (key : string) : option V :=
  match d with
  | [] => None
  | (k0, v) :: tl => if String.eqb k0 key then Some v else dict_get tl key
  end.

(** [d[key] = v]: an existing key keeps its position, a new key goes to
    the end. *)
Fixpoint dict_set (d : dict) (key : string) (v : V) : dict :=
  match d with
  | [] => [(key, v)]
  | (k0, v0) :: tl =>
      if String.eqb k0 key then (k0, v) :: tl
      else (k0, v0) :: dict_set tl key v
  end.

Definition dict_keys (d : dict) : list string := map fst d.
End Dict.

Arguments dict V : clear implicits.

(** ** Stable sorting by a score, highest first

    Python's [sorted(xs, key=..., reverse=True)] is a stable sort: elements
    with equal keys keep their relative order.  The stable sort of a list is
    unique; it is computed here by insertion. *)

Section StableSort.
Context {A : Type} (key : A -> Q).

Fixpoint insert_desc (x : A) (l : list A) : list A :=
  match l with
  | [] => [x]
  | y :: tl =>
      if Qle_bool (key y) (key x) then x :: l else y :: insert_desc x tl
  end.

Definition sorted_desc (l : list A) : list A := fold_right insert_desc [] l.

(** [desc a b]: [a] may stand before [b] in a list sorted highest first. *)
Definition desc (a b : A) : Prop := (key b <= key a)%Q.
End StableSort.

(** ** Order of first appearance *)

(** The distinct elements of a list, each at the place of its first
    occurrence. *)
Fixpoint dedup_first (l : list string) : list string :=
  match l with
  | [] => []
  | x :: tl => x :: filter (fun y => negb (String.eqb x y)) (dedup_first tl)
  end.


(** [before a b l]: some occurrence of [a] in [l] is followed, later in
    [l], by an occurrence of [b]. *)
Inductive before {A : Type} (a b : A) : list A -> Prop :=
| before_here : forall l, In b l -> before a b (a :: l)
| before_later : forall x l, before a b l -> before a b (x :: l).

(** ** app/utils/rrf.py *)

Module Rrf.

(** The value stored under ["document_id"]: [None] or a string. *)
Inductive pyval : Type :=
| PyNone
| PyStr (s : string).

Definition metadata := list (string * string).

(** A hit is a Python dict; a field of type [option _] is [None] when the
    key is absent from the dict.  Contents are strings and metadata are
    mappings, as in [app/models.py]. *)
Record hit : Type := mkHit {
  h_document_id : option pyval;
  h_content : option string;
  h_score : Q;
  h_metadata : option metadata
}.

(** [result.get(key)] and [result.get(key, default)]. *)
Definition get_or {A : Type} (field : option A) (default : A) : A :=
  match field with Some v => v | None => default end.

(** The dictionary key a hit is accumulated under, if it is not skipped:
    [if not doc_id: continue] skips the falsy ids [None] and [""]. *)
Definition hit_key (h : hit) : option string :=
  match get_or (h_document_id h) PyNone with
  | PyNone => None
  | PyStr s => if String.eqb s "" then None else Some s
  end.

Record doc_entry : Type := mkEntry {
  e_document_id : string;
  e_content : string;
  e_metadata : metadata
}.

Record fused : Type := mkFused {
  f_document_id : string;
  f_content : string;
  f_metadata : metadata;
  f_score : Q
}.

(** The two accumulators [doc_scores] and [doc_data]. *)
Record acc : Type := mkAcc {
  doc_scores : dict Q;
  doc_data : dict doc_entry
}.

Definition acc_empty : acc := mkAcc [] [].

(** Body of the inner loop, for the hit [h] at 1-based position [rank]. *)
Definition visit (k : Z) (st : acc) (rank : Z) (h : hit) : result acc :=
  match hit_key h with
  | None => Ok st
  | Some doc_id =>
      if (k + rank =? 0)%Z then Raise ZeroDivisionError
      else
        let rrf_score := (1 / inject_Z (k + rank))%Q in
        match dict_get (doc_scores st) doc_id with
        | Some old =>
            Ok (mkAcc (dict_set (doc_scores st) doc_id (old + rrf_score)%Q)
                      (doc_data st))
        | None =>
            Ok (mkAcc (dict_set (doc_scores st) doc_id rrf_score)
                      (dict_set (doc_data st) doc_id
                         (mkEntry doc_id
                            (get_or (h_content h) "")
                            (get_or (h_metadata h) []))))
        end
  end.

(** [for rank, result in enumerate(results, start=rank)]. *)
Fixpoint visit_list (k : Z) (st : acc) (rank : Z) (results : list hit)
  : result acc :=
  match results with
  | [] => Ok st
  | h :: tl => st' <- visit k st rank h ;; visit_list k st' (rank + 1) tl
  end.

(** [for results in results_list]. *)
Fixpoint visit_lists (k : Z) (st : acc) (results_list : list (list hit))
  : result acc :=
  match results_list with
  | [] => Ok st
  | results :: tl =>
      st' <- visit_list k st 1 results ;; visit_lists k st' tl
  end.

(** The final loop: [doc_data[doc_id].copy()] with the score added. *)
Fixpoint build (data : dict doc_entry) (sorted_docs : list (string * Q))
  : result (list fused) :=
  match sorted_docs with
  | [] => Ok []
  | (doc_id, score) :: tl =>
      match dict_get data doc_id with
      | None => Raise (KeyError doc_id)
      | Some e =>
          rest <- build data tl ;;
          Ok (mkFused (e_document_id e) (e_content e) (e_metadata e) score
                :: rest)
      end
  end.

Definition reciprocal_rank_fusion (results_list : list (list hit)) (k : Z)
  : result (list fused) :=
  st <- visit_lists k acc_empty results_list ;;
  build (doc_data st) (sorted_desc snd (doc_scores st)).

Definition default_k : Z := 60.

End Rrf.

(** ** hashlib.md5 (RFC 1321), on byte strings

    [hashlib] is not part of the repository; the digest is computed here as
    the RFC defines it, on 32-bit words held in [Z] with the wrap-around
    written out. *)

Module Md5.

Definition w32 (x : Z) : Z := x mod 4294967296.

Definition notw (x : Z) : Z := Z.lxor x 4294967295.

Definition rotl (x c : Z) : Z :=
  w32 (Z.lor (Z.shiftl x c) (Z.shiftr x (32 - c))).

Definition shifts : list Z :=
  [7; 12; 17; 22; 7; 12; 17; 22; 7; 12; 17; 22; 7; 12; 17; 22;
   5; 9; 14; 20; 5; 9; 14; 20; 5; 9; 14; 20; 5; 9; 14; 20;
   4; 11; 16; 23; 4; 11; 16; 23; 4; 11; 16; 23; 4; 11; 16; 23;
   6; 10; 15; 21; 6; 10; 15; 21; 6; 10; 15; 21; 6; 10; 15; 21].

(** [floor (2^32 * abs (sin (i + 1)))] for [i] from 0 to 63. *)
Definition sines : list Z :=
  [3614090360; 3905402710; 606105819; 3250441966; 4118548399; 1200080426;
   2821735955; 4249261313; 1770035416; 2336552879; 4294925233; 2304563134;
   1804603682; 4254626195; 2792965006; 1236535329; 4129170786; 3225465664;
   643717713; 3921069994; 3593408605; 38016083; 3634488961; 3889429448;
   568446438; 3275163606; 4107603335; 1163531501; 2850285829; 4243563512;
   1735328473; 2368359562; 4294588738; 2272392833; 1839030562; 4259657740;
   2763975236; 1272893353; 4139469664; 3200236656; 681279174; 3936430074;
   3572445317; 76029189; 3654602809; 3873151461; 530742520; 3299628645;
   4096336452; 1126891415; 2878612391; 4237533241; 1700485571; 2399980690;
   4293915773; 2240044497; 1873313359; 4264355552; 2734768916; 1309151649;
   4149444226; 3174756917; 718787259; 3951481745].

Definition bytes_of_string (s : string) : list Z :=
  map (fun c => Z.of_N (N_of_ascii c)) (list_ascii_of_string s).

(** Little-endian bytes of the low [n] bytes of [x]. *)
Fixpoint le_bytes (n : nat) (x : Z) : list Z :=
  match n with
  | O => []
  | S n' => (x mod 256) :: le_bytes n' (x / 256)
  end.

Fixpoint le_word (bs : list Z) : Z :=
  match bs with
  | [] => 0
  | b :: tl => b + 256 * le_word tl
  end.

Definition pad (msg : list Z) : list Z :=
  let len := Z.of_nat (List.length msg) in
  msg ++ [128] ++ repeat 0 (Z.to_nat ((55 - len) mod 64))
      ++ le_bytes 8 (8 * len).

(** The [n] consecutive blocks of [size] elements of [l]. *)
Fixpoint blocks {A : Type} (n size : nat) (l : list A) : list (list A) :=
  match n with
  | O => []
  | S n' => firstn size l :: blocks n' size (skipn size l)
  end.

Definition words_of_chunk (chunk : list Z) : list Z :=
  map le_word (blocks 16 4 chunk).

Definition round (m : list Z) (st : Z * Z * Z * Z) (i : nat)
  : Z * Z * Z * Z :=
  let '(a, b, c, d) := st in
  let iz := Z.of_nat i in
  let '(f, g) :=
    if (i <? 16)%nat then
      (Z.lor (Z.land b c) (Z.land (notw b) d), iz)
    else if (i <? 32)%nat then
      (Z.lor (Z.land d b) (Z.land (notw d) c), (5 * iz + 1) mod 16)
    else if (i <? 48)%nat then
      (Z.lxor b (Z.lxor c d), (3 * iz + 5) mod 16)
    else
      (Z.lxor c (Z.lor b (notw d)), (7 * iz) mod 16) in
  let f' := w32 (f + a + nth i sines 0 + nth (Z.to_nat g) m 0) in
  (d, w32 (b + rotl f' (nth i shifts 0)), b, c).

Definition process_chunk (st : Z * Z * Z * Z) (chunk : list Z)
  : Z * Z * Z * Z :=
  let m := words_of_chunk chunk in
  let '(a0, b0, c0, d0) := st in
  let '(a, b, c, d) := fold_left (round m) (seq 0 64) st in
  (w32 (a0 + a), w32 (b0 + b), w32 (c0 + c), w32 (d0 + d)).

Definition digest (msg : list Z) : list Z :=
  let padded := pad msg in
  let chunks := blocks (List.length padded / 64) 64 padded in
  let '(a, b, c, d) :=
    fold_left process_chunk chunks
      (1732584193, 4023233417, 2562383102, 271733878) in
  le_bytes 4 a ++ le_bytes 4 b ++ le_bytes 4 c ++ le_bytes 4 d.

Definition hex_digit (n : Z) : ascii :=
  if n <? 10 then ascii_of_N (Z.to_N (48 + n))
  else ascii_of_N (Z.to_N (87 + n)).

Fixpoint hex_of_bytes (bs : list Z) : string :=
  match bs with
  | [] => EmptyString
  | b :: tl =>
      String (hex_digit (b / 16)) (String (hex_digit (b mod 16))
        (hex_of_bytes tl))
  end.

Definition hexdigest (msg : list Z) : string := hex_of_bytes (digest msg).

End Md5.

(** ** Python string methods used by the service

    A [string] stands for a Python [str] of ASCII characters: each
    character is the code point of the same number, and [encode('utf-8')]
    is the identity on bytes.  [lower], [isspace] and [split] are the
    methods of [str] on such text, and every statement about them asks
    [isascii] of the text; what [str.lower()] and [str.split()] do with
    the code points from 128 on is not modelled. *)

Module PyStr.

(** [str.isascii()]. *)
Definition isascii (s : string) : bool :=
  forallb (fun c => (nat_of_ascii c <? 128)%nat) (list_ascii_of_string s).

Definition lower_char (c : ascii) : ascii :=
  let n := nat_of_ascii c in
  if ((65 <=? n) && (n <=? 90))%nat then ascii_of_nat (n + 32) else c.

(** [str.lower()]. *)
Fixpoint lower (s : string) : string :=
  match s with
  | EmptyString => EmptyString
  | String c tl => String (lower_char c) (lower tl)
  end.

(** [str.isspace()] on one ASCII character: tab, line feed, vertical tab,
    form feed, carriage return, the four separators 28 to 31, and space. *)
Definition isspace (c : ascii) : bool :=
  let n := nat_of_ascii c in
  (((9 <=? n) && (n <=? 13)) || ((28 <=? n) && (n <=? 32)))%nat.

(** [split_from s cur]: the tokens of [cur ++ s], where [cur] is the
    token read so far and holds no whitespace. *)
Fixpoint split_from (s cur : string) : list string :=
  match s with
  | EmptyString => if String.eqb cur "" then [] else [cur]
  | String c tl =>
      if isspace c then
        if String.eqb cur "" then split_from tl ""
        else cur :: split_from tl ""
      else split_from tl (cur ++ String c "")
  end.

(** [str.split()] with no argument: maximal runs of non-whitespace. *)
Definition split (s : string) : list string := split_from s "".

Fixpoint lstrip (s : string) : string :=
  match s with
  | EmptyString => EmptyString
  | String c tl => if isspace c then lstrip tl else s
  end.

Definition rev_string (s : string) : string :=
  string_of_list_ascii (rev (list_ascii_of_string s)).

(** [str.strip()]. *)
Definition strip (s : string) : string :=
  rev_string (lstrip (rev_string (lstrip s))).

Definition hex_value (c : ascii) : Z :=
  let n := Z.of_nat (nat_of_ascii c) in
  if (48 <=? n) && (n <=? 57) then n - 48
  else if (97 <=? n) && (n <=? 102) then n - 87
  else if (65 <=? n) && (n <=? 70) then n - 55
  else 0.

(** [int(s, 16)] on a string of hexadecimal digits. *)
Definition int16 (s : string) : Z :=
  fold_left (fun acc c => 16 * acc + hex_value c) (list_ascii_of_string s) 0.

Definition nl : string := String (ascii_of_nat 10) "".

End PyStr.

(** ** app/config.py *)

Record Settings : Type := mkSettings {
  collection_name : string;
  llm_provider : string;
  llm_api_key : option string;
  llm_model : string;
  ollama_base_url : string;
  llm_timeout : Q;
  search_timeout : Q;
  rrf_k : Z
}.

(** The defaults of the class: no API key. *)
Definition settings : Settings :=
  {| collection_name := "rag_documents";
     llm_provider := "groq";
     llm_api_key := None;
     llm_model := "llama-3-8b-8192";
     ollama_base_url := "http://localhost:11434";
     llm_timeout := 2;
     search_timeout := 8 # 10;
     rrf_k := 60 |}.

(** ** app/services/qdrant_client.py *)

Module Qdrant.
Import Rrf.

Record SparseVector : Type := mkSparse {
  indices : list Z;
  values : list Q
}.

(** The payload [insert_document] writes: every point of the collection
    carries these four keys. *)
Record Payload : Type := mkPayload {
  p_tenant_id : string;
  p_document_id : string;
  p_content : string;
  p_metadata : metadata
}.

(** A stored point.  The id is the UUID read as a number. *)
Record PointStruct : Type := mkPoint {
  pt_id : Z;
  pt_dense : list Q;
  pt_sparse : SparseVector;
  pt_payload : Payload
}.

Record FieldCondition : Type := mkCond {
  fc_key : string;
  fc_match : string
}.

Record Filter : Type := mkFilter { must : list FieldCondition }.

Inductive QueryVector : Type :=
| DenseQuery (v : list Q)
| SparseQuery (v : SparseVector).

(** The calls the service issues to the Vector Store. *)
Inductive request : Type :=
| ReqSearch (collection : string) (q : QueryVector) (flt : Filter)
    (limit : nat)
| ReqScroll (collection : string) (flt : Filter) (limit : nat)
    (offset : option Z)
| ReqDelete (collection : string) (ids : list Z)
| ReqUpsert (collection : string) (p : PointStruct).

(** The service after [__init__]: its collection exists
    ([_ensure_collection]); [points] are the points of that collection in
    the store's scroll order (ascending id), [issued] records every call
    made to the client, latest first. *)
Record QdrantService : Type := mkService {
  svc_collection : string;
  points : list PointStruct;
  issued : list request
}.

(** *** The Vector Store, as the Qdrant client documents it *)

Definition payload_get (p : Payload) (key : string) : option string :=
  if String.eqb key "tenant_id" then Some (p_tenant_id p)
  else if String.eqb key "document_id" then Some (p_document_id p)
  else if String.eqb key "content" then Some (p_content p)
  else None.

Definition cond_holds (p : PointStruct) (c : FieldCondition) : bool :=
  match payload_get (pt_payload p) (fc_key c) with
  | Some v => String.eqb v (fc_match c)
  | None => false
  end.

(** Every condition under [must] has to hold. *)
Definition matches (flt : Filter) (p : PointStruct) : bool :=
  forallb (cond_holds p) (must flt).

Definition from_offset (offset : option Z) (p : PointStruct) : bool :=
  match offset with
  | None => true
  | Some o => o <=? pt_id p
  end.

Definition log (r : request) (self : QdrantService) : QdrantService :=
  mkService (svc_collection self) (points self) (r :: issued self).

(** [client.upsert]: the point replaces the stored point of the same id,
    or is added at its place in id order. *)
Fixpoint upsert_point (p : PointStruct) (l : list PointStruct)
  : list PointStruct :=
  match l with
  | [] => [p]
  | q :: tl =>
      if pt_id p <? pt_id q then p :: l
      else if pt_id p =? pt_id q then p :: tl
      else q :: upsert_point p tl
  end.

(** No index stands twice in the list. *)
Fixpoint distinct (l : list Z) : bool :=
  match l with
  | [] => true
  | x :: tl => negb (existsb (Z.eqb x) tl) && distinct tl
  end.

(** How the store words its refusal of a sparse vector. *)
Definition indices_must_be_unique : string := "Indices must be unique".

(** [client.upsert] of one point.  The store validates the point first:
    a sparse vector that names an index twice is refused, the call raises
    and nothing is stored. *)
Definition client_upsert (self : QdrantService) (p : PointStruct)
  : result unit * QdrantService :=
  let self := log (ReqUpsert (svc_collection self) p) self in
  if distinct (indices (pt_sparse p)) then
    (Ok tt,
     mkService (svc_collection self) (upsert_point p (points self))
       (issued self))
  else (Raise (OtherError indices_must_be_unique), self).

Definition id_in (ids : list Z) (p : PointStruct) : bool :=
  existsb (Z.eqb (pt_id p)) ids.

(** [client.delete] with a list of ids as selector. *)
Definition client_delete (self : QdrantService) (ids : list Z)
  : QdrantService :=
  let self := log (ReqDelete (svc_collection self) ids) self in
  mkService (svc_collection self)
    (filter (fun p => negb (id_in ids p)) (points self)) (issued self).

(** [client.scroll]: one page of at most [limit] matching points in id
    order starting at [offset], and the id the next page starts at, if
    there is a next page. *)
Definition client_scroll (self : QdrantService) (flt : Filter)
    (limit : nat) (offset : option Z)
  : (list PointStruct * option Z) * QdrantService :=
  let self := log (ReqScroll (svc_collection self) flt limit offset) self in
  let rest :=
    filter (fun p => matches flt p && from_offset offset p) (points self) in
  ((firstn limit rest, option_map pt_id (nth_error rest limit)), self).

(** The two sparse vectors have an index in common. *)
Definition shares_index (v w : SparseVector) : bool :=
  existsb (fun i => existsb (Z.eqb i) (indices w)) (indices v).

(** The points a query can return at all: every point for a dense query,
    the points that share an index with it for a sparse query. *)
Definition candidate (q : QueryVector) (p : PointStruct) : bool :=
  match q with
  | DenseQuery _ => true
  | SparseQuery v => shares_index v (pt_sparse p)
  end.

Section Engine.
(** The similarity the store ranks by (cosine for the dense vector, dot
    product for the sparse one): any function will do. *)
Variable similarity : QueryVector -> PointStruct -> Q.

(** [client.search]: the [limit] best candidates among the points that
    match the filter, best first. *)
Definition client_search (self : QdrantService) (q : QueryVector)
    (flt : Filter) (limit : nat)
  : list PointStruct * QdrantService :=
  let self := log (ReqSearch (svc_collection self) q flt limit) self in
  (firstn limit
     (sorted_desc (similarity q)
        (filter (fun p => matches flt p && candidate q p) (points self))),
   self).

(** *** QdrantService *)

(** The loop [word_freq[word] = word_freq.get(word, 0) + 1]. *)
Definition count_words (words : list string) : dict Z :=
  fold_left
    (fun word_freq word =>
       dict_set word_freq word
         (get_or (dict_get word_freq word) 0 + 1))
    words [].

Definition bucket (word : string) : Z :=
  PyStr.int16 (substring 0 8 (Md5.hexdigest (Md5.bytes_of_string word)))
    mod 10000.

Definition _create_sparse_vector (self : QdrantService) (text : string)
  : SparseVector :=
  let words := PyStr.split (PyStr.lower text) in
  let word_freq := count_words words in
  mkSparse (map (fun wf => bucket (fst wf)) word_freq)
           (map (fun wf => inject_Z (snd wf)) word_freq).

Definition tenant_filter (tenant_id : string) : Filter :=
  mkFilter [mkCond "tenant_id" tenant_id].

(** [uuid] is the value [uuid.uuid4()] draws.  The call returns [None],
    or raises what [client.upsert] raises. *)
Definition insert_document (self : QdrantService) (uuid : Z)
    (tenant_id document_id content : string) (meta : metadata)
    (dense_vector : list Q) : result unit * QdrantService :=
  let sparse_vector := _create_sparse_vector self content in
  let point :=
    mkPoint uuid dense_vector sparse_vector
      (mkPayload tenant_id document_id content meta) in
  client_upsert self point.

Definition hit_of (q : QueryVector) (p : PointStruct) : hit :=
  mkHit (Some (PyStr (p_document_id (pt_payload p))))
        (Some (p_content (pt_payload p)))
        (similarity q p)
        (Some (p_metadata (pt_payload p))).

Definition search_dense (self : QdrantService) (tenant_id : string)
    (query_vector : list Q) (top_k : nat)
  : list hit * QdrantService :=
  let '(results, self) :=
    client_search self (DenseQuery query_vector)
      (tenant_filter tenant_id) top_k in
  (map (hit_of (DenseQuery query_vector)) results, self).

Definition search_sparse (self : QdrantService) (tenant_id : string)
    (query_text : string) (top_k : nat)
  : list hit * QdrantService :=
  let sparse_vector := _create_sparse_vector self query_text in
  let '(results, self) :=
    client_search self (SparseQuery sparse_vector)
      (tenant_filter tenant_id) top_k in
  (map (hit_of (SparseQuery sparse_vector)) results, self).

(** The [while True] loop of [delete_by_tenant]; [fuel] bounds the
    number of iterations, [None] means the bound was reached. *)
Fixpoint delete_loop (fuel : nat) (self : QdrantService)
    (tenant_id : string) (offset : option Z) (deleted_count : Z)
  : option (Z * QdrantService) :=
  match fuel with
  | O => None
  | S fuel' =>
      let '((results, offset), self) :=
        client_scroll self (tenant_filter tenant_id) 100 offset in
      match results with
      | [] => Some (deleted_count, self)
      | _ :: _ =>
          let point_ids := map pt_id results in
          let self := client_delete self point_ids in
          let deleted_count :=
            deleted_count + Z.of_nat (List.length point_ids) in
          match offset with
          | None => Some (deleted_count, self)
          | Some _ =>
              delete_loop fuel' self tenant_id offset deleted_count
          end
      end
  end.

Definition delete_by_tenant (fuel : nat) (self : QdrantService)
    (tenant_id : string) : option (Z * QdrantService) :=
  delete_loop fuel self tenant_id None 0.

End Engine.

End Qdrant.

(** ** asyncio, as far as the service uses it

    A coroutine object wraps a body that runs against a state [S].  The body
    runs at most once: a task that drives the coroutine closes it, whether
    the body completes or is cancelled, and awaiting a closed coroutine
    raises [RuntimeError].  Wall-clock durations are inputs: a run of the
    service is described together with the times its calls take.  A body
    that awaits the network (the call to the Text Generation Provider) can
    be cancelled at the deadline; a body without [await] (the two searches,
    which call the blocking Qdrant client) cannot. *)

Module Asyncio.

Record coroutine (S A : Type) : Type := mkCoro {
  cr_closed : bool;
  cr_body : S -> result A * S
}.
Arguments mkCoro {S A} _ _.
Arguments cr_closed {S A} _.
Arguments cr_body {S A} _.

(** The object an [async def] call returns: nothing has run yet. *)
Definition create {S A : Type} (body : S -> result A * S)
  : coroutine S A := mkCoro false body.

Definition close {S A : Type} (c : coroutine S A) : coroutine S A :=
  mkCoro true (cr_body c).

Definition reuse_message : string :=
  "cannot reuse already awaited coroutine".

(** [await c]. *)
Definition await {S A : Type} (c : coroutine S A) (s : S)
  : (result A * S) * coroutine S A :=
  if cr_closed c then ((Raise (RuntimeError reuse_message), s), c)
  else (cr_body c s, close c).

(** [asyncio.wait_for(c, timeout)] for a coroutine that awaits the
    network for [elapsed] seconds: past the deadline the coroutine is
    cancelled and [TimeoutError] is raised. *)
Definition wait_for {S A : Type} (c : coroutine S A) (elapsed timeout : Q)
    (s : S) : (result A * S) * coroutine S A :=
  let '((r, s), c) := await c s in
  ((if Qle_bool elapsed timeout then r else Raise TimeoutError, s), c).

(** What [gather] of two tasks ends with: both results, or the exception
    of the first task that raised. *)
Definition gather_result {A B : Type} (ra : result A) (rb : result B)
  : result (A * B) :=
  match ra, rb with
  | Ok a, Ok b => Ok (a, b)
  | Raise e, _ => Raise e
  | Ok _, Raise e => Raise e
  end.

(** [asyncio.wait_for(asyncio.gather(a, b), timeout)] for two coroutines
    whose bodies hold no [await] (CPython 3.11).  [gather] wraps both in
    tasks.  With a timeout that is not positive, [wait_for] cancels the
    tasks before their first step: the bodies do not run and
    [TimeoutError] is raised.  Otherwise the event loop runs the first
    body to its end, then the second; a body without [await] cannot be
    interrupted, so when the timer is looked at both are done, and
    [wait_for] returns what [gather] holds, however long the bodies took.
    Either way both coroutine objects end up closed. *)
Definition wait_for_gather {S A B : Type} (a : coroutine S A)
    (b : coroutine S B) (timeout : Q) (s : S)
  : (result (A * B) * S) * (coroutine S A * coroutine S B) :=
  if Qle_bool timeout 0 then ((Raise TimeoutError, s), (close a, close b))
  else
    let '((ra, s), a) := await a s in
    let '((rb, s), b) := await b s in
    ((gather_result ra rb, s), (a, b)).

End Asyncio.

(** ** app/utils/circuit_breaker.py *)

Module CircuitBreaker.
Import Asyncio.

(** [with_timeout(coro, timeout, default)]. *)
Definition with_timeout {S A : Type} (coro : coroutine S A)
    (elapsed timeout : Q) (default : A) (s : S) : result A * S :=
  let '((r, s), _) := wait_for coro elapsed timeout s in
  match r with
  | Ok v => (Ok v, s)
  | Raise TimeoutError => (Ok default, s)
  | Raise e => (Raise e, s)
  end.

End CircuitBreaker.

(** ** app/services/search.py *)

Module Search.
Import Rrf Qdrant Asyncio.

(** What the environment decides during one [hybrid_search]: the clock
    readings and how long each of the two searches takes (seconds, more
    than none). *)
Record timing : Type := mkTiming {
  start_time : Q;
  end_time : Q;
  dense_seconds : Q;
  sparse_seconds : Q;
  dense_takes_time : (0 < dense_seconds)%Q;
  sparse_takes_time : (0 < sparse_seconds)%Q
}.

Section Service.
Variable similarity : QueryVector -> PointStruct -> Q.
(** [self.embedder.encode(query).tolist()]. *)
Variable encode : string -> list Q.

Definition hybrid_search (cfg : Settings) (env : timing)
    (qdrant : QdrantService) (tenant_id query : string) (top_k : nat)
  : result (list fused * Q) * QdrantService :=
  let query_embedding := encode query in
  let dense_task :=
    create (fun q =>
      let '(r, q) :=
        search_dense similarity q tenant_id query_embedding (top_k * 2) in
      (Ok r, q)) in
  let sparse_task :=
    create (fun q =>
      let '(r, q) :=
        search_sparse similarity q tenant_id query (top_k * 2) in
      (Ok r, q)) in
  let '((gathered, qdrant), (dense_task, sparse_task)) :=
    wait_for_gather dense_task sparse_task (search_timeout cfg) qdrant in
  let '(lists, qdrant) :=
    match gathered with
    | Ok (dense_results, sparse_results) =>
        (Ok (dense_results, sparse_results), qdrant)
    | Raise TimeoutError =>
        let '((r, qdrant), _) := await dense_task qdrant in
        (dense_results <- r ;; Ok (dense_results, []), qdrant)
    | Raise e => (Raise e, qdrant)
    end in
  (p <- lists ;;
   merged_results <-
     reciprocal_rank_fusion [fst p; snd p] (rrf_k cfg) ;;
   let final_results := firstn top_k merged_results in
   let latency_ms := ((end_time env - start_time env) * 1000)%Q in
   Ok (final_results, latency_ms),
   qdrant).

End Service.

End Search.

(** ** app/services/llm_service.py *)

Module Llm.
Import Rrf Asyncio.

(** The client object of the [openai] package: the key it sends and the
    address it talks to ([None]: the package's own default). *)
Record AsyncOpenAI : Type := mkClient {
  api_key : string;
  base_url : option string
}.

Record LLMService : Type := mkLLM {
  provider : string;
  model : string;
  timeout : Q;
  client : AsyncOpenAI
}.

Record message : Type := mkMessage { role : string; msg_content : string }.

(** One [chat.completions.create] call. *)
Record chat_request : Type := mkChat {
  chat_model : string;
  chat_messages : list message;
  max_tokens : Z;
  temperature : Q;
  chat_timeout : Q
}.

(** What the Text Generation Provider does with a call: it returns the
    text of the first choice, or raises one of its own errors (an
    [openai] exception, given here by its description), after so many
    seconds. *)
Inductive completion : Type :=
| Completed (text : string)
| ProviderError (description : string).

Record reply : Type := mkReply {
  reply_value : completion;
  reply_seconds : Q
}.

Definition missing_api_key : string :=
  "The api_key client option must be set either by passing api_key to the client or by setting the OPENAI_API_KEY environment variable".

(** [AsyncOpenAI(api_key=..., base_url=...)]: a key that is [None] is
    looked up in the environment variable [OPENAI_API_KEY] of the process
    ([environ_key]); without a key the constructor raises [OpenAIError]. *)
Definition new_client (environ_key : option string)
    (key : option string) (url : option string) : result AsyncOpenAI :=
  match key with
  | Some key => Ok (mkClient key url)
  | None =>
      match environ_key with
      | Some key => Ok (mkClient key url)
      | None => Raise (OtherError missing_api_key)
      end
  end.

(** [LLMService()]: the three supported providers get a client. *)
Definition init (environ_key : option string) (cfg : Settings)
  : result LLMService :=
  let provider := PyStr.lower (llm_provider cfg) in
  if String.eqb provider "groq" then
    client <-
      new_client environ_key (llm_api_key cfg)
        (Some "https://api.groq.com/openai/v1") ;;
    Ok (mkLLM provider (llm_model cfg) (llm_timeout cfg) client)
  else if String.eqb provider "openai" then
    client <- new_client environ_key (llm_api_key cfg) None ;;
    Ok (mkLLM provider (llm_model cfg) (llm_timeout cfg) client)
  else if String.eqb provider "ollama" then
    client <-
      new_client environ_key (Some "ollama")
        (Some (ollama_base_url cfg ++ "/v1")) ;;
    Ok (mkLLM provider (llm_model cfg) (llm_timeout cfg) client)
  else Raise (OtherError ("Unsupported LLM provider: " ++ provider)).

Definition string_of_nat (n : nat) : string :=
  NilZero.string_of_uint (Nat.to_uint n).

(** [enumerate(top_results, i)] rendered as ["[i] content"]. *)
Fixpoint context_parts (i : nat) (top_results : list fused) : list string :=
  match top_results with
  | [] => []
  | r :: tl =>
      ("[" ++ string_of_nat i ++ "] " ++ f_content r)
        :: context_parts (S i) tl
  end.

Definition quote : string := String (ascii_of_nat 34) "".

Definition _create_prompt (self : LLMService) (query : string)
    (search_results : list fused) : string :=
  let top_results :=
    firstn (Nat.min 5 (List.length search_results)) search_results in
  let context :=
    String.concat (PyStr.nl ++ PyStr.nl) (context_parts 1 top_results) in
  "Based on the following search results, provide a concise summary answering the query: "
    ++ quote ++ query ++ quote ++ PyStr.nl ++ PyStr.nl
    ++ "Search Results:" ++ PyStr.nl ++ context ++ PyStr.nl ++ PyStr.nl
    ++ "Summary:".

Definition system_prompt : string :=
  "You are a helpful assistant that summarizes search results concisely.".

(** The call [generate_summary] makes. *)
Definition chat_of (self : LLMService) (query : string)
    (search_results : list fused) : chat_request :=
  mkChat (model self)
    [mkMessage "system" system_prompt;
     mkMessage "user" (_create_prompt self query search_results)]
    200 (7 # 10) (timeout self).

Section Provider.
Variable complete : chat_request -> reply.

(** The body of [generate_summary], run against the list of calls made
    to the provider so far (latest first). *)
Definition generate_summary_body (self : LLMService) (query : string)
    (search_results : list fused) (calls : list chat_request)
  : result string * list chat_request :=
  match search_results with
  | [] => (Ok "No search results found to summarize.", calls)
  | _ :: _ =>
      let req := chat_of self query search_results in
      (match reply_value (complete req) with
       | Completed text => Ok (PyStr.strip text)
       | ProviderError description => Raise (OtherError description)
       end,
       req :: calls)
  end.

Definition generate_summary (self : LLMService) (query : string)
    (search_results : list fused)
  : coroutine (list chat_request) string :=
  create (generate_summary_body self query search_results).

(** How long the coroutine of [generate_summary] takes. *)
Definition generate_seconds (self : LLMService) (query : string)
    (search_results : list fused) : Q :=
  match search_results with
  | [] => 0
  | _ :: _ => reply_seconds (complete (chat_of self query search_results))
  end.

End Provider.

End Llm.

(** ** app/main.py *)

Module Main.
Import Rrf Qdrant Asyncio Search Llm.

Record SearchRequest : Type := mkRequest {
  req_tenant_id : string;
  req_query : string;
  req_top_k : nat
}.

Record SearchResult : Type := mkResult {
  document_id : string;
  content : string;
  score : Q;
  result_metadata : option metadata
}.

Record summary_body : Type := mkBody {
  results : list SearchResult;
  summary : string;
  latency_ms : Q;
  search_latency_ms : Q;
  llm_latency_ms : Q
}.

Inductive response : Type :=
| JSONResponse (body : summary_body)
| HTTPException (status_code : Z) (detail : string).

(** The process-wide instances: the Vector Store service set up at
    startup, the LLM service created on first use, and the calls made to
    the provider so far; and the environment variable [OPENAI_API_KEY] of
    the process, if it is set. *)
Record world : Type := mkWorld {
  w_qdrant : QdrantService;
  w_llm : option LLMService;
  w_calls : list chat_request;
  w_openai_api_key : option string
}.

(** [str(e)]. *)
Definition str (e : exn) : string :=
  match e with
  | ZeroDivisionError => "float division by zero"
  | KeyError key => "'" ++ key ++ "'"
  | TimeoutError => ""
  | RuntimeError msg => msg
  | CircuitBreakerException msg => msg
  | OtherError msg => msg
  end.

Definition get_llm_service (cfg : Settings) (w : world)
  : result LLMService * world :=
  match w_llm w with
  | Some s => (Ok s, w)
  | None =>
      match Llm.init (w_openai_api_key w) cfg with
      | Ok s =>
          (Ok s,
           mkWorld (w_qdrant w) (Some s) (w_calls w) (w_openai_api_key w))
      | Raise e => (Raise e, w)
      end
  end.

Definition to_search_result (r : fused) : SearchResult :=
  mkResult (f_document_id r) (f_content r) (f_score r)
    (Some (f_metadata r)).

(** Clock readings of one request, in seconds. *)
Record clock : Type := mkClock {
  overall_start : Q;
  no_results_time : Q;
  llm_start : Q;
  llm_end : Q;
  total_end : Q
}.

Definition timed_out_default : string :=
  "Summary generation timed out. Please try again.".

Definition no_results_message : string :=
  "No results found for your query.".

Definition failed_message (e : exn) : string :=
  "Summary generation failed: " ++ str e
    ++ ". Search results are still available below.".

Section Endpoint.
Variable similarity : QueryVector -> PointStruct -> Q.
Variable encode : string -> list Q.
Variable complete : chat_request -> reply.

(** The inner [try] of [search_with_summary]. *)
Definition summarize (cfg : Settings) (llm_service : LLMService)
    (query : string) (search_results : list fused)
    (calls : list chat_request) : string * list chat_request :=
  let '(r, calls) :=
    CircuitBreaker.with_timeout
      (generate_summary complete llm_service query search_results)
      (generate_seconds complete llm_service query search_results)
      (llm_timeout cfg) timed_out_default calls in
  match r with
  | Ok s => (s, calls)
  | Raise (CircuitBreakerException _) =>
      ("Summary generation timed out. Search results are still available below.",
       calls)
  | Raise e => (failed_message e, calls)
  end.

Definition failure (e : exn) : response :=
  HTTPException 500 ("Search with summary failed: " ++ str e).

Definition search_with_summary (cfg : Settings) (env : timing)
    (clk : clock) (request : SearchRequest) (w : world)
  : response * world :=
  let '(found, qdrant) :=
    hybrid_search similarity encode cfg env (w_qdrant w)
      (req_tenant_id request) (req_query request) (req_top_k request) in
  let w := mkWorld qdrant (w_llm w) (w_calls w) (w_openai_api_key w) in
  match found with
  | Raise e => (failure e, w)
  | Ok ([], search_latency_ms) =>
      (JSONResponse
         (mkBody [] no_results_message
            ((no_results_time clk - overall_start clk) * 1000)%Q
            search_latency_ms 0),
       w)
  | Ok (search_results, search_latency_ms) =>
      let '(got, w) := get_llm_service cfg w in
      match got with
      | Raise e => (failure e, w)
      | Ok llm_service =>
          let '(text, calls) :=
            summarize cfg llm_service (req_query request) search_results
              (w_calls w) in
          let w :=
            mkWorld (w_qdrant w) (w_llm w) calls (w_openai_api_key w) in
          (JSONResponse
             (mkBody (map to_search_result search_results) text
                ((total_end clk - overall_start clk) * 1000)%Q
                search_latency_ms
                ((llm_end clk - llm_start clk) * 1000)%Q),
           w)
      end
  end.

End Endpoint.

End Main.

(** ** The fusion formula, as the specification words it *)

Module RrfSpec.
Import Rrf.

Definition Qsum (l : list Q) : Q := fold_right Qplus 0%Q l.

(** [enumerate(results, start=rank)]. *)
Fixpoint enumerate (rank : Z) (l : list hit) : list (Z * hit) :=
  match l with
  | [] => []
  | h :: tl => (rank, h) :: enumerate (rank + 1) tl
  end.

(** [has_key d h]: the hit [h] carries the document id [d] and is not
    skipped. *)
Definition has_key (d : string) (h : hit) : bool :=
  match hit_key h with
  | Some s => String.eqb s d
  | None => false
  end.

(** What the hit at position [rank] adds to the score of [d]. *)
Definition term (k : Z) (d : string) (p : Z * hit) : Q :=
  if has_key d (snd p) then (1 / inject_Z (k + fst p))%Q else 0%Q.

(** The sum of [1 / (k + position)] over the positions of [d] in one
    list, the first hit of the list standing at position [start]. *)
Definition list_contribution (k : Z) (start : Z) (d : string)
    (l : list hit) : Q :=
  Qsum (map (term k d) (enumerate start l)).

(** The sum over every list and every 1-based position of [d] in it. *)
Definition rrf_sum (k : Z) (d : string) (results_list : list (list hit))
  : Q :=
  Qsum (map (list_contribution k 1 d) results_list).

(** The ids of the hits that are not skipped, in order. *)
Definition keys_of (l : list hit) : list string :=
  flat_map (fun h => match hit_key h with Some s => [s] | None => [] end) l.

(** [occurs d results_list]: some hit of some list carries [d]. *)
Definition occurs (d : string) (results_list : list (list hit)) : Prop :=
  exists l h, In l results_list /\ In h l /\ hit_key h = Some d.

(** Scores fall strictly, respectively weakly, along the sequence. *)
Definition strictly_descending (out : list fused) : Prop :=
  StronglySorted (fun r1 r2 => (f_score r2 < f_score r1)%Q) out.

Definition descending (out : list fused) : Prop :=
  StronglySorted (fun r1 r2 => (f_score r2 <= f_score r1)%Q) out.

Definition doc (id : string) : hit :=
  mkHit (Some (PyStr id)) (Some ("content of " ++ id)) 1 None.

(** A hit is skipped when its ["document_id"] is absent, [None] or the
    empty string. *)
Definition skipped (h : hit) : Prop :=
  h_document_id h = None \/ h_document_id h = Some PyNone
  \/ h_document_id h = Some (PyStr "").

(** The raw value [result.get("document_id")]. *)
Definition raw_id (h : hit) : pyval := get_or (h_document_id h) PyNone.

(** Test inputs of [tests/test_search.py]. *)
Definition same_doc_twice : list (list hit) := [[doc "doc1"]; [doc "doc1"]].

Definition no_overlap : list (list hit) :=
  [[doc "doc1"; doc "doc2"]; [doc "doc3"; doc "doc4"]].


Definition basic : list (list hit) :=
  [[doc "doc1"; doc "doc2"; doc "doc3"];
   [doc "doc2"; doc "doc1"; doc "doc4"]].

Definition with_skipped : list (list hit) :=
  [[doc "doc1"; mkHit (Some (PyStr "")) (Some "lost") 1 None; doc "doc2"]].

(** The two nested loops as one pass over the hits with their ranks. *)
Fixpoint visit_all (k : Z) (st : acc) (ps : list (Z * hit)) : result acc :=
  match ps with
  | [] => Ok st
  | p :: tl => st' <- visit k st (fst p) (snd p) ;; visit_all k st' tl
  end.

Definition ranked (results_list : list (list hit)) : list (Z * hit) :=
  List.concat (map (enumerate 1) results_list).

(** The score accumulated for [d] so far, [0] when there is none. *)
Definition score_of (st : acc) (d : string) : Q :=
  get_or (dict_get (doc_scores st) d) 0%Q.

(** [fresh ks y]: [y] is not among the keys [ks]. *)
Definition fresh (ks : list string) (y : string) : bool :=
  negb (existsb (String.eqb y) ks).

(** The data kept for a document come from a hit that carries its id. *)
Definition entry_from (hs : list hit) (key : string) (e : doc_entry)
  : Prop :=
  e_document_id e = key /\
  exists h, In h hs /\ hit_key h = Some key /\
    e_content e = get_or (h_content h) "" /\
    e_metadata e = get_or (h_metadata h) [].

(** *** What holds of the accumulators and of the output *)

(** Both dictionaries hold the same keys in the same order. *)
Definition keys_agree (st : acc) : Prop :=
  dict_keys (doc_scores st) = dict_keys (doc_data st).

(** The output entry built for one sorted item. *)
Definition fused_of (data : dict doc_entry) (p : string * Q) (r : fused)
  : Prop :=
  exists e, dict_get data (fst p) = Some e /\
    r = mkFused (e_document_id e) (e_content e) (e_metadata e) (snd p).


(** What a run that returned [out] went through: the accumulators [st]
    of the two loops, their keys, their scores, and how [out] is built
    from them. *)
Record fusion (results_list : list (list hit)) (k : Z) (out : list fused)
    (st : acc) : Prop := mkFusion {
  fusion_visit : visit_lists k acc_empty results_list = Ok st;
  fusion_keys :
    dict_keys (doc_scores st)
    = dedup_first (keys_of (List.concat results_list));
  fusion_scores :
    forall d q, In (d, q) (doc_scores st) ->
      (q == rrf_sum k d results_list)%Q;
  fusion_sorted :
    map (fun r => (f_document_id r, f_score r)) out
    = sorted_desc snd (doc_scores st);
  fusion_data :
    forall r, In r out ->
      entry_from (List.concat results_list) (f_document_id r)
        (mkEntry (f_document_id r) (f_content r) (f_metadata r))
}.

End RrfSpec.

(** ** The sparse vector, as the specification words it *)

Module SparseSpec.
Import Rrf Qdrant.

(** The frequency table the specification describes: the distinct tokens
    in order of first occurrence, each with its number of occurrences. *)
Definition freq_table (tokens : list string) : dict Z :=
  map (fun t => (t, Z.of_nat (count_occ string_dec tokens t)))
    (dedup_first tokens).

(** One step of the counting loop. *)
Definition count_step (word_freq : dict Z) (word : string) : dict Z :=
  dict_set word_freq word (get_or (dict_get word_freq word) 0 + 1).

(** A token holds no whitespace. *)
Definition no_space (s : string) : Prop :=
  Forall (fun c => PyStr.isspace c = false) (list_ascii_of_string s).

End SparseSpec.

(** ** The Vector Store: invariant and sample stores *)

Module QdrantSpec.
Import Rrf Qdrant.

(** The store keeps its points in ascending order of id; in particular
    ids are unique. *)
Definition by_id (p q : PointStruct) : Prop := pt_id p < pt_id q.

Definition store_ok (self : QdrantService) : Prop :=
  StronglySorted by_id (points self).

(** The points of a tenant. *)
Definition of_tenant (tenant_id : string) (self : QdrantService)
  : list PointStruct :=
  filter (matches (tenant_filter tenant_id)) (points self).

(** Every point is at or after the scroll offset. *)
Definition reaches (offset : option Z) (ps : list PointStruct) : Prop :=
  forall p, In p ps -> from_offset offset p = true.

Definition an_empty_service : QdrantService :=
  mkService "rag_documents" [] [].

(** The store of [tests/test_api.py]: two tenants, ids out of order. *)
Definition a_service : QdrantService :=
  snd (insert_document
    (snd (insert_document
       (snd (insert_document an_empty_service 7 "tenant_a" "doc_a1"
          "Secret information for tenant A." [] [1%Q]))
       3 "tenant_b" "doc_b1" "Secret information for tenant B." [] [1%Q]))
    5 "tenant_a" "doc_a2" "More for tenant A." [] [1%Q]).

Section Engine.
Variable similarity : QueryVector -> PointStruct -> Q.

(** A list of hits all of which are stored points of the tenant. *)
Definition hits_of_tenant (t : string) (self : QdrantService)
    (hits : list hit) : Prop :=
  forall h, In h hits ->
    exists p q, In p (points self)
      /\ p_tenant_id (pt_payload p) = t
      /\ h = hit_of similarity q p.

(** A hit that shows a stored point of tenant [t] other than [x]. *)
Definition hit_of_other (t : string) (self : QdrantService)
    (x : PointStruct) (h : hit) : Prop :=
  exists p q, In p (points self)
    /\ p_tenant_id (pt_payload p) = t /\ p <> x
    /\ h = hit_of similarity q p.
End Engine.

(** A call to the Vector Store that is a search filtered on the tenant:
    the filter's [must] holds the condition [tenant_id == t]. *)
Definition filtered_on (t : string) (r : request) : Prop :=
  exists collection q limit,
    r = ReqSearch collection q
          (mkFilter [mkCond "tenant_id" t]) limit.

(** A fused result that shows a stored point of the tenant. *)
Definition shows_point_of (t : string) (self : QdrantService)
    (r : fused) : Prop :=
  exists p, In p (points self)
    /\ p_tenant_id (pt_payload p) = t
    /\ f_document_id r = p_document_id (pt_payload p)
    /\ f_content r = p_content (pt_payload p)
    /\ f_metadata r = p_metadata (pt_payload p).

End QdrantSpec.

(** ** Runs of the search: sample timings and engines *)

Module SearchSpec.
Import Rrf Qdrant Search.

(** The dense search takes 0.1 s, the sparse search 1 s. *)
Definition a_timing : timing :=
  mkTiming 0 (11 # 10) (1 # 10) 1 eq_refl eq_refl.

(** Both searches are done after 0.2 s. *)
Definition no_timeout : timing :=
  mkTiming 0 1 (1 # 10) (2 # 10) eq_refl eq_refl.

(** Settings whose deadline for the searches is 0 s. *)
Definition no_deadline : Settings :=
  mkSettings "rag_documents" "groq" None "llama-3-8b-8192"
    "http://localhost:11434" 2 0 60.

Definition an_encoder (query : string) : list Q := [1%Q].

Definition a_similarity (q : QueryVector) (p : PointStruct) : Q := 1%Q.

Section Service.
Variable encode : string -> list Q.

(** What one [hybrid_search] adds to the record of issued calls. *)
Definition searches_of (self : QdrantService) (t query : string)
    (top_k : nat) : list request :=
  [ReqSearch (svc_collection self)
     (SparseQuery (_create_sparse_vector self query))
     (tenant_filter t) (top_k * 2);
   ReqSearch (svc_collection self) (DenseQuery (encode query))
     (tenant_filter t) (top_k * 2)].
End Service.

End SearchSpec.

(** ** Sample requests *)

Module MainSpec.
Import Rrf Qdrant Search Llm Main QdrantSpec.

Definition a_clock : clock := mkClock 0 1 1 2 2.

Definition a_world : world := mkWorld a_service None [] None.

Definition a_request : SearchRequest :=
  mkRequest "tenant_a" "secret information" 5.

Definition a_failing_provider (r : chat_request) : reply :=
  mkReply (ProviderError "Connection error.") 1.

(** Settings that name a provider the service has no client for. *)
Definition unsupported : Settings :=
  mkSettings "rag_documents" "azure" (Some "secret") "gpt-4"
    "http://localhost:11434" 2 (8 # 10) 60.

(** The default settings with an API key for the provider. *)
Definition with_key : Settings :=
  mkSettings "rag_documents" "groq" (Some "secret") "llama-3-8b-8192"
    "http://localhost:11434" 2 (8 # 10) 60.

(** The service [LLMService()] builds from [with_key]. *)
Definition a_llm_service : LLMService :=
  mkLLM "groq" "llama-3-8b-8192" 2
    (mkClient "secret" (Some "https://api.groq.com/openai/v1")).

End MainSpec.

(** ** app/services/qdrant_client.py: the collection

    [QdrantService.__init__] and [_ensure_collection], against the
    collections the Qdrant server holds. *)

Module Collection.

Inductive Distance : Type := COSINE | EUCLID | DOT | MANHATTAN.

Record VectorParams : Type := mkVectorParams {
  size : Z;
  distance : Distance
}.

(** A collection: its name, its named dense vectors and its named sparse
    vectors. *)
Record CollectionInfo : Type := mkCollection {
  name : string;
  vectors_config : list (string * VectorParams);
  sparse_vectors_config : list string
}.

(** [client.get_collections().collections], by name. *)
Definition collection_names (collections : list CollectionInfo)
  : list string :=
  map name collections.

(** [x in names]. *)
Definition contains (names : list string) (x : string) : bool :=
  existsb (String.eqb x) names.

(** [client.create_collection], called for a name that is not taken. *)
Definition create_collection (collections : list CollectionInfo)
    (c : CollectionInfo) : list CollectionInfo :=
  (collections ++ [c])%list.

(** [_ensure_collection], for [self.collection_name] and
    [settings.embedding_dimension]. *)
Definition _ensure_collection (collection_name : string)
    (embedding_dimension : Z) (collections : list CollectionInfo)
  : list CollectionInfo :=
  let names := collection_names collections in
  if negb (contains names collection_name) then
    create_collection collections
      (mkCollection collection_name
         [("dense", mkVectorParams embedding_dimension COSINE)]
         ["sparse"])
  else collections.

(** A server that already holds the collection, with vectors of another
    size. *)
Definition an_old_collection : list CollectionInfo :=
  [mkCollection "rag_documents" [("dense", mkVectorParams 768 DOT)] []].

End Collection.

(** ** app/services/llm_service.py: the streaming summary *)

Module LlmStream.
Import Rrf Llm.

(** What the provider does with a streaming call: the [delta.content] of
    the chunks it sends, [None] for a chunk without content, and the error
    it raises after them, if any (with no chunk before it when the call
    itself fails). *)
Record stream_reply : Type := mkStream {
  chunks : list (option string);
  stream_error : option string
}.

(** [if chunk.choices[0].delta.content:]: [None] and [""] are falsy. *)
Definition has_content (c : option string) : bool :=
  match c with
  | Some s => negb (String.eqb s "")
  | None => false
  end.

(** The chunks the [async for] loop yields. *)
Fixpoint yielded (cs : list (option string)) : list string :=
  match cs with
  | [] => []
  | c :: tl =>
      if has_content c
      then get_or c "" :: yielded tl
      else yielded tl
  end.

Section Provider.
Variable complete_stream : chat_request -> stream_reply.

(** [generate_summary_stream]: what a consumer of the generator receives,
    chunk by chunk, the exception that ends the iteration if one is
    raised, and the calls made to the provider (latest first). *)
Definition generate_summary_stream (self : LLMService) (query : string)
    (search_results : list fused) (calls : list chat_request)
  : (list string * option exn) * list chat_request :=
  match search_results with
  | [] => ((["No search results found to summarize."], None), calls)
  | _ :: _ =>
      let req := chat_of self query search_results in
      let reply := complete_stream req in
      ((yielded (chunks reply),
        option_map OtherError (stream_error reply)),
       req :: calls)
  end.
End Provider.

(** The text of a chunk, empty when the chunk has no content. *)
Definition text_of (c : option string) : string := get_or c "".

(** A stream with empty chunks in it. *)
Definition a_client : AsyncOpenAI := mkClient "secret" None.

Definition a_stream (r : chat_request) : stream_reply :=
  mkStream [Some "Fast"; None; Some ""; Some "API"; Some " is a framework."]
    None.

End LlmStream.

(** ** app/main.py: the other endpoints *)

Module Endpoints.
Import Rrf Qdrant Search Llm Main.

Record SearchResponse : Type := mkSearchResponse {
  sr_results : list SearchResult;
  sr_latency_ms : Q
}.

Record DeleteResponse : Type := mkDeleteResponse {
  dr_status : string;
  dr_tenant_id : string;
  dr_deleted_count : Z;
  dr_message : string
}.

(** What an endpoint answers: its response model, or the [HTTPException]
    it raises. *)
Inductive answer (A : Type) : Type :=
| Returns (a : A)
| Fails (status_code : Z) (detail : string).
Arguments Returns {A} a.
Arguments Fails {A} status_code detail.

(** [str(n)] for an [int]. *)
Definition str_int (n : Z) : string := NilZero.string_of_int (Z.to_int n).

Section Api.
Variable similarity : QueryVector -> PointStruct -> Q.
Variable encode : string -> list Q.

(** [POST /search]. *)
Definition search (cfg : Settings) (env : timing) (request : SearchRequest)
    (w : world) : answer SearchResponse * world :=
  let '(found, qdrant) :=
    hybrid_search similarity encode cfg env (w_qdrant w)
      (req_tenant_id request) (req_query request) (req_top_k request) in
  let w := mkWorld qdrant (w_llm w) (w_calls w) (w_openai_api_key w) in
  match found with
  | Ok (search_results, latency_ms) =>
      (Returns
         (mkSearchResponse (map to_search_result search_results) latency_ms),
       w)
  | Raise e => (Fails 500 ("Search failed: " ++ str e), w)
  end.
End Api.

(** [DELETE /documents/{tenant_id}]; [fuel] bounds the loop of
    [delete_by_tenant], and [None] means the bound was reached. *)
Definition delete_tenant_documents (fuel : nat) (tenant_id : string)
    (w : world) : option (answer DeleteResponse * world) :=
  match delete_by_tenant fuel (w_qdrant w) tenant_id with
  | None => None
  | Some (deleted_count, qdrant) =>
      Some
        (Returns
           (mkDeleteResponse "success" tenant_id deleted_count
              ("Deleted " ++ str_int deleted_count
                 ++ " documents for tenant " ++ tenant_id)),
         mkWorld qdrant (w_llm w) (w_calls w) (w_openai_api_key w))
  end.

End Endpoints.

(** ** More notions for the fusion *)

Module RrfMoreSpec.
Import Rrf RrfSpec.

(** The data kept for a document first seen in the hit [h]. *)
Definition entry_of (key : string) (h : hit) : doc_entry :=
  mkEntry key (get_or (h_content h) "") (get_or (h_metadata h) []).

(** The number of hits that carry [d]. *)
Definition sightings (d : string) (hs : list hit) : nat :=
  List.length (filter (has_key d) hs).

End RrfMoreSpec.

(** * Properties *)

(** ** MD5 test vectors (RFC 1321, appendix A.5) *)

Module Md5Facts.
Import Md5.

Example hexdigest_empty :
  hexdigest (bytes_of_string "") = "d41d8cd98f00b204e9800998ecf8427e".
Proof. vm_compute. reflexivity. Qed.

Example hexdigest_abc :
  hexdigest (bytes_of_string "abc") = "900150983cd24fb0d6963f7d28e17f72".
Proof. vm_compute. reflexivity. Qed.

Example hexdigest_two_blocks :
  hexdigest (bytes_of_string
    "12345678901234567890123456789012345678901234567890123456789012345678901234567890")
  = "57edf4a22be3c955ac49da2e2107b67a".
Proof. vm_compute. reflexivity. Qed.

End Md5Facts.

(** ** Dictionaries *)

Section DictFacts.
Context {V : Type}.
Implicit Types (d : dict V) (k : string) (v : V).

Lemma dict_get_set_same d k v : dict_get (dict_set d k v) k = Some v.
Proof.
  induction d as [|[k0 v0] tl IH]; simpl.
  - now rewrite String.eqb_refl.
  - destruct (String.eqb k0 k) eqn:E; simpl; rewrite E; auto.
Qed.

Lemma dict_get_set_other d k k' v :
  k <> k' -> dict_get (dict_set d k v) k' = dict_get d k'.
Proof.
  intros Hne. induction d as [|[k0 v0] tl IH]; simpl.
  - destruct (String.eqb k k') eqn:E; auto.
    apply String.eqb_eq in E. contradiction.
  - destruct (String.eqb k0 k) eqn:E; simpl.
    + apply String.eqb_eq in E. subst k0.
      destruct (String.eqb k k') eqn:E'; auto.
      apply String.eqb_eq in E'. contradiction.
    + destruct (String.eqb k0 k'); auto.
Qed.

Lemma dict_get_none d k : dict_get d k = None <-> ~ In k (dict_keys d).
Proof.
  induction d as [|[k0 v0] tl IH]; simpl.
  - tauto.
  - destruct (String.eqb k0 k) eqn:E.
    + apply String.eqb_eq in E. split; [discriminate | intros H; tauto].
    + apply String.eqb_neq in E. rewrite IH. tauto.
Qed.

Lemma dict_get_some_in d k v : dict_get d k = Some v -> In (k, v) d.
Proof.
  induction d as [|[k0 v0] tl IH]; simpl; [discriminate|].
  destruct (String.eqb k0 k) eqn:E.
  - apply String.eqb_eq in E. intros [= ->]. subst. now left.
  - intros H. right. auto.
Qed.

Lemma dict_get_in d k v :
  NoDup (dict_keys d) -> In (k, v) d -> dict_get d k = Some v.
Proof.
  induction d as [|[k0 v0] tl IH]; simpl; [tauto|].
  intros Hnd [H | H].
  - injection H as -> ->. now rewrite String.eqb_refl.
  - inversion Hnd as [|? ? Hnotin Hnd']; subst.
    destruct (String.eqb k0 k) eqn:E.
    + apply String.eqb_eq in E. subst k0. exfalso. apply Hnotin.
      change (In (fst (k, v)) (map fst tl)). now apply in_map.
    + auto.
Qed.

Lemma dict_keys_set_old d k v v0 :
  dict_get d k = Some v0 -> dict_keys (dict_set d k v) = dict_keys d.
Proof.
  induction d as [|[k1 v1] tl IH]; simpl; [discriminate|].
  destruct (String.eqb k1 k) eqn:E; simpl; auto.
  intros H. f_equal. auto.
Qed.

Lemma dict_keys_set_new d k v :
  dict_get d k = None -> dict_keys (dict_set d k v) = (dict_keys d ++ [k])%list.
Proof.
  induction d as [|[k1 v1] tl IH]; simpl; auto.
  destruct (String.eqb k1 k) eqn:E; simpl; [discriminate|].
  intros H. f_equal. auto.
Qed.

End DictFacts.

(** ** The stable sort *)

Section StableSortFacts.
Context {A : Type} (key : A -> Q).

Lemma insert_desc_in x y l : In y (insert_desc key x l) <-> y = x \/ In y l.
Proof.
  induction l as [|z tl IH]; simpl.
  - intuition.
  - destruct (Qle_bool (key z) (key x)); simpl; rewrite ?IH; intuition.
Qed.

Lemma sorted_desc_in y l : In y (sorted_desc key l) <-> In y l.
Proof.
  induction l as [|x tl IH]; simpl; [tauto|].
  rewrite insert_desc_in, IH. intuition.
Qed.

Lemma insert_desc_length x l :
  List.length (insert_desc key x l) = S (List.length l).
Proof.
  induction l as [|z tl IH]; simpl; auto.
  destruct (Qle_bool (key z) (key x)); simpl; auto.
Qed.

Lemma insert_desc_sorted x l :
  StronglySorted (desc key) l -> StronglySorted (desc key) (insert_desc key x l).
Proof.
  induction 1 as [|z tl Hs IH Hall]; simpl.
  - constructor; constructor.
  - destruct (Qle_bool (key z) (key x)) eqn:E.
    + apply Qle_bool_iff in E. constructor.
      * now constructor.
      * constructor; [exact E|].
        rewrite Forall_forall in Hall. apply Forall_forall. intros y Hy.
        specialize (Hall y Hy). unfold desc in *. lra.
    + constructor; [exact IH|].
      rewrite Forall_forall in Hall. apply Forall_forall. intros y Hy.
      apply insert_desc_in in Hy. destruct Hy as [-> | Hy]; auto.
      unfold desc. destruct (Qlt_le_dec (key z) (key x)) as [Hlt|Hle].
      * exfalso. assert (Hle : (key z <= key x)%Q) by lra.
        apply Qle_bool_iff in Hle. congruence.
      * exact Hle.
Qed.

Lemma sorted_desc_sorted l : StronglySorted (desc key) (sorted_desc key l).
Proof.
  induction l as [|x tl IH]; simpl; [constructor|].
  now apply insert_desc_sorted.
Qed.



End StableSortFacts.

(** ** Lists: order of first appearance *)

Section BeforeFacts.
Context {A : Type}.

Lemma before_in_l (a b : A) l : before a b l -> In a l.
Proof. induction 1; simpl; auto. Qed.

Lemma before_in_r (a b : A) l : before a b l -> In b l.
Proof. induction 1; simpl; auto. Qed.




Lemma before_map_inv {B : Type} (g : A -> B) (x y : B) l :
  before x y (map g l) ->
  exists a b, g a = x /\ g b = y /\ before a b l.
Proof.
  induction l as [|c tl IH]; simpl; intros H; inversion H; subst.
  - match goal with Hin : In y (map g tl) |- _ =>
      apply in_map_iff in Hin; destruct Hin as (b & Hb & Hin) end.
    exists c, b. repeat split; auto. now constructor.
  - match goal with H' : before x y (map g tl) |- _ =>
      destruct (IH H') as (a & b & Ha & Hb & Hab) end.
    exists a, b. repeat split; auto. now constructor 2.
Qed.

Lemma before_nodup_neq (a b : A) l : NoDup l -> before a b l -> a <> b.
Proof.
  intros Hnd H. induction H as [l Hin | x l H IH].
  - inversion Hnd; subst. intros ->. contradiction.
  - inversion Hnd; subst. auto.
Qed.
End BeforeFacts.

Lemma dedup_first_in x l : In x (dedup_first l) <-> In x l.
Proof.
  induction l as [|y tl IH]; simpl; [tauto|].
  rewrite filter_In, IH. destruct (String.eqb y x) eqn:E.
  - apply String.eqb_eq in E. subst. simpl. intuition discriminate.
  - apply String.eqb_neq in E. simpl. intuition.
Qed.

Lemma dedup_first_nodup l : NoDup (dedup_first l).
Proof.
  induction l as [|y tl IH]; simpl; constructor.
  - rewrite filter_In. intros [_ H]. now rewrite String.eqb_refl in H.
  - now apply NoDup_filter.
Qed.

Lemma filter_filter {A : Type} (f g : A -> bool) l :
  filter f (filter g l) = filter (fun x => g x && f x) l.
Proof.
  induction l as [|x tl IH]; simpl; auto.
  destruct (g x); simpl; [destruct (f x)|]; now rewrite IH.
Qed.

Lemma filter_all {A : Type} (f : A -> bool) l :
  (forall x, In x l -> f x = true) -> filter f l = l.
Proof.
  induction l as [|x tl IH]; simpl; intros H; auto.
  rewrite (H x) by auto. f_equal. auto.
Qed.

(** ** Reciprocal rank fusion *)

Module RrfFacts.
Import Rrf RrfSpec.

Lemma visit_all_app k st ps1 ps2 :
  visit_all k st (ps1 ++ ps2)%list
  = (st' <- visit_all k st ps1 ;; visit_all k st' ps2).
Proof.
  revert st. induction ps1 as [|p tl IH]; intros st; simpl; auto.
  destruct (visit k st (fst p) (snd p)); simpl; auto.
Qed.

Lemma visit_list_all k st rank l :
  visit_list k st rank l = visit_all k st (enumerate rank l).
Proof.
  revert st rank. induction l as [|h tl IH]; intros st rank; simpl; auto.
  destruct (visit k st rank h); simpl; auto.
Qed.

Lemma visit_lists_all k st results_list :
  visit_lists k st results_list = visit_all k st (ranked results_list).
Proof.
  revert st. unfold ranked.
  induction results_list as [|l tl IH]; intros st; simpl; auto.
  rewrite visit_all_app, visit_list_all.
  destruct (visit_all k st (enumerate 1 l)); simpl; auto.
Qed.

Lemma map_snd_enumerate rank l : map snd (enumerate rank l) = l.
Proof.
  revert rank. induction l as [|h tl IH]; intros rank; simpl; auto.
  now rewrite IH.
Qed.

Lemma map_snd_ranked results_list :
  map snd (ranked results_list) = List.concat results_list.
Proof.
  unfold ranked. induction results_list as [|l tl IH]; simpl; auto.
  now rewrite map_app, map_snd_enumerate, IH.
Qed.

Lemma enumerate_rank rank l p : In p (enumerate rank l) -> rank <= fst p.
Proof.
  revert rank. induction l as [|h tl IH]; intros rank; simpl; [tauto|].
  intros [<- | H]; simpl; [lia|]. apply IH in H. lia.
Qed.

Lemma ranked_rank results_list p : In p (ranked results_list) -> 1 <= fst p.
Proof.
  unfold ranked. intros H. apply in_concat in H.
  destruct H as (ps & Hps & Hp). apply in_map_iff in Hps.
  destruct Hps as (l & <- & _). now apply enumerate_rank in Hp.
Qed.

(** *** Totality: no division by zero when [k + rank] stays away from 0 *)

Lemma visit_total k st rank h :
  k + rank <> 0 -> exists st', visit k st rank h = Ok st'.
Proof.
  intros Hne. unfold visit. destruct (hit_key h); [|eauto].
  apply Z.eqb_neq in Hne. rewrite Hne.
  destruct (dict_get (doc_scores st) s); eauto.
Qed.

Lemma visit_all_total k ps :
  (forall p, In p ps -> k + fst p <> 0) ->
  forall st, exists st', visit_all k st ps = Ok st'.
Proof.
  induction ps as [|p tl IH]; intros Hne st; simpl; [eauto|].
  destruct (visit_total k st (fst p) (snd p)) as [st1 H1];
    [apply Hne; now left|].
  rewrite H1. simpl. apply IH. intros q Hq. apply Hne. now right.
Qed.

(** *** Scores *)

Lemma has_key_iff d h : has_key d h = true <-> hit_key h = Some d.
Proof.
  unfold has_key. destruct (hit_key h) as [s|].
  - rewrite String.eqb_eq. split; congruence.
  - split; discriminate.
Qed.

Lemma visit_score k st rank h st' d :
  visit k st rank h = Ok st' ->
  (score_of st' d == score_of st d + term k d (rank, h))%Q.
Proof.
  unfold visit, term, has_key, score_of. simpl.
  destruct (hit_key h) as [d0|].
  2:{ intros [= <-]. lra. }
  destruct (k + rank =? 0); [discriminate|].
  destruct (String.eqb d0 d) eqn:E.
  - apply String.eqb_eq in E. subst d0.
    destruct (dict_get (doc_scores st) d) as [old|] eqn:G;
      intros [= <-]; simpl; rewrite dict_get_set_same; simpl; lra.
  - apply String.eqb_neq in E.
    destruct (dict_get (doc_scores st) d0) as [old|] eqn:G;
      intros [= <-]; simpl; rewrite dict_get_set_other by auto; lra.
Qed.

Lemma visit_all_score k ps : forall st st' d,
  visit_all k st ps = Ok st' ->
  (score_of st' d == score_of st d + Qsum (map (term k d) ps))%Q.
Proof.
  induction ps as [|p tl IH]; intros st st' d; simpl.
  - intros [= <-]. lra.
  - destruct (visit k st (fst p) (snd p)) as [st1|] eqn:H1; simpl;
      [|discriminate].
    intros H. rewrite (IH _ _ d H).
    rewrite (visit_score _ _ _ _ _ d H1).
    destruct p; simpl. lra.
Qed.

Lemma Qsum_app l1 l2 : (Qsum (l1 ++ l2) == Qsum l1 + Qsum l2)%Q.
Proof.
  induction l1 as [|x tl IH]; simpl; [lra|]. rewrite IH. lra.
Qed.

Lemma Qsum_ranked k d results_list :
  (Qsum (map (term k d) (ranked results_list))
   == rrf_sum k d results_list)%Q.
Proof.
  unfold ranked, rrf_sum.
  induction results_list as [|l tl IH]; simpl; [lra|].
  rewrite map_app, Qsum_app, IH. unfold list_contribution. lra.
Qed.

(** *** Keys: the dictionaries grow in order of first appearance *)

Lemma keys_agree_get st d :
  keys_agree st ->
  dict_get (doc_scores st) d = None -> dict_get (doc_data st) d = None.
Proof.
  unfold keys_agree. intros Hk H. apply dict_get_none.
  rewrite <- Hk. now apply dict_get_none.
Qed.

Lemma fresh_true ks y : fresh ks y = true <-> ~ In y ks.
Proof.
  unfold fresh. rewrite negb_true_iff. split.
  - intros H Hin. assert (existsb (String.eqb y) ks = true); [|congruence].
    apply existsb_exists. exists y. now rewrite String.eqb_refl.
  - intros H. destruct (existsb (String.eqb y) ks) eqn:E; auto.
    apply existsb_exists in E. destruct E as (z & Hz & Hyz).
    apply String.eqb_eq in Hyz. subst. contradiction.
Qed.

Lemma fresh_false ks y : fresh ks y = false <-> In y ks.
Proof.
  destruct (fresh ks y) eqn:E.
  - apply fresh_true in E. split; [discriminate | contradiction].
  - split; auto. intros _.
    destruct (in_dec string_dec y ks) as [H|H]; auto.
    apply fresh_true in H. congruence.
Qed.

Lemma visit_keys k st rank h st' :
  visit k st rank h = Ok st' -> keys_agree st ->
  keys_agree st' /\
  dict_keys (doc_scores st')
  = (dict_keys (doc_scores st)
     ++ match hit_key h with
        | Some d => if fresh (dict_keys (doc_scores st)) d then [d] else []
        | None => []
        end)%list.
Proof.
  unfold visit. intros H Hk. destruct (hit_key h) as [d|].
  2:{ injection H as <-. now rewrite app_nil_r. }
  destruct (k + rank =? 0); [discriminate|].
  destruct (dict_get (doc_scores st) d) as [old|] eqn:G;
    injection H as <-; unfold keys_agree in *; simpl.
  - rewrite (dict_keys_set_old _ _ _ _ G).
    assert (Hin : fresh (dict_keys (doc_scores st)) d = false).
    { apply fresh_false. destruct (in_dec string_dec d
        (dict_keys (doc_scores st))) as [Hi|Hi]; auto.
      apply dict_get_none in Hi. congruence. }
    rewrite Hin, app_nil_r. auto.
  - rewrite (dict_keys_set_new _ _ _ G).
    rewrite (dict_keys_set_new _ _ _ (keys_agree_get st d Hk G)).
    assert (Hin : fresh (dict_keys (doc_scores st)) d = true).
    { apply fresh_true. now apply dict_get_none. }
    rewrite Hin, Hk. auto.
Qed.

Lemma fresh_app ks d y :
  fresh (ks ++ [d]) y = fresh ks y && negb (String.eqb d y).
Proof.
  unfold fresh. rewrite existsb_app. simpl.
  rewrite orb_false_r, negb_orb. f_equal. f_equal. apply String.eqb_sym.
Qed.

Lemma visit_all_keys k ps : forall st st',
  visit_all k st ps = Ok st' -> keys_agree st ->
  keys_agree st' /\
  dict_keys (doc_scores st')
  = (dict_keys (doc_scores st)
     ++ filter (fresh (dict_keys (doc_scores st)))
          (dedup_first (keys_of (map snd ps))))%list.
Proof.
  induction ps as [|p tl IH]; intros st st'; simpl.
  - intros [= <-] Hk. now rewrite app_nil_r.
  - destruct (visit k st (fst p) (snd p)) as [st1|] eqn:H1; simpl;
      [|discriminate].
    intros H Hk. destruct (visit_keys _ _ _ _ _ H1 Hk) as [Hk1 Hkeys1].
    destruct (IH _ _ H Hk1) as [Hk' Hkeys']. split; [exact Hk'|].
    rewrite Hkeys', Hkeys1. clear IH H H1 Hkeys' Hkeys1 Hk' Hk1.
    set (ks := dict_keys (doc_scores st)).
    set (rest := dedup_first (keys_of (map snd tl))).
    destruct (hit_key (snd p)) as [d|]; simpl.
    2:{ now rewrite app_nil_r. }
    destruct (fresh ks d) eqn:Hf; simpl.
    + rewrite <- app_assoc. simpl. f_equal. f_equal.
      rewrite filter_filter. apply filter_ext. intros y.
      rewrite fresh_app. apply andb_comm.
    + rewrite app_nil_r. f_equal. rewrite filter_filter.
      apply filter_ext_in. intros y _.
      destruct (String.eqb d y) eqn:E; simpl; auto.
      apply String.eqb_eq in E. subst. auto.
Qed.

(** *** Data: every entry comes from a hit that carries its id *)

Lemma visit_data k st rank h st' key e :
  visit k st rank h = Ok st' ->
  dict_get (doc_data st') key = Some e ->
  dict_get (doc_data st) key = Some e \/ entry_from [h] key e.
Proof.
  unfold visit. destruct (hit_key h) as [d|] eqn:Hd.
  2:{ intros [= <-]. auto. }
  destruct (k + rank =? 0); [discriminate|].
  destruct (dict_get (doc_scores st) d); intros [= <-]; simpl; auto.
  destruct (string_dec d key) as [->|Hne].
  - rewrite dict_get_set_same. intros [= <-]. right.
    split; simpl; auto. exists h. simpl. auto.
  - rewrite dict_get_set_other by auto. auto.
Qed.

Lemma entry_from_incl hs hs' key e :
  incl hs hs' -> entry_from hs key e -> entry_from hs' key e.
Proof.
  intros Hi (Hid & h & Hin & H). split; auto. exists h. auto.
Qed.

Lemma visit_all_data k ps : forall st st' key e,
  visit_all k st ps = Ok st' ->
  dict_get (doc_data st') key = Some e ->
  dict_get (doc_data st) key = Some e \/ entry_from (map snd ps) key e.
Proof.
  induction ps as [|p tl IH]; intros st st' key e; simpl.
  - intros [= <-]. auto.
  - destruct (visit k st (fst p) (snd p)) as [st1|] eqn:H1; simpl;
      [|discriminate].
    intros H G. destruct (IH _ _ _ _ H G) as [G1 | Hfrom].
    + destruct (visit_data _ _ _ _ _ _ _ H1 G1) as [G0 | Hfrom]; auto.
      right. eapply entry_from_incl; [|exact Hfrom].
      intros x [<- | []]. now left.
    + right. eapply entry_from_incl; [|exact Hfrom].
      intros x Hx. now right.
Qed.

(** *** The final loop *)

Lemma build_ok data sorted_docs :
  (forall p, In p sorted_docs -> In (fst p) (dict_keys data)) ->
  exists out, build data sorted_docs = Ok out
    /\ Forall2 (fused_of data) sorted_docs out.
Proof.
  induction sorted_docs as [|[d s] tl IH]; intros Hin; simpl.
  - exists []. split; auto.
  - destruct (dict_get data d) as [e|] eqn:G.
    2:{ apply dict_get_none in G. exfalso. apply G.
        apply (Hin (d, s)). now left. }
    destruct IH as (rest & Hrest & Hall);
      [intros p Hp; apply Hin; now right|].
    rewrite Hrest. simpl. eexists. split; [reflexivity|].
    constructor; auto. exists e. auto.
Qed.

(** *** The whole function *)

Lemma fusion_of results_list k out :
  reciprocal_rank_fusion results_list k = Ok out ->
  exists st, fusion results_list k out st.
Proof.
  unfold reciprocal_rank_fusion.
  destruct (visit_lists k acc_empty results_list) as [st|] eqn:Hv; simpl;
    [|discriminate].
  intros Hb. exists st.
  pose proof Hv as Hall. rewrite visit_lists_all in Hall.
  destruct (visit_all_keys _ _ _ _ Hall eq_refl) as [Hagree Hkeys].
  simpl in Hkeys. rewrite map_snd_ranked in Hkeys.
  rewrite filter_all in Hkeys by (intros; reflexivity).
  assert (Hnd : NoDup (dict_keys (doc_scores st))).
  { rewrite Hkeys. apply dedup_first_nodup. }
  assert (Hdata : forall key e, dict_get (doc_data st) key = Some e ->
            entry_from (List.concat results_list) key e).
  { intros key e G.
    destruct (visit_all_data _ _ _ _ _ _ Hall G) as [G0 | Hf];
      [discriminate|]. now rewrite map_snd_ranked in Hf. }
  destruct (build_ok (doc_data st) (sorted_desc snd (doc_scores st)))
    as (out' & Hout & Hall2).
  { intros p Hp. apply sorted_desc_in in Hp. rewrite <- Hagree.
    now apply in_map. }
  rewrite Hout in Hb. injection Hb as <-.
  constructor; auto.
  - intros d q Hin. apply (dict_get_in _ _ _ Hnd) in Hin.
    pose proof (visit_all_score _ _ _ _ d Hall) as Hs.
    unfold score_of in Hs. rewrite Hin in Hs. simpl in Hs.
    rewrite Qsum_ranked in Hs. lra.
  - clear Hout. induction Hall2 as [|p r l l' Hpr _ IH]; simpl; auto.
    rewrite IH. f_equal. destruct Hpr as (e & G & ->). simpl.
    destruct (Hdata _ _ G) as [-> _]. now destruct p.
  - intros r Hr.
    assert (Hex : exists p, fused_of (doc_data st) p r).
    { clear Hout. induction Hall2 as [|p r' l l' Hpr _ IH];
        [destruct Hr|].
      destruct Hr as [<- | Hr]; eauto. }
    destruct Hex as (p & e & G & ->). simpl.
    destruct (Hdata _ _ G) as (Hid & Hh). split; auto.
    rewrite Hid. exact Hh.
Qed.

Lemma fusion_total results_list k :
  0 <= k -> exists out, reciprocal_rank_fusion results_list k = Ok out.
Proof.
  intros Hk. unfold reciprocal_rank_fusion.
  destruct (visit_all_total k (ranked results_list)) with (st := acc_empty)
    as [st Hst].
  { intros p Hp. apply ranked_rank in Hp. lia. }
  rewrite visit_lists_all, Hst. simpl.
  destruct (visit_all_keys _ _ _ _ Hst eq_refl) as [Hagree _].
  destruct (build_ok (doc_data st) (sorted_desc snd (doc_scores st)))
    as (out & Hout & _); eauto.
  intros p Hp. apply sorted_desc_in in Hp. rewrite <- Hagree.
  now apply in_map.
Qed.

Lemma fusion_ids results_list k out st :
  fusion results_list k out st ->
  map f_document_id out = map fst (sorted_desc snd (doc_scores st)).
Proof.
  intros F. rewrite <- (fusion_sorted _ _ _ _ F), map_map. reflexivity.
Qed.

Lemma fusion_in results_list k out st r :
  fusion results_list k out st -> In r out ->
  In (f_document_id r, f_score r) (doc_scores st).
Proof.
  intros F Hr. apply (sorted_desc_in snd).
  rewrite <- (fusion_sorted _ _ _ _ F).
  apply (in_map (fun r => (f_document_id r, f_score r))) in Hr. exact Hr.
Qed.

Lemma keys_of_in d l :
  In d (keys_of l) <-> exists h, In h l /\ hit_key h = Some d.
Proof.
  unfold keys_of. rewrite in_flat_map. split.
  - intros (h & Hin & Hd). exists h. split; auto.
    destruct (hit_key h); simpl in Hd; [|tauto].
    destruct Hd as [-> | []]. reflexivity.
  - intros (h & Hin & Hd). exists h. split; auto. rewrite Hd. now left.
Qed.

Lemma occurs_keys d results_list :
  occurs d results_list <-> In d (keys_of (List.concat results_list)).
Proof.
  rewrite keys_of_in. unfold occurs. split.
  - intros (l & h & Hl & Hh & Hd). exists h. split; auto.
    apply in_concat. eauto.
  - intros (h & Hin & Hd). apply in_concat in Hin.
    destruct Hin as (l & Hl & Hh). eauto.
Qed.

(** Every output id is an id of the input, and conversely. *)
Lemma fusion_ids_iff results_list k out st d :
  fusion results_list k out st ->
  In d (map f_document_id out) <-> occurs d results_list.
Proof.
  intros F. rewrite (fusion_ids _ _ _ _ F), occurs_keys.
  rewrite <- (dedup_first_in d (keys_of _)), <- (fusion_keys _ _ _ _ F).
  unfold dict_keys. rewrite !in_map_iff. split.
  - intros (p & <- & Hp). apply sorted_desc_in in Hp. eauto.
  - intros (p & <- & Hp). exists p. split; auto.
    now apply sorted_desc_in.
Qed.

(** *** Order of the output *)

Lemma insert_desc_perm {A : Type} (key : A -> Q) x l :
  Permutation (insert_desc key x l) (x :: l).
Proof.
  induction l as [|y tl IH]; simpl; auto.
  destruct (Qle_bool (key y) (key x)); auto.
  rewrite IH. apply perm_swap.
Qed.

Lemma sorted_desc_perm {A : Type} (key : A -> Q) l :
  Permutation (sorted_desc key l) l.
Proof.
  induction l as [|x tl IH]; simpl; auto.
  rewrite insert_desc_perm. now constructor.
Qed.

Lemma sorted_map {A B : Type} (g : A -> B) (R : B -> B -> Prop) l :
  StronglySorted R (map g l) ->
  StronglySorted (fun a b => R (g a) (g b)) l.
Proof.
  induction l as [|x tl IH]; simpl; intros H; constructor;
    inversion H as [|? ? Hs Hall]; subst; auto.
  rewrite Forall_forall in *. intros y Hy. apply Hall. now apply in_map.
Qed.

Lemma fusion_nodup results_list k out st :
  fusion results_list k out st -> NoDup (map f_document_id out).
Proof.
  intros F. rewrite (fusion_ids _ _ _ _ F).
  apply (Permutation_NoDup (l := dict_keys (doc_scores st))).
  - unfold dict_keys. apply Permutation_map. symmetry.
    apply sorted_desc_perm.
  - rewrite (fusion_keys _ _ _ _ F). apply dedup_first_nodup.
Qed.

Lemma fusion_descending results_list k out st :
  fusion results_list k out st -> descending out.
Proof.
  intros F. unfold descending.
  apply (sorted_map (fun r => (f_document_id r, f_score r))
           (fun a b => (snd b <= snd a)%Q)).
  rewrite (fusion_sorted _ _ _ _ F). apply sorted_desc_sorted.
Qed.



(** *** A list of distinct documents *)



Lemma inv_rank_lt a b :
  0 < a -> a < b -> (1 / inject_Z b < 1 / inject_Z a)%Q.
Proof.
  intros Ha Hab. destruct a as [|a|a]; try lia.
  destruct b as [|b|b]; try lia.
  unfold Qlt, Qdiv, Qmult, Qinv, inject_Z; simpl. lia.
Qed.





(** *** The claims about fusion *)

(** C2. For every sequence of ranked lists and every positive [k], the
    fusion returns, and the fused score of each document id is the sum,
    over every list and every 1-based position at which the id occurs, of
    [1 / (k + position)]; every id that occurs has such an entry.  In
    particular two lists that each hold one document at rank 1, fused
    with [k = 60], give that document the score [2 / 61]. *)
Theorem rrf_score_is_sum :
  forall (results_list : list (list hit)) (k : Z) (a1 a2 : hit)
         (d : string),
    0 < k -> hit_key a1 = Some d -> hit_key a2 = Some d ->
    (exists out,
       reciprocal_rank_fusion results_list k = Ok out /\
       (forall d', occurs d' results_list ->
          exists r, In r out /\ f_document_id r = d') /\
       (forall r, In r out ->
          (f_score r == rrf_sum k (f_document_id r) results_list)%Q)) /\
    (exists r,
       reciprocal_rank_fusion [[a1]; [a2]] 60 = Ok [r] /\
       f_document_id r = d /\
       (f_score r == 2 # 61)%Q /\
       (Qabs (f_score r - (2 # 61)) < 1 # 1000000)%Q).
Proof.
  intros results_list k a1 a2 d Hk H1 H2. split.
  - destruct (fusion_total results_list k) as [out Hout]; [lia|].
    destruct (fusion_of _ _ _ Hout) as [st F].
    exists out. split; [exact Hout|]. split.
    + intros d' Hd'. apply (fusion_ids_iff _ _ _ _ d' F) in Hd'.
      apply in_map_iff in Hd'. destruct Hd' as (r & Hr & Hin). eauto.
    + intros r Hr. apply (fusion_scores _ _ _ _ F).
      now apply (fusion_in _ _ _ _ _ F).
  - unfold reciprocal_rank_fusion, acc_empty.
    cbn [visit_lists visit_list bind]. unfold visit. rewrite H1, H2.
    simpl. rewrite String.eqb_refl. simpl. rewrite String.eqb_refl. simpl.
    eexists. split; [reflexivity|]. simpl.
    split; [reflexivity|]. split; reflexivity.
Qed.

Lemma rrf_score_is_sum_witness :
  (exists out,
     reciprocal_rank_fusion same_doc_twice 60 = Ok out /\
     (forall d', occurs d' same_doc_twice ->
        exists r, In r out /\ f_document_id r = d') /\
     (forall r, In r out ->
        (f_score r == rrf_sum 60 (f_document_id r) same_doc_twice)%Q)) /\
  (exists r,
     reciprocal_rank_fusion [[doc "doc1"]; [doc "doc1"]] 60 = Ok [r] /\
     f_document_id r = "doc1" /\
     (f_score r == 2 # 61)%Q /\
     (Qabs (f_score r - (2 # 61)) < 1 # 1000000)%Q).
Proof.
  apply (rrf_score_is_sum same_doc_twice 60 (doc "doc1") (doc "doc1")
           "doc1"); reflexivity.
Defined.

(** C4, on the test input of two disjoint lists of two documents: all
    four documents come out, and the first two share the score [1 / 61],
    so the output is not strictly descending. *)
Lemma rrf_no_overlap_has_ties :
  exists out,
    reciprocal_rank_fusion no_overlap 60 = Ok out /\
    map f_document_id out = ["doc1"; "doc3"; "doc2"; "doc4"] /\
    ~ strictly_descending out.
Proof.
  eexists. split; [vm_compute; reflexivity|]. split; [reflexivity|].
  unfold strictly_descending. intros H.
  inversion H as [|? ? _ Hall]; subst.
  inversion Hall as [|? ? Hlt _]; subst.
  revert Hlt. vm_compute. discriminate.
Qed.

(** C4, as the code has it.  For every sequence of ranked lists and every
    [k >= 0], the fusion returns; its output holds every document id that
    occurs, not skipped, in some input list, each exactly once and no
    other id; and it is ordered by fused score from high to low, equal
    scores allowed. *)
Theorem rrf_complete_and_descending :
  forall (results_list : list (list hit)) (k : Z),
    0 <= k ->
    exists out,
      reciprocal_rank_fusion results_list k = Ok out /\
      NoDup (map f_document_id out) /\
      (forall d, In d (map f_document_id out) <-> occurs d results_list) /\
      descending out.
Proof.
  intros results_list k Hk.
  destruct (fusion_total results_list k Hk) as [out Hout].
  destruct (fusion_of _ _ _ Hout) as [st F].
  exists out. split; [exact Hout|]. split; [|split].
  - exact (fusion_nodup _ _ _ _ F).
  - intros d. exact (fusion_ids_iff _ _ _ _ d F).
  - exact (fusion_descending _ _ _ _ F).
Qed.

Lemma rrf_complete_and_descending_witness :
  exists out,
    reciprocal_rank_fusion no_overlap 60 = Ok out /\
    NoDup (map f_document_id out) /\
    (forall d, In d (map f_document_id out) <-> occurs d no_overlap) /\
    descending out.
Proof.
  apply (rrf_complete_and_descending no_overlap 60). discriminate.
Defined.



(** *** Skipped hits *)

Lemma skipped_iff h : skipped h <-> hit_key h = None.
Proof.
  unfold skipped, hit_key, get_or.
  destruct (h_document_id h) as [[|s]|]; simpl.
  - intuition congruence.
  - destruct (String.eqb s "") eqn:E.
    + apply String.eqb_eq in E. subst. intuition.
    + apply String.eqb_neq in E. split; [|discriminate].
      intros [H | [H | H]]; try discriminate. congruence.
  - intuition.
Qed.

Lemma enumerate_app rank l1 l2 :
  enumerate rank (l1 ++ l2)
  = (enumerate rank l1
     ++ enumerate (rank + Z.of_nat (List.length l1)) l2)%list.
Proof.
  revert rank. induction l1 as [|h tl IH]; intros rank.
  - simpl. f_equal. lia.
  - cbn [app enumerate List.length]. rewrite IH. cbn [app].
    do 3 f_equal. lia.
Qed.

Lemma list_contribution_skip k d pre h post :
  hit_key h = None ->
  (list_contribution k 1 d (pre ++ h :: post)
   == list_contribution k 1 d pre
      + list_contribution k (Z.of_nat (List.length pre) + 2) d post)%Q.
Proof.
  intros Hh. unfold list_contribution.
  rewrite enumerate_app, map_app, Qsum_app. cbn [enumerate map Qsum fold_right].
  unfold term at 2, has_key. cbn [snd]. rewrite Hh.
  replace (1 + Z.of_nat (List.length pre) + 1)
    with (Z.of_nat (List.length pre) + 2) by lia.
  fold (Qsum (map (term k d)
    (enumerate (Z.of_nat (List.length pre) + 2) post))). lra.
Qed.

Lemma rrf_sum_app k d ls1 ls2 :
  (rrf_sum k d (ls1 ++ ls2) == rrf_sum k d ls1 + rrf_sum k d ls2)%Q.
Proof. unfold rrf_sum. now rewrite map_app, Qsum_app. Qed.

Lemma hit_key_raw h d : hit_key h = Some d -> raw_id h = PyStr d /\ d <> "".
Proof.
  unfold hit_key, raw_id. destruct (get_or (h_document_id h) PyNone);
    [discriminate|].
  destruct (String.eqb s "") eqn:E; [discriminate|].
  apply String.eqb_neq in E. intros [= <-]. auto.
Qed.

Lemma occurs_without_skipped d ls1 ls2 pre post h :
  hit_key h = None ->
  occurs d (ls1 ++ (pre ++ h :: post) :: ls2)%list
  <-> occurs d (ls1 ++ (pre ++ post) :: ls2)%list.
Proof.
  intros Hh. rewrite !occurs_keys, !keys_of_in.
  rewrite !concat_app. cbn [List.concat].
  split; intros (x & Hin & Hx); exists x; (split; [|exact Hx]);
    rewrite !in_app_iff in *; cbn [In] in *.
  - destruct Hin as [H | [[H | [H | H]] | H]]; auto. congruence.
  - destruct Hin as [H | [[H | H] | H]]; auto.
Qed.

(** C10. Let one of the input lists hold a hit [h] whose document id is
    absent, [None] or the empty string, after the hits [pre] and before
    the hits [post].  Then, for [k >= 0], the fusion returns; no output
    entry carries the id of [h]; the output holds an entry for exactly
    the ids that the other hits carry; and in the fused score of every
    such document this list counts with its hits in [pre] at the
    positions [1, 2, ...] and its hits in [post] at the positions
    [length pre + 2, ...]: the skipped hit keeps its position. *)
Theorem rrf_skipped_hit_keeps_rank :
  forall (ls1 ls2 : list (list hit)) (pre post : list hit) (h : hit)
         (k : Z),
    0 <= k -> skipped h ->
    exists out,
      reciprocal_rank_fusion (ls1 ++ (pre ++ h :: post) :: ls2)%list k
      = Ok out /\
      (forall r, In r out ->
         PyStr (f_document_id r) <> raw_id h /\ f_document_id r <> "") /\
      (forall d,
         occurs d (ls1 ++ (pre ++ post) :: ls2)%list <->
         exists r, In r out /\ f_document_id r = d) /\
      (forall r, In r out ->
         (f_score r
          == rrf_sum k (f_document_id r) ls1
             + (list_contribution k 1 (f_document_id r) pre
                + list_contribution k (Z.of_nat (List.length pre) + 2)
                    (f_document_id r) post)
             + rrf_sum k (f_document_id r) ls2)%Q).
Proof.
  intros ls1 ls2 pre post h k Hk Hskip.
  apply skipped_iff in Hskip.
  destruct (fusion_total (ls1 ++ (pre ++ h :: post) :: ls2)%list k Hk)
    as [out Hout].
  destruct (fusion_of _ _ _ Hout) as [st F].
  exists out. split; [exact Hout|]. split; [|split].
  - intros r Hr.
    destruct (fusion_data _ _ _ _ F r Hr) as (_ & h' & _ & Hkey & _).
    apply hit_key_raw in Hkey. destruct Hkey as [_ Hne]. split; auto.
    unfold raw_id, hit_key in *.
    destruct (get_or (h_document_id h) PyNone) as [|s]; [discriminate|].
    destruct (String.eqb s "") eqn:E; [|discriminate].
    apply String.eqb_eq in E. subst s. congruence.
  - intros d. rewrite <- (occurs_without_skipped d ls1 ls2 pre post h Hskip).
    rewrite <- (fusion_ids_iff _ _ _ _ d F), in_map_iff.
    split; intros (r & H1 & H2); exists r; auto.
  - intros r Hr.
    rewrite (fusion_scores _ _ _ _ F _ _ (fusion_in _ _ _ _ _ F Hr)).
    rewrite rrf_sum_app. unfold rrf_sum at 2.
    cbn [map Qsum fold_right].
    rewrite (list_contribution_skip k _ pre h post Hskip).
    fold (Qsum (map (list_contribution k 1 (f_document_id r)) ls2)).
    fold (rrf_sum k (f_document_id r) ls2). lra.
Qed.

Lemma rrf_skipped_hit_keeps_rank_witness :
  exists out,
    reciprocal_rank_fusion
      ([] ++ ([doc "doc1"]
              ++ mkHit (Some (PyStr "")) (Some "lost") 1 None
                 :: [doc "doc2"]) :: [])%list 60 = Ok out /\
    (forall r, In r out ->
       PyStr (f_document_id r)
       <> raw_id (mkHit (Some (PyStr "")) (Some "lost") 1 None)
       /\ f_document_id r <> "") /\
    (forall d,
       occurs d ([] ++ ([doc "doc1"] ++ [doc "doc2"]) :: [])%list <->
       exists r, In r out /\ f_document_id r = d) /\
    (forall r, In r out ->
       (f_score r
        == rrf_sum 60 (f_document_id r) []
           + (list_contribution 60 1 (f_document_id r) [doc "doc1"]
              + list_contribution 60
                  (Z.of_nat (List.length [doc "doc1"]) + 2)
                  (f_document_id r) [doc "doc2"])
           + rrf_sum 60 (f_document_id r) [])%Q).
Proof.
  apply (rrf_skipped_hit_keeps_rank [] [] [doc "doc1"] [doc "doc2"]
           (mkHit (Some (PyStr "")) (Some "lost") 1 None) 60).
  - discriminate.
  - right. right. reflexivity.
Defined.

(** The lists of [test_rrf_basic]: [doc1] and [doc2] both get
    [1 / 61 + 1 / 62], and [doc1], seen first, stays first. *)
Example rrf_basic_order :
  exists out,
    reciprocal_rank_fusion basic 60 = Ok out /\
    map f_document_id out = ["doc1"; "doc2"; "doc3"; "doc4"].
Proof. eexists. split; [vm_compute; reflexivity|]. reflexivity. Qed.

(** The input [with_skipped], evaluated: the document after the skipped
    hit gets [1 / (60 + 3)], its position counting the skipped one. *)
Example rrf_with_skipped_scores :
  exists r1 r2,
    reciprocal_rank_fusion with_skipped 60 = Ok [r1; r2] /\
    f_document_id r1 = "doc1" /\ (f_score r1 == 1 # 61)%Q /\
    f_document_id r2 = "doc2" /\ (f_score r2 == 1 # 63)%Q.
Proof.
  do 2 eexists. split; [vm_compute; reflexivity|].
  repeat split; reflexivity.
Qed.

End RrfFacts.

(** ** The sparse vector *)

Module SparseFacts.
Import Rrf RrfSpec Qdrant SparseSpec.

Lemma count_step_keys d w :
  dict_keys (count_step d w)
  = (dict_keys d ++ if fresh (dict_keys d) w then [w] else [])%list.
Proof.
  unfold count_step. destruct (dict_get d w) as [v|] eqn:G.
  - rewrite (dict_keys_set_old _ _ _ _ G).
    assert (H : fresh (dict_keys d) w = false).
    { apply RrfFacts.fresh_false.
      destruct (in_dec string_dec w (dict_keys d)) as [Hi|Hi]; auto.
      apply dict_get_none in Hi. congruence. }
    now rewrite H, app_nil_r.
  - rewrite (dict_keys_set_new _ _ _ G).
    assert (H : fresh (dict_keys d) w = true).
    { apply RrfFacts.fresh_true. now apply dict_get_none. }
    now rewrite H.
Qed.

Lemma fold_count_keys ws : forall d,
  dict_keys (fold_left count_step ws d)
  = (dict_keys d
     ++ filter (fresh (dict_keys d)) (dedup_first ws))%list.
Proof.
  induction ws as [|w tl IH]; intros d; simpl.
  - now rewrite app_nil_r.
  - rewrite IH, count_step_keys.
    destruct (fresh (dict_keys d) w) eqn:Hf; simpl.
    + rewrite <- app_assoc. simpl. f_equal. f_equal.
      rewrite filter_filter. apply filter_ext. intros y.
      rewrite RrfFacts.fresh_app. apply andb_comm.
    + rewrite app_nil_r. f_equal. rewrite filter_filter.
      apply filter_ext_in. intros y _.
      destruct (String.eqb w y) eqn:E; simpl; auto.
      apply String.eqb_eq in E. subst. auto.
Qed.

Lemma fold_count_get ws : forall d t,
  get_or (dict_get (fold_left count_step ws d) t) 0
  = get_or (dict_get d t) 0 + Z.of_nat (count_occ string_dec ws t).
Proof.
  induction ws as [|w tl IH]; intros d t; simpl; [lia|].
  rewrite IH. unfold count_step at 1.
  destruct (string_dec w t) as [->|Hne].
  - rewrite dict_get_set_same. simpl. lia.
  - rewrite dict_get_set_other by auto. lia.
Qed.

Lemma dict_as_map (d : dict Z) (g : string -> Z) :
  (forall t v, In (t, v) d -> v = g t) ->
  d = map (fun t => (t, g t)) (dict_keys d).
Proof.
  induction d as [|[t v] tl IH]; simpl; intros H; auto.
  rewrite <- IH by (intros; apply H; auto).
  now rewrite (H t v) by auto.
Qed.

Lemma count_words_table tokens : count_words tokens = freq_table tokens.
Proof.
  unfold count_words, freq_table.
  change (fold_left count_step tokens [] =
          map (fun t => (t, Z.of_nat (count_occ string_dec tokens t)))
            (dedup_first tokens)).
  pose proof (fold_count_keys tokens []) as Hk. simpl in Hk.
  rewrite filter_all in Hk by (intros; reflexivity).
  rewrite <- Hk. apply dict_as_map. intros t v Hin.
  apply dict_get_in in Hin.
  2:{ rewrite Hk. apply dedup_first_nodup. }
  pose proof (fold_count_get tokens [] t) as Hg.
  rewrite Hin in Hg. simpl in Hg. exact Hg.
Qed.

(** *** What [split] returns *)

Lemma no_space_app s c :
  no_space s -> PyStr.isspace c = false -> no_space (s ++ String c "").
Proof.
  unfold no_space. induction s as [|c0 tl IH]; simpl; intros Hs Hc.
  - constructor; auto.
  - inversion Hs; subst. constructor; auto.
Qed.

Lemma append_nonempty s c : (s ++ String c "")%string <> "".
Proof. destruct s; discriminate. Qed.

Lemma split_from_tokens s : forall cur,
  no_space cur ->
  Forall (fun t => t <> "" /\ no_space t) (PyStr.split_from s cur).
Proof.
  induction s as [|c tl IH]; intros cur Hcur; simpl.
  - destruct (String.eqb cur "") eqn:E; constructor; auto.
    apply String.eqb_neq in E. auto.
  - destruct (PyStr.isspace c) eqn:Hc.
    + destruct (String.eqb cur "") eqn:E.
      * apply IH. constructor.
      * apply String.eqb_neq in E. constructor; auto.
        apply IH. constructor.
    + apply IH. now apply no_space_app.
Qed.

(** C3, on the code, for the text ["his king"]: the two distinct tokens
    fall into the same bucket 3652, and the vector holds two entries with
    that index, each of weight 1; the frequencies are not summed into one
    weight at a single index, and the indices of the vector are not
    unique. *)
Lemma sparse_vector_collision_not_summed :
  exists self v,
    "his" <> "king" /\
    bucket "his" = 3652 /\ bucket "king" = 3652 /\
    _create_sparse_vector self "his king" = v /\
    indices v = [3652; 3652] /\
    values v = [inject_Z 1; inject_Z 1] /\
    ~ NoDup (indices v).
Proof.
  exists (mkService "rag_documents" [] []). eexists.
  split; [discriminate|].
  split; [vm_compute; reflexivity|].
  split; [vm_compute; reflexivity|].
  split; [reflexivity|].
  split; [vm_compute; reflexivity|].
  split; [vm_compute; reflexivity|].
  intros H. vm_compute in H. inversion H as [|? ? Hnotin _]; subst.
  apply Hnotin. now left.
Qed.

(** X24. What [_create_sparse_vector] builds.  For every ASCII text, the
    sparse vector is built from the tokens of the lower-cased text split
    on whitespace (the tokens are non-empty and hold no whitespace): it
    has one entry per distinct token, in order of first occurrence, whose
    index is the token's bucket and whose value is the token's number of
    occurrences.  Empty text yields the empty vector. *)
Theorem sparse_vector_entries :
  forall (self : QdrantService) (text : string),
    PyStr.isascii text = true ->
    let tokens := PyStr.split (PyStr.lower text) in
    let v := _create_sparse_vector self text in
    Forall (fun t => t <> "" /\ no_space t) tokens /\
    indices v = map bucket (dedup_first tokens) /\
    values v
    = map (fun t => inject_Z (Z.of_nat (count_occ string_dec tokens t)))
        (dedup_first tokens) /\
    List.length (indices v) = List.length (dedup_first tokens) /\
    _create_sparse_vector self "" = mkSparse [] [].
Proof.
  intros self text _ tokens v. split; [|split; [|split; [|split]]].
  - apply split_from_tokens. constructor.
  - unfold v, _create_sparse_vector. fold tokens.
    rewrite count_words_table. unfold freq_table. simpl.
    rewrite map_map. reflexivity.
  - unfold v, _create_sparse_vector. fold tokens.
    rewrite count_words_table. unfold freq_table. simpl.
    rewrite map_map. reflexivity.
  - unfold v, _create_sparse_vector. fold tokens.
    rewrite count_words_table. unfold freq_table. simpl.
    now rewrite !length_map.
  - reflexivity.
Qed.

Lemma sparse_vector_entries_witness :
  let text := "Secret information for tenant A. Secret!" in
  let tokens := PyStr.split (PyStr.lower text) in
  let v := _create_sparse_vector QdrantSpec.an_empty_service text in
  Forall (fun t => t <> "" /\ no_space t) tokens /\
  indices v = map bucket (dedup_first tokens) /\
  values v
  = map (fun t => inject_Z (Z.of_nat (count_occ string_dec tokens t)))
      (dedup_first tokens) /\
  List.length (indices v) = List.length (dedup_first tokens) /\
  _create_sparse_vector QdrantSpec.an_empty_service "" = mkSparse [] [].
Proof.
  apply (sparse_vector_entries QdrantSpec.an_empty_service
           "Secret information for tenant A. Secret!").
  reflexivity.
Defined.

End SparseFacts.

(** ** The Vector Store service *)

Module QdrantFacts.
Import Rrf RrfSpec Qdrant QdrantSpec.

Lemma matches_tenant t p :
  matches (tenant_filter t) p = true <-> p_tenant_id (pt_payload p) = t.
Proof.
  unfold matches, tenant_filter, cond_holds, payload_get. simpl.
  rewrite andb_true_r. apply String.eqb_eq.
Qed.

Lemma sorted_filter {A : Type} (R : A -> A -> Prop) (f : A -> bool) l :
  StronglySorted R l -> StronglySorted R (filter f l).
Proof.
  induction 1 as [|x tl Hs IH Hall]; simpl; [constructor|].
  destruct (f x); auto. constructor; auto.
  rewrite Forall_forall in *. intros y Hy. apply filter_In in Hy.
  apply Hall. tauto.
Qed.

Lemma upsert_point_in p q l :
  In q (upsert_point p l) -> q = p \/ In q l.
Proof.
  induction l as [|x tl IH]; simpl.
  - intuition.
  - destruct (pt_id p <? pt_id x); simpl; [intuition|].
    destruct (pt_id p =? pt_id x); simpl; intuition.
Qed.

Lemma upsert_point_sorted p l :
  StronglySorted by_id l -> StronglySorted by_id (upsert_point p l).
Proof.
  induction 1 as [|x tl Hs IH Hall]; simpl.
  - repeat constructor.
  - destruct (pt_id p <? pt_id x) eqn:E1.
    + apply Z.ltb_lt in E1. constructor; [now constructor|].
      constructor; [exact E1|]. rewrite Forall_forall in *.
      intros y Hy. specialize (Hall y Hy). unfold by_id in *. lia.
    + apply Z.ltb_ge in E1. destruct (pt_id p =? pt_id x) eqn:E2.
      * apply Z.eqb_eq in E2. constructor; auto.
        rewrite Forall_forall in *. intros y Hy. specialize (Hall y Hy).
        unfold by_id in *. lia.
      * apply Z.eqb_neq in E2. constructor; auto.
        rewrite Forall_forall in *. intros y Hy.
        apply upsert_point_in in Hy. destruct Hy as [-> | Hy]; auto.
        unfold by_id. lia.
Qed.

Lemma insert_document_ok self uuid t d c m v :
  store_ok self -> store_ok (snd (insert_document self uuid t d c m v)).
Proof.
  unfold store_ok, insert_document, client_upsert. intros H.
  destruct (distinct _); cbn [snd points log]; auto.
  now apply upsert_point_sorted.
Qed.

(** What [insert_document] does, by the vector of the content. *)
Lemma insert_document_cases self uuid t d c m v :
  let point :=
    mkPoint uuid v (_create_sparse_vector self c) (mkPayload t d c m) in
  let request := ReqUpsert (svc_collection self) point in
  (distinct (indices (_create_sparse_vector self c)) = true /\
   insert_document self uuid t d c m v
   = (Ok tt,
      mkService (svc_collection self) (upsert_point point (points self))
        (request :: issued self))) \/
  (distinct (indices (_create_sparse_vector self c)) = false /\
   insert_document self uuid t d c m v
   = (Raise (OtherError indices_must_be_unique),
      mkService (svc_collection self) (points self)
        (request :: issued self))).
Proof.
  intros point request. unfold insert_document, client_upsert.
  fold point. cbn [pt_sparse point].
  destruct (distinct (indices (_create_sparse_vector self c))) eqn:E;
    [left | right]; split; reflexivity.
Qed.

(** *** One page of the scroll and its deletion *)

Lemma id_in_map ids p : id_in ids p = true <-> In (pt_id p) ids.
Proof.
  unfold id_in. rewrite existsb_exists. split.
  - intros (x & Hx & E). apply Z.eqb_eq in E. now subst.
  - intros H. exists (pt_id p). split; auto. apply Z.eqb_refl.
Qed.

Lemma delete_page (m : PointStruct -> bool) l : forall n,
  StronglySorted by_id l ->
  filter m
    (filter (fun p => negb (id_in (map pt_id (firstn n (filter m l))) p))
       l)
  = skipn n (filter m l).
Proof.
  induction l as [|x tl IH]; intros n Hs; [now destruct n|].
  inversion Hs as [|? ? Hs' Hall]; subst.
  destruct n as [|n].
  - cbn [firstn map skipn]. rewrite (filter_all (fun p => negb _));
      [reflexivity | intros; reflexivity].
  - cbn [filter]. destruct (m x) eqn:Hm.
    + cbn [firstn map skipn].
      assert (Hx : id_in (pt_id x :: map pt_id (firstn n (filter m tl))) x
                   = true).
      { apply id_in_map. now left. }
      rewrite Hx. cbn [negb]. rewrite <- (IH n Hs'). f_equal.
      apply filter_ext_in. intros y Hy. f_equal.
      unfold id_in. cbn [existsb].
      rewrite Forall_forall in Hall. specialize (Hall y Hy).
      unfold by_id in Hall.
      replace (pt_id y =? pt_id x) with false; [reflexivity|].
      symmetry. apply Z.eqb_neq. lia.
    + destruct (negb (id_in (map pt_id (firstn (S n) (filter m tl))) x));
        cbn [filter]; rewrite ?Hm; apply (IH (S n) Hs').
Qed.

Lemma sorted_nth_skipn l : forall n p q,
  StronglySorted by_id l ->
  nth_error l n = Some p -> In q (skipn n l) -> pt_id p <= pt_id q.
Proof.
  induction l as [|x tl IH]; intros n p q Hs Hn Hq;
    [destruct n; discriminate|].
  inversion Hs as [|? ? Hs' Hall]; subst. destruct n as [|n]; simpl in *.
  - injection Hn as <-. destruct Hq as [<- | Hq]; [lia|].
    rewrite Forall_forall in Hall. specialize (Hall q Hq).
    unfold by_id in Hall. lia.
  - eauto.
Qed.

Lemma nth_error_none_skipn {A : Type} (l : list A) n :
  nth_error l n = None -> skipn n l = [].
Proof.
  intros H. apply nth_error_None in H. now apply skipn_all2.
Qed.

(** *** The loop *)

Lemma delete_loop_spec t : forall fuel self offset count,
  store_ok self ->
  reaches offset (of_tenant t self) ->
  (List.length (of_tenant t self) < fuel)%nat ->
  exists self',
    delete_loop fuel self t offset count
    = Some (count + Z.of_nat (List.length (of_tenant t self)), self')
    /\ store_ok self' /\ of_tenant t self' = []
    /\ svc_collection self' = svc_collection self.
Proof.
  induction fuel as [|fuel IH]; intros self offset count Hok Hreach Hfuel;
    [lia|].
  cbn [delete_loop client_scroll log points svc_collection issued].
  set (m := matches (tenant_filter t)).
  assert (Hrest : filter (fun p => m p && from_offset offset p)
                    (points self) = of_tenant t self).
  { unfold of_tenant. fold m. apply filter_ext_in. intros p Hp.
    destruct (m p) eqn:Hm; simpl; auto. apply Hreach.
    unfold of_tenant. fold m. apply filter_In. auto. }
  rewrite Hrest.
  remember (of_tenant t self) as M eqn:HM.
  destruct (firstn 100 M) as [|p0 page] eqn:Hpage.
  - assert (M = []) by (destruct M; [auto | discriminate]). subst M.
    rewrite H in *. eexists. split; [simpl; f_equal; f_equal; lia|].
    split; [exact Hok|]. split; [|reflexivity].
    unfold of_tenant. simpl. unfold of_tenant in H. exact H.
  - rewrite <- Hpage.
    set (self1 := client_delete _ _).
    assert (Hok1 : store_ok self1).
    { unfold store_ok, self1, client_delete, log. cbn [points].
      now apply sorted_filter. }
    assert (HM1 : of_tenant t self1 = skipn 100 M).
    { unfold of_tenant, self1, client_delete, log. cbn [points]. fold m.
      rewrite HM. unfold of_tenant. fold m. now apply delete_page. }
    assert (Hlen : (List.length (firstn 100 M)
                    + List.length (skipn 100 M) = List.length M)%nat).
    { rewrite <- length_app, firstn_skipn. reflexivity. }
    rewrite length_map.
    destruct (nth_error M 100) as [p1|] eqn:Hnth; cbn [option_map].
    + destruct (IH self1 (Some (pt_id p1))
                  (count + Z.of_nat (List.length (firstn 100 M))) Hok1)
        as (self' & Hrun & Hok' & Hempty & Hcoll).
      * intros q Hq. rewrite HM1 in Hq. simpl. apply Z.leb_le.
        apply (sorted_nth_skipn M 100); auto.
        rewrite HM. unfold of_tenant. now apply sorted_filter.
      * rewrite HM1. rewrite Hpage in Hlen. cbn [List.length] in Hlen.
        lia.
      * exists self'. split; [|auto].
        rewrite Hrun. f_equal. f_equal. rewrite HM1. lia.
    + exists self1. split; [|split; [exact Hok1|split; [|reflexivity]]].
      * f_equal. f_equal.
        rewrite (nth_error_none_skipn _ _ Hnth) in Hlen.
        cbn [List.length] in Hlen. lia.
      * rewrite HM1. now apply nth_error_none_skipn.
Qed.

Lemma a_service_ok : store_ok a_service.
Proof.
  unfold a_service. repeat apply insert_document_ok. constructor.
Qed.

Lemma of_tenant_length t self :
  (List.length (of_tenant t self) <= List.length (points self))%nat.
Proof. unfold of_tenant. apply filter_length_le. Qed.

(** C9. On a store whose points are kept by id, and with enough fuel for
    the loop (more than the number of stored points), [delete_by_tenant]
    returns a count that is not negative, namely the number of points of
    the tenant, and leaves no point of the tenant; called again at once,
    it returns 0. *)
Theorem delete_by_tenant_twice :
  forall (self : QdrantService) (tenant_id : string) (fuel : nat),
    store_ok self ->
    (List.length (points self) < fuel)%nat ->
    exists n self',
      delete_by_tenant fuel self tenant_id = Some (n, self') /\
      0 <= n /\
      n = Z.of_nat (List.length (of_tenant tenant_id self)) /\
      of_tenant tenant_id self' = [] /\
      exists self'',
        delete_by_tenant fuel self' tenant_id = Some (0, self'').
Proof.
  intros self t fuel Hok Hfuel.
  pose proof (of_tenant_length t self) as Hle.
  destruct (delete_loop_spec t fuel self None 0 Hok) as
    (self' & Hrun & Hok' & Hempty & _);
    [intros p _; reflexivity | lia |].
  exists (Z.of_nat (List.length (of_tenant t self))), self'.
  split; [exact Hrun|]. split; [lia|]. split; [reflexivity|].
  split; [exact Hempty|].
  destruct (delete_loop_spec t fuel self' None 0 Hok') as
    (self'' & Hrun' & _);
    [intros p _; reflexivity | rewrite Hempty; simpl; lia |].
  exists self''. unfold delete_by_tenant. rewrite Hrun', Hempty.
  reflexivity.
Qed.

Lemma delete_by_tenant_twice_witness :
  exists n self',
    delete_by_tenant 4 a_service "tenant_a" = Some (n, self') /\
    0 <= n /\
    n = Z.of_nat (List.length (of_tenant "tenant_a" a_service)) /\
    of_tenant "tenant_a" self' = [] /\
    exists self'',
      delete_by_tenant 4 self' "tenant_a" = Some (0, self'').
Proof.
  apply (delete_by_tenant_twice a_service "tenant_a" 4).
  - unfold store_ok. vm_compute. repeat constructor.
  - vm_compute. reflexivity.
Defined.

(** The witness, evaluated: two points go, then none. *)
Example delete_tenant_a :
  exists self',
    delete_by_tenant 4 a_service "tenant_a" = Some (2, self') /\
    map pt_id (points self') = [3] /\
    exists self'', delete_by_tenant 4 self' "tenant_a" = Some (0, self'').
Proof.
  eexists. split; [vm_compute; reflexivity|]. split; [reflexivity|].
  eexists. vm_compute. reflexivity.
Qed.

(** *** Searches *)

Lemma in_firstn {A : Type} (x : A) n l : In x (firstn n l) -> In x l.
Proof.
  revert l. induction n as [|n IH]; intros [|y tl]; simpl; try tauto.
  intros [-> | H]; auto.
Qed.

Section Engine.
Variable similarity : QueryVector -> PointStruct -> Q.

Lemma client_search_spec self q flt limit :
  forall ps self',
    client_search similarity self q flt limit = (ps, self') ->
    points self' = points self /\
    svc_collection self' = svc_collection self /\
    issued self'
    = ReqSearch (svc_collection self) q flt limit :: issued self /\
    forall p, In p ps ->
      In p (points self) /\ matches flt p = true /\ candidate q p = true.
Proof.
  unfold client_search. intros ps self' [= <- <-]. simpl.
  split; [reflexivity|]. split; [reflexivity|]. split; [reflexivity|].
  intros p H. apply in_firstn, sorted_desc_in, filter_In in H.
  destruct H as [H1 H2]. apply andb_true_iff in H2. tauto.
Qed.

Lemma search_dense_spec self t v k hits self' :
  search_dense similarity self t v k = (hits, self') ->
  points self' = points self /\
  svc_collection self' = svc_collection self /\
  issued self'
  = ReqSearch (svc_collection self) (DenseQuery v) (tenant_filter t) k
      :: issued self /\
  hits_of_tenant similarity t self hits.
Proof.
  unfold search_dense.
  destruct (client_search similarity self (DenseQuery v)
              (tenant_filter t) k) as [ps s1] eqn:E.
  intros [= <- <-].
  destruct (client_search_spec _ _ _ _ _ _ E) as (Hp & Hc & Hi & Hin).
  repeat split; auto. intros h Hh. apply in_map_iff in Hh.
  destruct Hh as (p & <- & Hpin). destruct (Hin p Hpin) as (Hst & Hm & _).
  exists p, (DenseQuery v). repeat split; auto.
  now apply matches_tenant.
Qed.

Lemma search_sparse_spec self t text k hits self' :
  search_sparse similarity self t text k = (hits, self') ->
  points self' = points self /\
  svc_collection self' = svc_collection self /\
  issued self'
  = ReqSearch (svc_collection self)
      (SparseQuery (_create_sparse_vector self text)) (tenant_filter t) k
      :: issued self /\
  hits_of_tenant similarity t self hits.
Proof.
  unfold search_sparse.
  destruct (client_search similarity self
              (SparseQuery (_create_sparse_vector self text))
              (tenant_filter t) k) as [ps s1] eqn:E.
  intros [= <- <-].
  destruct (client_search_spec _ _ _ _ _ _ E) as (Hp & Hc & Hi & Hin).
  repeat split; auto. intros h Hh. apply in_map_iff in Hh.
  destruct Hh as (p & <- & Hpin). destruct (Hin p Hpin) as (Hst & Hm & _).
  exists p, (SparseQuery (_create_sparse_vector self text)).
  repeat split; auto. now apply matches_tenant.
Qed.
End Engine.

End QdrantFacts.

(** ** Hybrid search *)

Module SearchFacts.
Import Rrf RrfSpec Qdrant Asyncio Search QdrantSpec SearchSpec QdrantFacts.

Section Service.
Variable similarity : QueryVector -> PointStruct -> Q.
Variable encode : string -> list Q.

(** The sparse search sees the store the dense search saw. *)
Lemma search_sparse_after_dense self t v text k k' :
  fst (search_sparse similarity
         (snd (search_dense similarity self t v k)) t text k')
  = fst (search_sparse similarity self t text k').
Proof. reflexivity. Qed.

(** [hybrid_search], with the coroutines run.  A deadline that is not
    positive cancels both searches before they start, and the second
    [await] of the dense coroutine raises; with a positive deadline both
    searches run to their end. *)
Lemma hybrid_search_eq cfg env self t query top_k :
  hybrid_search similarity encode cfg env self t query top_k
  = if Qle_bool (search_timeout cfg) 0 then
      (Raise (RuntimeError reuse_message), self)
    else
      (let '(dense, s1) :=
         search_dense similarity self t (encode query) (top_k * 2) in
       let '(sparse, s2) :=
         search_sparse similarity s1 t query (top_k * 2) in
       (merged <- reciprocal_rank_fusion [dense; sparse] (rrf_k cfg) ;;
        Ok (firstn top_k merged,
            ((end_time env - start_time env) * 1000)%Q), s2)).
Proof.
  unfold hybrid_search, wait_for_gather, await, create, close.
  destruct (Qle_bool (search_timeout cfg) 0); cbn [cr_closed cr_body].
  - reflexivity.
  - destruct (search_dense similarity self t (encode query) (top_k * 2))
      as [dense s1].
    destruct (search_sparse similarity s1 t query (top_k * 2))
      as [sparse s2].
    reflexivity.
Qed.

(** The result of [hybrid_search], in terms of the two hit lists. *)
Lemma hybrid_search_result cfg env self t query top_k :
  fst (hybrid_search similarity encode cfg env self t query top_k)
  = if Qle_bool (search_timeout cfg) 0 then
      Raise (RuntimeError reuse_message)
    else
      merged <-
        reciprocal_rank_fusion
          [fst (search_dense similarity self t (encode query)
                  (top_k * 2));
           fst (search_sparse similarity self t query (top_k * 2))]
          (rrf_k cfg) ;;
      Ok (firstn top_k merged,
          ((end_time env - start_time env) * 1000)%Q).
Proof.
  rewrite hybrid_search_eq.
  destruct (Qle_bool (search_timeout cfg) 0); [reflexivity|].
  rewrite <- (search_sparse_after_dense self t (encode query) query
                (top_k * 2) (top_k * 2)).
  destruct (search_dense similarity self t (encode query) (top_k * 2))
    as [dense s1].
  cbn [fst snd].
  destruct (search_sparse similarity s1 t query (top_k * 2))
    as [sparse s2].
  reflexivity.
Qed.

(** A search that can be in time has a positive deadline: it takes more
    than no time. *)
Lemma positive_deadline cfg env :
  (dense_seconds env <= search_timeout cfg)%Q ->
  Qle_bool (search_timeout cfg) 0 = false.
Proof.
  intros Hd. pose proof (dense_takes_time env) as Hpos.
  destruct (Qle_bool (search_timeout cfg) 0) eqn:E; auto.
  apply Qle_bool_iff in E. lra.
Qed.

(** C1, on the code.  The two searches hold no [await]: once started
    they run to their end, and no deadline interrupts them.  With a
    positive [search_timeout] the call therefore returns the first
    [top_k] entries of the fusion of both complete hit lists (or raises
    what the fusion raises), however long the searches take: also when
    the dense search ends within the deadline and the sparse search after
    it.  With a [search_timeout] that is not positive both searches are
    cancelled before they start, and the [except] branch, which awaits
    the dense coroutine a second time, raises [RuntimeError].  Either
    way no dense-only result is returned. *)
Theorem hybrid_search_never_degrades :
  forall (cfg : Settings) (env : timing) (self : QdrantService)
         (tenant_id query : string) (top_k : nat),
    let dense :=
      fst (search_dense similarity self tenant_id (encode query)
             (top_k * 2)) in
    let sparse :=
      fst (search_sparse similarity self tenant_id query (top_k * 2)) in
    fst (hybrid_search similarity encode cfg env self tenant_id query
           top_k)
    = if Qle_bool (search_timeout cfg) 0 then
        Raise (RuntimeError "cannot reuse already awaited coroutine")
      else
        merged <- reciprocal_rank_fusion [dense; sparse] (rrf_k cfg) ;;
        Ok (firstn top_k merged,
            ((end_time env - start_time env) * 1000)%Q).
Proof.
  intros cfg env self t query top_k dense sparse.
  apply hybrid_search_result.
Qed.

Lemma hit_of_key q p d :
  hit_key (hit_of similarity q p) = Some d ->
  d = p_document_id (pt_payload p).
Proof.
  unfold hit_key, hit_of. simpl.
  destruct (String.eqb (p_document_id (pt_payload p)) "");
    congruence.
Qed.

Lemma hybrid_search_spec cfg env self t query top_k :
  forall found self',
    hybrid_search similarity encode cfg env self t query top_k
    = (found, self') ->
    points self' = points self /\
    issued self'
    = ((if Qle_bool (search_timeout cfg) 0 then []
        else searches_of encode self t query top_k) ++ issued self)%list /\
    forall out latency, found = Ok (out, latency) ->
      forall r, In r out -> shows_point_of t self r.
Proof.
  intros found self'. rewrite hybrid_search_eq.
  destruct (Qle_bool (search_timeout cfg) 0).
  { intros [= <- <-]. split; [reflexivity|]. split; [reflexivity|].
    discriminate. }
  destruct (search_dense similarity self t (encode query) (top_k * 2))
    as [dense s1] eqn:Ed.
  destruct (search_sparse similarity s1 t query (top_k * 2))
    as [sparse s2] eqn:Es.
  destruct (search_dense_spec _ _ _ _ _ _ _ Ed) as (Hp1 & Hc1 & Hi1 & Hh1).
  destruct (search_sparse_spec _ _ _ _ _ _ _ Es)
    as (Hp2 & Hc2 & Hi2 & Hh2).
  intros [= <- <-]. split; [congruence|]. split.
  { rewrite Hi2, Hi1, Hc1. unfold searches_of, _create_sparse_vector.
    reflexivity. }
  intros out latency Hfound r Hr.
  destruct (reciprocal_rank_fusion [dense; sparse] (rrf_k cfg))
    as [merged|] eqn:Hm; simpl in Hfound; [|discriminate].
  injection Hfound as <- _. apply in_firstn in Hr.
  destruct (RrfFacts.fusion_of _ _ _ Hm) as [st F].
  destruct (RrfSpec.fusion_data _ _ _ _ F r Hr)
    as (_ & h & Hin & Hkey & Hcontent & Hmeta).
  simpl in Hin, Hcontent, Hmeta. rewrite app_nil_r in Hin.
  assert (Hfrom : exists p q, In p (points self)
            /\ p_tenant_id (pt_payload p) = t
            /\ h = hit_of similarity q p).
  { apply in_app_or in Hin. destruct Hin as [Hin | Hin].
    - exact (Hh1 h Hin).
    - destruct (Hh2 h Hin) as (p & q & Hpin & Ht & Hh).
      exists p, q. rewrite <- Hp1. auto. }
  destruct Hfrom as (p & q & Hpin & Ht & ->).
  exists p. repeat split; auto. now apply hit_of_key in Hkey.
Qed.

Lemma upsert_point_self p l : In p (upsert_point p l).
Proof.
  induction l as [|x tl IH]; simpl; auto.
  destruct (pt_id p <? pt_id x); simpl; auto.
  destruct (pt_id p =? pt_id x); simpl; auto.
Qed.

(** C7. Ingest a document under tenant [a]; then search under a
    different tenant [b].  The ingested point is stored when the ingestion
    returned; every call the dense search, the sparse search and the
    hybrid search issue to the Vector Store is a search filtered on
    [tenant_id == b]; and every hit, and every fused result, shows a
    stored point whose tenant is [b], never the point ingested under
    [a]. *)
Theorem tenant_isolation :
  forall (cfg : Settings) (env : timing) (self : QdrantService)
         (a b : string) (uuid : Z) (document_id content : string)
         (meta : metadata) (dense : list Q) (query : string)
         (top_k : nat),
    a <> b ->
    let ingested :=
      mkPoint uuid dense (_create_sparse_vector self content)
        (mkPayload a document_id content meta) in
    let ingestion :=
      insert_document self uuid a document_id content meta dense in
    let self1 := snd ingestion in
    (fst ingestion = Ok tt -> In ingested (points self1)) /\
    (forall v k hits s',
       search_dense similarity self1 b v k = (hits, s') ->
       (exists r, issued s' = r :: issued self1 /\ filtered_on b r) /\
       forall h, In h hits -> hit_of_other similarity b self1 ingested h) /\
    (forall text k hits s',
       search_sparse similarity self1 b text k = (hits, s') ->
       (exists r, issued s' = r :: issued self1 /\ filtered_on b r) /\
       forall h, In h hits -> hit_of_other similarity b self1 ingested h) /\
    (forall found s',
       hybrid_search similarity encode cfg env self1 b query top_k
       = (found, s') ->
       (exists rs, issued s' = (rs ++ issued self1)%list
          /\ Forall (filtered_on b) rs) /\
       forall out latency, found = Ok (out, latency) ->
         forall r, In r out ->
           exists p, In p (points self1)
             /\ p_tenant_id (pt_payload p) = b /\ p <> ingested
             /\ f_document_id r = p_document_id (pt_payload p)
             /\ f_content r = p_content (pt_payload p)
             /\ f_metadata r = p_metadata (pt_payload p)).
Proof.
  intros cfg env self a b uuid document_id content meta dense query
    top_k Hab ingested ingestion self1.
  assert (Hother : forall p, p_tenant_id (pt_payload p) = b ->
            p <> ingested).
  { intros p Hb ->. apply Hab. exact Hb. }
  split; [|split; [|split]].
  - unfold self1, ingestion.
    destruct (insert_document_cases self uuid a document_id content meta
                dense) as [[_ ->] | [_ ->]]; [|discriminate].
    intros _. apply upsert_point_self.
  - intros v k hits s' E.
    destruct (search_dense_spec _ _ _ _ _ _ _ E) as (_ & _ & Hi & Hh).
    split.
    + eexists. split; [exact Hi|]. do 3 eexists. reflexivity.
    + intros h Hin. destruct (Hh h Hin) as (p & q & Hp & Ht & ->).
      exists p, q. auto.
  - intros text k hits s' E.
    destruct (search_sparse_spec _ _ _ _ _ _ _ E) as (_ & _ & Hi & Hh).
    split.
    + eexists. split; [exact Hi|]. do 3 eexists. reflexivity.
    + intros h Hin. destruct (Hh h Hin) as (p & q & Hp & Ht & ->).
      exists p, q. auto.
  - intros found s' E.
    destruct (hybrid_search_spec _ _ _ _ _ _ _ _ E) as (_ & Hi & Hr).
    split.
    + eexists. split; [exact Hi|].
      destruct (Qle_bool (search_timeout cfg) 0); [constructor|].
      repeat constructor; do 3 eexists; reflexivity.
    + intros out latency Hf r Hin.
      destruct (Hr out latency Hf r Hin)
        as (p & Hp & Ht & Hd & Hc & Hm).
      exists p. repeat split; auto.
Qed.
End Service.

(** C1 at work.  The dense search takes 0.1 s and the sparse search 1 s,
    against a deadline of 0.8 s: the call returns, after both searches,
    what the fusion of both hit lists gives, [doc_a1] first with the
    score [1 / 62 + 1 / 61]; the dense hits alone would give [doc_a2]
    first.  With a deadline of 0 s the call raises. *)
Lemma hybrid_search_never_degrades_witness :
  (exists r1 r2 latency,
     fst (hybrid_search a_similarity an_encoder settings a_timing a_service
            "tenant_a" "secret information" 5)
     = Ok ([r1; r2], latency) /\
     (latency == 1100)%Q /\
     f_document_id r1 = "doc_a1" /\ (f_score r1 == (1 # 62) + (1 # 61))%Q /\
     f_document_id r2 = "doc_a2" /\ (f_score r2 == 1 # 61)%Q) /\
  (exists out,
     reciprocal_rank_fusion
       [fst (search_dense a_similarity a_service "tenant_a"
               (an_encoder "secret information") (5 * 2)); []] 60
     = Ok out /\
     map f_document_id out = ["doc_a2"; "doc_a1"]) /\
  fst (hybrid_search a_similarity an_encoder no_deadline a_timing a_service
         "tenant_a" "secret information" 5)
  = Raise (RuntimeError "cannot reuse already awaited coroutine").
Proof.
  split; [|split].
  - rewrite (hybrid_search_never_degrades a_similarity an_encoder settings
               a_timing a_service "tenant_a" "secret information" 5).
    do 3 eexists. split; [vm_compute; reflexivity|].
    repeat split; reflexivity.
  - eexists. split; [vm_compute; reflexivity|]. reflexivity.
  - rewrite (hybrid_search_never_degrades a_similarity an_encoder
               no_deadline a_timing a_service "tenant_a"
               "secret information" 5).
    reflexivity.
Defined.

Lemma tenant_isolation_witness :
  let ingested :=
    mkPoint 9 [1%Q]
      (_create_sparse_vector a_service "Secret information for tenant A.")
      (mkPayload "tenant_a" "doc_a9" "Secret information for tenant A."
         []) in
  let ingestion :=
    insert_document a_service 9 "tenant_a" "doc_a9"
      "Secret information for tenant A." [] [1%Q] in
  let self1 := snd ingestion in
  (fst ingestion = Ok tt -> In ingested (points self1)) /\
  (forall v k hits s',
     search_dense a_similarity self1 "tenant_b" v k = (hits, s') ->
     (exists r, issued s' = r :: issued self1
        /\ filtered_on "tenant_b" r) /\
     forall h, In h hits ->
       hit_of_other a_similarity "tenant_b" self1 ingested h) /\
  (forall text k hits s',
     search_sparse a_similarity self1 "tenant_b" text k = (hits, s') ->
     (exists r, issued s' = r :: issued self1
        /\ filtered_on "tenant_b" r) /\
     forall h, In h hits ->
       hit_of_other a_similarity "tenant_b" self1 ingested h) /\
  (forall found s',
     hybrid_search a_similarity an_encoder settings
       no_timeout self1 "tenant_b"
       "secret information" 10
     = (found, s') ->
     (exists rs, issued s' = (rs ++ issued self1)%list
        /\ Forall (filtered_on "tenant_b") rs) /\
     forall out latency, found = Ok (out, latency) ->
       forall r, In r out ->
         exists p, In p (points self1)
           /\ p_tenant_id (pt_payload p) = "tenant_b" /\ p <> ingested
           /\ f_document_id r = p_document_id (pt_payload p)
           /\ f_content r = p_content (pt_payload p)
           /\ f_metadata r = p_metadata (pt_payload p)).
Proof.
  apply (tenant_isolation a_similarity an_encoder settings
           no_timeout a_service
           "tenant_a" "tenant_b" 9 "doc_a9"
           "Secret information for tenant A." [] [1%Q]
           "secret information" 10).
  discriminate.
Defined.

(** The search of the witness, evaluated: the ingestion returned, and
    tenant B sees its one document. *)
Example tenant_b_search :
  exists self1 r latency,
    insert_document a_service 9 "tenant_a" "doc_a9"
      "Secret information for tenant A." [] [1%Q]
    = (Ok tt, self1) /\
    fst (hybrid_search a_similarity an_encoder settings no_timeout self1
           "tenant_b" "secret information" 10)
    = Ok ([r], latency) /\
    f_document_id r = "doc_b1".
Proof.
  do 3 eexists. split; [vm_compute; reflexivity|].
  split; [vm_compute; reflexivity|]. reflexivity.
Qed.

End SearchFacts.

(** ** Search with summary *)

Module MainFacts.
Import Rrf RrfSpec Qdrant Asyncio Search Llm Main.
Import QdrantSpec SearchSpec MainSpec QdrantFacts SearchFacts.

Section Endpoint.
Variable similarity : QueryVector -> PointStruct -> Q.
Variable encode : string -> list Q.
Variable complete : chat_request -> reply.

Lemma get_llm_service_world cfg w svc q :
  fst (get_llm_service cfg w) = Ok svc ->
  exists w',
    get_llm_service cfg
      (mkWorld q (w_llm w) (w_calls w) (w_openai_api_key w))
    = (Ok svc, w')
    /\ w_calls w' = w_calls w /\ w_qdrant w' = q.
Proof.
  unfold get_llm_service. simpl. destruct (w_llm w) as [s|].
  - simpl. intros [= ->]. eexists. split; [reflexivity|]. auto.
  - destruct (Llm.init (w_openai_api_key w) cfg) as [s|e]; simpl;
      [|discriminate].
    intros [= ->]. eexists. split; [reflexivity|]. auto.
Qed.

(** The inner [try], case by case. *)
Lemma summarize_cases cfg svc query out calls :
  out <> [] ->
  let rep := complete (chat_of svc query out) in
  snd (summarize complete cfg svc query out calls)
  = chat_of svc query out :: calls /\
  ((llm_timeout cfg < reply_seconds rep)%Q ->
   fst (summarize complete cfg svc query out calls)
   = timed_out_default) /\
  ((reply_seconds rep <= llm_timeout cfg)%Q ->
   forall description,
     reply_value rep = ProviderError description ->
     fst (summarize complete cfg svc query out calls)
     = failed_message (OtherError description)) /\
  ((reply_seconds rep <= llm_timeout cfg)%Q ->
   forall text,
     reply_value rep = Completed text ->
     fst (summarize complete cfg svc query out calls)
     = PyStr.strip text).
Proof.
  intros Hne rep. destruct out as [|r0 rest]; [contradiction|].
  unfold summarize, CircuitBreaker.with_timeout, wait_for, await,
    generate_summary, generate_seconds, generate_summary_body, create.
  cbn [cr_closed cr_body]. fold rep.
  split; [|split; [|split]].
  - destruct (Qle_bool (reply_seconds rep) (llm_timeout cfg));
      destruct (reply_value rep); reflexivity.
  - intros Hlt.
    assert (E : Qle_bool (reply_seconds rep) (llm_timeout cfg) = false).
    { destruct (Qle_bool (reply_seconds rep) (llm_timeout cfg)) eqn:E;
        auto. apply Qle_bool_iff in E. lra. }
    rewrite E. reflexivity.
  - intros Hle description Hv. apply Qle_bool_iff in Hle.
    rewrite Hle, Hv. reflexivity.
  - intros Hle text Hv. apply Qle_bool_iff in Hle.
    rewrite Hle, Hv. reflexivity.
Qed.

(** C6, as the code has it.  Let the LLM service be there or be
    constructible (a supported provider whose client gets an API key from
    the settings or from the environment), and let retrieval return the
    results [out].  Then the request does not fail: the response is a
    JSON body whose results are [out], whatever the provider does.  If
    [out] is empty the summary is the fixed no-results message and the
    provider is not called.  Otherwise the provider is called once, and
    the summary is the fixed timed-out message when the call does not
    complete within [llm_timeout], the message embedding the error
    description when the provider raises, and the stripped text when
    it answers. *)
Theorem summary_does_not_fail_request :
  forall (cfg : Settings) (env : timing) (clk : clock)
         (request : SearchRequest) (w : world) (svc : LLMService)
         (out : list fused) (latency : Q),
    fst (get_llm_service cfg w) = Ok svc ->
    fst (hybrid_search similarity encode cfg env (w_qdrant w)
           (req_tenant_id request) (req_query request)
           (req_top_k request))
    = Ok (out, latency) ->
    exists body w',
      search_with_summary similarity encode complete cfg env clk
        request w
      = (JSONResponse body, w') /\
      results body = map to_search_result out /\
      (out = [] ->
       summary body = no_results_message /\ w_calls w' = w_calls w) /\
      (out <> [] ->
       let call := chat_of svc (req_query request) out in
       w_calls w' = call :: w_calls w /\
       ((llm_timeout cfg < reply_seconds (complete call))%Q ->
        summary body = timed_out_default) /\
       ((reply_seconds (complete call) <= llm_timeout cfg)%Q ->
        forall description,
          reply_value (complete call) = ProviderError description ->
          summary body = failed_message (OtherError description)) /\
       ((reply_seconds (complete call) <= llm_timeout cfg)%Q ->
        forall text,
          reply_value (complete call) = Completed text ->
          summary body = PyStr.strip text)).
Proof.
  intros cfg env clk request w svc out latency Hsvc Hfound.
  unfold search_with_summary.
  destruct (hybrid_search similarity encode cfg env (w_qdrant w)
              (req_tenant_id request) (req_query request)
              (req_top_k request)) as [found q] eqn:E.
  simpl in Hfound. subst found.
  destruct out as [|r0 rest].
  - do 2 eexists. split; [reflexivity|]. simpl.
    split; [reflexivity|]. split; [auto|]. intros H. now contradiction H.
  - destruct (get_llm_service_world cfg w svc q Hsvc)
      as (w1 & Hget & Hcalls & Hq).
    rewrite Hget.
    destruct (summarize complete cfg svc (req_query request)
                (r0 :: rest) (w_calls w1)) as [text calls] eqn:Es.
    do 2 eexists. split; [reflexivity|]. cbn [results summary w_calls].
    split; [reflexivity|]. split; [discriminate|]. intros Hne.
    pose proof (summarize_cases cfg svc (req_query request)
                  (r0 :: rest) (w_calls w1) Hne) as Hcases.
    cbv zeta in Hcases. rewrite Es in Hcases. cbn [fst snd] in Hcases.
    rewrite Hcalls in Hcases. exact Hcases.
Qed.
End Endpoint.

Lemma summary_does_not_fail_request_witness :
  exists out latency body w',
    fst (hybrid_search a_similarity an_encoder with_key no_timeout
           (w_qdrant a_world) (req_tenant_id a_request)
           (req_query a_request) (req_top_k a_request))
    = Ok (out, latency) /\
    out <> [] /\
    search_with_summary a_similarity an_encoder a_failing_provider
      with_key no_timeout a_clock a_request a_world
    = (JSONResponse body, w') /\
    results body = map to_search_result out /\
    summary body = failed_message (OtherError "Connection error.").
Proof.
  do 2 eexists.
  assert (Hfound :
    fst (hybrid_search a_similarity an_encoder with_key no_timeout
           (w_qdrant a_world) (req_tenant_id a_request)
           (req_query a_request) (req_top_k a_request))
    = Ok _) by (vm_compute; reflexivity).
  destruct (summary_does_not_fail_request a_similarity an_encoder
              a_failing_provider with_key no_timeout a_clock a_request
              a_world a_llm_service _ _ eq_refl Hfound)
    as (body & w' & Hrun & Hres & _ & Hsum).
  exists body, w'. split; [exact Hfound|]. split; [discriminate|].
  split; [exact Hrun|]. split; [exact Hres|].
  destruct (Hsum ltac:(discriminate)) as (_ & _ & Herr & _).
  apply Herr; [vm_compute; discriminate | reflexivity].
Defined.

(** C6, with the default settings (provider [groq], no API key, none in
    the environment): retrieval succeeds with results, and the request
    fails with status 500 when the LLM service is created for the
    summary, before the summarization stage is entered. *)
Lemma default_settings_fail_request :
  exists out latency detail w',
    fst (hybrid_search a_similarity an_encoder settings no_timeout
           (w_qdrant a_world) (req_tenant_id a_request)
           (req_query a_request) (req_top_k a_request))
    = Ok (out, latency) /\
    out <> [] /\
    search_with_summary a_similarity an_encoder a_failing_provider
      settings no_timeout a_clock a_request a_world
    = (HTTPException 500 detail, w').
Proof.
  do 4 eexists. split; [vm_compute; reflexivity|].
  split; [discriminate|]. vm_compute. reflexivity.
Qed.

(** The same with a provider name the service does not support. *)
Example unsupported_provider_fails_request :
  exists out latency w',
    fst (hybrid_search a_similarity an_encoder unsupported no_timeout
           (w_qdrant a_world) (req_tenant_id a_request)
           (req_query a_request) (req_top_k a_request))
    = Ok (out, latency) /\
    out <> [] /\
    search_with_summary a_similarity an_encoder a_failing_provider
      unsupported no_timeout a_clock a_request a_world
    = (HTTPException 500
         "Search with summary failed: Unsupported LLM provider: azure",
       w').
Proof.
  do 3 eexists. split; [vm_compute; reflexivity|].
  split; [discriminate|]. vm_compute. reflexivity.
Qed.

End MainFacts.

(** ** More on reciprocal rank fusion *)

Module RrfMore.
Import Rrf RrfSpec RrfMoreSpec RrfFacts.

(** *** Whose content a fused document shows *)

Lemma visit_keys_agree k st rank h st' :
  visit k st rank h = Ok st' -> keys_agree st -> keys_agree st'.
Proof. intros H Hk. exact (proj1 (visit_keys _ _ _ _ _ H Hk)). Qed.

Lemma keys_agree_data_none st d :
  keys_agree st ->
  dict_get (doc_data st) d = None -> dict_get (doc_scores st) d = None.
Proof.
  unfold keys_agree. intros Hk H. apply dict_get_none.
  rewrite Hk. now apply dict_get_none.
Qed.

Lemma visit_keeps_data k st rank h st' key e :
  visit k st rank h = Ok st' -> keys_agree st ->
  dict_get (doc_data st) key = Some e ->
  dict_get (doc_data st') key = Some e.
Proof.
  unfold visit. intros H Hk G. destruct (hit_key h) as [d|].
  2:{ now injection H as <-. }
  destruct (k + rank =? 0); [discriminate|].
  destruct (dict_get (doc_scores st) d) as [old|] eqn:Gs;
    injection H as <-; simpl; auto.
  apply (keys_agree_get st d Hk) in Gs.
  rewrite dict_get_set_other; auto. intros ->. congruence.
Qed.

Lemma visit_all_keeps_data k ps : forall st st' key e,
  visit_all k st ps = Ok st' -> keys_agree st ->
  dict_get (doc_data st) key = Some e ->
  dict_get (doc_data st') key = Some e.
Proof.
  induction ps as [|p tl IH]; intros st st' key e; simpl.
  - now intros [= <-].
  - destruct (visit k st (fst p) (snd p)) as [st1|] eqn:H1; simpl;
      [|discriminate].
    intros H Hk G. apply (IH st1 st' key e H).
    + exact (visit_keys_agree _ _ _ _ _ H1 Hk).
    + exact (visit_keeps_data _ _ _ _ _ _ _ H1 Hk G).
Qed.

Lemma visit_all_first k ps : forall st st' key e,
  visit_all k st ps = Ok st' -> keys_agree st ->
  dict_get (doc_data st) key = None ->
  dict_get (doc_data st') key = Some e ->
  exists h, find (has_key key) (map snd ps) = Some h /\ e = entry_of key h.
Proof.
  induction ps as [|p tl IH]; intros st st' key e; simpl.
  - intros [= <-] _ G G'. congruence.
  - destruct (visit k st (fst p) (snd p)) as [st1|] eqn:H1; simpl;
      [|discriminate].
    intros H Hk G G'.
    pose proof (visit_keys_agree _ _ _ _ _ H1 Hk) as Hk1.
    destruct (has_key key (snd p)) eqn:Hhas.
    + exists (snd p). split; [reflexivity|].
      apply has_key_iff in Hhas. unfold visit in H1. rewrite Hhas in H1.
      destruct (k + fst p =? 0); [discriminate|].
      rewrite (keys_agree_data_none st key Hk G) in H1.
      injection H1 as <-.
      assert (G1 : dict_get
                (dict_set (doc_data st) key (entry_of key (snd p))) key
              = Some (entry_of key (snd p))) by apply dict_get_set_same.
      pose proof (visit_all_keeps_data k tl _ st' key _ H Hk1 G1) as G2.
      congruence.
    + apply (IH st1 st' key e H Hk1); auto.
      unfold visit in H1. destruct (hit_key (snd p)) as [d|] eqn:Hd.
      2:{ now injection H1 as <-. }
      destruct (k + fst p =? 0); [discriminate|].
      assert (Hne : d <> key).
      { intros ->. unfold has_key in Hhas. rewrite Hd in Hhas.
        now rewrite String.eqb_refl in Hhas. }
      destruct (dict_get (doc_scores st) d); injection H1 as <-; simpl; auto.
      now rewrite dict_get_set_other.
Qed.

(** X1. For [k >= 0] the fusion returns, and every fused document shows
    the content and the metadata of the first hit, in the order of the
    concatenated input lists, that carries its id: later sightings of the
    id change the score only. *)
Theorem rrf_data_from_first_hit :
  forall (results_list : list (list hit)) (k : Z),
    0 <= k ->
    exists out,
      reciprocal_rank_fusion results_list k = Ok out /\
      forall r, In r out ->
        exists h,
          find (has_key (f_document_id r)) (List.concat results_list)
          = Some h /\
          f_content r = get_or (h_content h) "" /\
          f_metadata r = get_or (h_metadata h) [].
Proof.
  intros results_list k Hk.
  destruct (fusion_total results_list k Hk) as [out Hout].
  exists out. split; [exact Hout|]. intros r Hr.
  unfold reciprocal_rank_fusion in Hout.
  destruct (visit_lists k acc_empty results_list) as [st|] eqn:Hv;
    simpl in Hout; [|discriminate].
  rewrite visit_lists_all in Hv.
  destruct (visit_all_keys _ _ _ _ Hv eq_refl) as [Hagree _].
  destruct (build_ok (doc_data st) (sorted_desc snd (doc_scores st)))
    as (out' & Hout' & Hall2).
  { intros p Hp. apply sorted_desc_in in Hp. rewrite <- Hagree.
    now apply in_map. }
  rewrite Hout' in Hout. injection Hout as <-.
  assert (Hex : exists p, fused_of (doc_data st) p r).
  { clear Hout'. induction Hall2 as [|p r' l l' Hpr _ IH]; [destruct Hr|].
    destruct Hr as [<- | Hr]; eauto. }
  destruct Hex as (p & e & G & ->). simpl.
  destruct (visit_all_data _ _ _ _ _ _ Hv G) as [G0 | [Hid _]];
    [discriminate|].
  destruct (visit_all_first _ _ _ _ _ _ Hv eq_refl eq_refl G)
    as (h & Hfind & ->).
  rewrite map_snd_ranked in Hfind. simpl in Hid. subst.
  exists h. simpl. auto.
Qed.

Lemma rrf_data_from_first_hit_witness :
  exists out,
    reciprocal_rank_fusion basic 60 = Ok out /\
    forall r, In r out ->
      exists h,
        find (has_key (f_document_id r)) (List.concat basic) = Some h /\
        f_content r = get_or (h_content h) "" /\
        f_metadata r = get_or (h_metadata h) [].
Proof. apply (rrf_data_from_first_hit basic 60). discriminate. Defined.

(** *** Division by zero *)

Lemma visit_error k st rank h e :
  visit k st rank h = Raise e ->
  e = ZeroDivisionError /\ hit_key h <> None /\ k + rank = 0.
Proof.
  unfold visit. destruct (hit_key h) as [d|]; [|discriminate].
  destruct (k + rank =? 0) eqn:E.
  - intros [= <-]. apply Z.eqb_eq in E. repeat split; auto. discriminate.
  - destruct (dict_get (doc_scores st) d); discriminate.
Qed.

Lemma visit_all_raises k ps : forall st,
  (exists p, In p ps /\ hit_key (snd p) <> None /\ k + fst p = 0) ->
  visit_all k st ps = Raise ZeroDivisionError.
Proof.
  induction ps as [|p tl IH]; intros st (q & Hin & Hkey & Hz);
    [destruct Hin|]. simpl.
  destruct (visit k st (fst p) (snd p)) as [st1|e] eqn:H1; simpl.
  - apply IH. destruct Hin as [-> | Hin]; [|eauto].
    exfalso. unfold visit in H1. destruct (hit_key (snd q)); [|congruence].
    apply Z.eqb_eq in Hz. rewrite Hz in H1. discriminate.
  - apply visit_error in H1. destruct H1 as [-> _]. reflexivity.
Qed.

Lemma visit_all_returns k ps : forall st,
  (forall p, In p ps -> hit_key (snd p) <> None -> k + fst p <> 0) ->
  exists st', visit_all k st ps = Ok st'.
Proof.
  induction ps as [|p tl IH]; intros st Hall; simpl; [eauto|].
  destruct (visit k st (fst p) (snd p)) as [st1|e] eqn:H1; simpl.
  - apply IH. intros q Hq. apply Hall. now right.
  - apply visit_error in H1. destruct H1 as (_ & Hkey & Hz).
    exfalso. apply (Hall p); auto. now left.
Qed.

Lemma visit_all_error k ps : forall st e,
  visit_all k st ps = Raise e ->
  e = ZeroDivisionError /\
  exists p, In p ps /\ hit_key (snd p) <> None /\ k + fst p = 0.
Proof.
  induction ps as [|p tl IH]; intros st e; simpl; [discriminate|].
  destruct (visit k st (fst p) (snd p)) as [st1|e1] eqn:H1; simpl.
  - intros H. destruct (IH _ _ H) as (-> & q & Hq & Hkey & Hz).
    split; auto. exists q. auto.
  - intros [= <-]. apply visit_error in H1.
    destruct H1 as (-> & Hkey & Hz). split; auto. exists p. auto.
Qed.

Lemma in_ranked rank h results_list :
  In (rank, h) (ranked results_list) <->
  exists l, In l results_list /\ In (rank, h) (enumerate 1 l).
Proof.
  unfold ranked. rewrite in_concat. split.
  - intros (ps & Hps & Hin). apply in_map_iff in Hps.
    destruct Hps as (l & <- & Hl). eauto.
  - intros (l & Hl & Hin). exists (enumerate 1 l). split; auto.
    now apply in_map.
Qed.

Lemma fusion_after_visit results_list k st :
  visit_lists k acc_empty results_list = Ok st ->
  exists out, reciprocal_rank_fusion results_list k = Ok out.
Proof.
  intros Hv. unfold reciprocal_rank_fusion. rewrite Hv. simpl.
  rewrite visit_lists_all in Hv.
  destruct (visit_all_keys _ _ _ _ Hv eq_refl) as [Hagree _].
  destruct (build_ok (doc_data st) (sorted_desc snd (doc_scores st)))
    as (out & Hout & _); eauto.
  intros p Hp. apply sorted_desc_in in Hp. rewrite <- Hagree.
  now apply in_map.
Qed.

Lemma fusion_error results_list k e :
  reciprocal_rank_fusion results_list k = Raise e ->
  e = ZeroDivisionError /\
  exists p, In p (ranked results_list) /\ hit_key (snd p) <> None
    /\ k + fst p = 0.
Proof.
  intros H. unfold reciprocal_rank_fusion in H.
  rewrite visit_lists_all in H.
  destruct (visit_all k acc_empty (ranked results_list)) as [st|e'] eqn:Hv;
    simpl in H.
  - rewrite <- visit_lists_all in Hv.
    destruct (fusion_after_visit _ _ _ Hv) as [out Hout].
    unfold reciprocal_rank_fusion in Hout. rewrite Hv in Hout.
    simpl in Hout. congruence.
  - injection H as <-. exact (visit_all_error _ _ _ _ Hv).
Qed.

(** X2. For every [k], the fusion either returns or raises
    [ZeroDivisionError], nothing else (no [KeyError]); and it raises
    exactly when some input list holds, at its 1-based position [-k], a
    hit that is not skipped. *)
Theorem rrf_raises_only_on_zero_division :
  forall (results_list : list (list hit)) (k : Z),
    (reciprocal_rank_fusion results_list k = Raise ZeroDivisionError \/
     exists out, reciprocal_rank_fusion results_list k = Ok out) /\
    (reciprocal_rank_fusion results_list k = Raise ZeroDivisionError <->
     exists l h,
       In l results_list /\ In (- k, h) (enumerate 1 l)
       /\ hit_key h <> None).
Proof.
  intros results_list k. split.
  - destruct (reciprocal_rank_fusion results_list k) as [out|e] eqn:E;
      [right; eauto|].
    left. destruct (fusion_error _ _ _ E) as [-> _]. reflexivity.
  - split.
    + intros H. destruct (fusion_error _ _ _ H)
        as (_ & [rank h] & Hin & Hkey & Hz). simpl in *.
      apply in_ranked in Hin. destruct Hin as (l & Hl & Hin).
      exists l, h. replace (- k) with rank by lia. auto.
    + intros (l & h & Hl & Hin & Hkey).
      unfold reciprocal_rank_fusion. rewrite visit_lists_all.
      rewrite (visit_all_raises k (ranked results_list) acc_empty);
        [reflexivity|].
      exists (- k, h). simpl. split; [|split; [auto | lia]].
      apply in_ranked. eauto.
Qed.

(** *** Empty output *)

Lemma visit_all_skipped k ps : forall st,
  (forall p, In p ps -> hit_key (snd p) = None) ->
  visit_all k st ps = Ok st.
Proof.
  induction ps as [|p tl IH]; intros st Hall; simpl; auto.
  unfold visit at 1. rewrite (Hall p (or_introl eq_refl)). simpl.
  apply IH. intros q Hq. apply Hall. now right.
Qed.

(** X3. For every [k], also a negative one, the fusion returns the empty
    list exactly when no hit of any input list carries a document id: in
    particular on no lists and on empty lists. *)
Theorem rrf_empty_iff_no_ids :
  forall (results_list : list (list hit)) (k : Z),
    reciprocal_rank_fusion results_list k = Ok [] <->
    (forall l h, In l results_list -> In h l -> hit_key h = None).
Proof.
  intros results_list k. split.
  - intros Hout l h Hl Hh. destruct (fusion_of _ _ _ Hout) as [st F].
    destruct (hit_key h) as [d|] eqn:Hd; auto.
    assert (Hocc : occurs d results_list) by (exists l, h; auto).
    apply (fusion_ids_iff _ _ _ _ d F) in Hocc. destruct Hocc.
  - intros Hall. unfold reciprocal_rank_fusion.
    rewrite visit_lists_all, visit_all_skipped; [reflexivity|].
    intros [rank h] Hin. apply in_ranked in Hin.
    destruct Hin as (l & Hl & Hin). simpl.
    apply (Hall l h Hl).
    rewrite <- (map_snd_enumerate 1 l).
    apply (in_map snd) in Hin. exact Hin.
Qed.

(** *** Bounds on the scores *)

Lemma inv_pos a : 0 < a -> (0 < 1 / inject_Z a)%Q.
Proof.
  intros Ha. destruct a as [|a|a]; try lia.
  unfold Qlt, Qdiv, Qmult, Qinv, inject_Z; simpl. lia.
Qed.

Lemma inv_rank_le a b :
  0 < a -> a <= b -> (1 / inject_Z b <= 1 / inject_Z a)%Q.
Proof.
  intros Ha Hab. destruct (Z.eq_dec a b) as [->|Hne]; [lra|].
  apply Qlt_le_weak. apply inv_rank_lt; lia.
Qed.

Lemma Qsum_terms_bounds k d ps :
  0 <= k -> (forall p, In p ps -> 1 <= fst p) ->
  (0 <= Qsum (map (term k d) ps))%Q /\
  (Qsum (map (term k d) ps)
   <= inject_Z (Z.of_nat (sightings d (map snd ps)))
      * (1 / inject_Z (k + 1)))%Q /\
  ((0 < sightings d (map snd ps))%nat ->
   (0 < Qsum (map (term k d) ps))%Q).
Proof.
  intros Hk. unfold sightings.
  pose proof (inv_pos (k + 1) ltac:(lia)) as Hc.
  set (c := (1 / inject_Z (k + 1))%Q) in *.
  induction ps as [|p tl IH]; intros Hrank.
  - simpl. change (inject_Z 0) with 0%Q. repeat split; try lra.
    intros H. inversion H.
  - destruct IH as (IH0 & IH1 & IH2); [intros q Hq; apply Hrank; now right|].
    pose proof (Hrank p (or_introl eq_refl)) as Hp.
    pose proof (inv_pos (k + fst p) ltac:(lia)) as Hpos.
    pose proof (inv_rank_le (k + 1) (k + fst p) ltac:(lia) ltac:(lia)) as Hle.
    fold c in Hle.
    cbn [map Qsum fold_right filter]. fold (Qsum (map (term k d) tl)).
    set (n := List.length (filter (has_key d) (map snd tl))) in *.
    set (x := inject_Z (Z.of_nat n)) in *.
    set (s := Qsum (map (term k d) tl)) in *.
    set (t := (1 / inject_Z (k + fst p))%Q) in *.
    unfold term. fold t. destruct (has_key d (snd p)).
    + cbn [List.length]. fold n. rewrite Nat2Z.inj_succ. unfold Z.succ.
      rewrite inject_Z_plus. fold x. change (inject_Z 1) with 1%Q.
      repeat split; try lra; intros _; lra.
    + fold n x. repeat split; try lra; intros H; specialize (IH2 H); lra.
Qed.

Lemma sightings_pos d hs :
  (exists h, In h hs /\ hit_key h = Some d) -> (0 < sightings d hs)%nat.
Proof.
  intros (h & Hin & Hd). unfold sightings.
  assert (H : In h (filter (has_key d) hs)).
  { apply filter_In. split; auto. now apply has_key_iff. }
  destruct (filter (has_key d) hs); [destruct H | simpl; lia].
Qed.

Lemma rrf_score_bounds_aux results_list k out st :
  0 <= k -> fusion results_list k out st ->
  forall r, In r out ->
    (0 < f_score r)%Q /\
    (f_score r
     <= inject_Z (Z.of_nat (sightings (f_document_id r)
                              (List.concat results_list)))
        * (1 / inject_Z (k + 1)))%Q.
Proof.
  intros Hk F r Hr.
  pose proof (fusion_scores _ _ _ _ F _ _ (fusion_in _ _ _ _ _ F Hr)) as Hs.
  rewrite <- Qsum_ranked in Hs.
  destruct (Qsum_terms_bounds k (f_document_id r) (ranked results_list) Hk)
    as (_ & Hup & Hlow).
  { intros p Hp. now apply ranked_rank in Hp. }
  rewrite map_snd_ranked in Hup, Hlow. rewrite Hs. split; [|exact Hup].
  apply Hlow. apply sightings_pos.
  destruct (fusion_data _ _ _ _ F r Hr) as (_ & h & Hin & Hkey & _). eauto.
Qed.

(** *** Unanimous preference *)

Lemma Qsum_terms_from k s d ps :
  0 < k + s -> (forall p, In p ps -> s <= fst p) ->
  (0 <= Qsum (map (term k d) ps))%Q /\
  (Qsum (map (term k d) ps)
   <= inject_Z (Z.of_nat (sightings d (map snd ps)))
      * (1 / inject_Z (k + s)))%Q.
Proof.
  intros Hs. unfold sightings.
  pose proof (inv_pos (k + s) Hs) as Hc.
  set (c := (1 / inject_Z (k + s))%Q) in *.
  induction ps as [|p tl IH]; intros Hrank.
  - simpl. change (inject_Z 0) with 0%Q. split; lra.
  - destruct IH as (IH0 & IH1); [intros q Hq; apply Hrank; now right|].
    pose proof (Hrank p (or_introl eq_refl)) as Hp.
    pose proof (inv_pos (k + fst p) ltac:(lia)) as Hpos.
    pose proof (inv_rank_le (k + s) (k + fst p) ltac:(lia) ltac:(lia)) as Hle.
    fold c in Hle.
    cbn [map Qsum fold_right filter]. fold (Qsum (map (term k d) tl)).
    set (n := List.length (filter (has_key d) (map snd tl))) in *.
    set (x := inject_Z (Z.of_nat n)) in *.
    set (sm := Qsum (map (term k d) tl)) in *.
    set (t := (1 / inject_Z (k + fst p))%Q) in *.
    unfold term. fold t. destruct (has_key d (snd p)).
    + cbn [List.length]. fold n. rewrite Nat2Z.inj_succ. unfold Z.succ.
      rewrite inject_Z_plus. fold x. change (inject_Z 1) with 1%Q.
      split; lra.
    + fold n x. split; lra.
Qed.

Lemma sightings_keys d l :
  sightings d l = count_occ string_dec (keys_of l) d.
Proof.
  unfold sightings, keys_of, has_key.
  induction l as [|h tl IH]; simpl; auto.
  destruct (hit_key h) as [s|]; simpl; auto.
  destruct (string_dec s d) as [->|Hne].
  - rewrite String.eqb_refl. simpl. now rewrite IH.
  - apply String.eqb_neq in Hne. rewrite Hne. exact IH.
Qed.

Lemma sightings_nodup d l : NoDup (keys_of l) -> (sightings d l <= 1)%nat.
Proof.
  intros H. rewrite sightings_keys.
  now apply (proj1 (NoDup_count_occ string_dec (keys_of l))).
Qed.

Lemma in_map_hit_key d l : In (Some d) (map hit_key l) <-> In d (keys_of l).
Proof.
  rewrite keys_of_in, in_map_iff. split; intros (h & H1 & H2); eauto.
Qed.

Lemma contribution_before k a b l : forall s,
  0 < k + s -> NoDup (keys_of l) ->
  before (Some a) (Some b) (map hit_key l) ->
  (list_contribution k s b l < list_contribution k s a l)%Q.
Proof.
  unfold list_contribution.
  induction l as [|h tl IH]; intros s Hs Hnd Hb; [inversion Hb|].
  cbn [enumerate map Qsum fold_right].
  fold (Qsum (map (term k a) (enumerate (s + 1) tl))).
  fold (Qsum (map (term k b) (enumerate (s + 1) tl))).
  assert (Hnd' : NoDup (keys_of tl)).
  { unfold keys_of in *. simpl in Hnd.
    now apply NoDup_app_remove_l in Hnd. }
  simpl in Hb. inversion Hb as [l' Hin | x l' Hb']; subst.
  - assert (Hka : hit_key h = Some a) by congruence.
    apply in_map_hit_key in Hin.
    assert (Hne : a <> b).
    { intros ->. unfold keys_of in Hnd. simpl in Hnd. rewrite Hka in Hnd.
      simpl in Hnd. inversion Hnd; subst. contradiction. }
    unfold term at 1 3. simpl. unfold has_key. rewrite Hka.
    rewrite String.eqb_refl.
    apply String.eqb_neq in Hne. rewrite Hne.
    destruct (Qsum_terms_from k (s + 1) a (enumerate (s + 1) tl))
      as [Ha0 _]; [lia | intros p Hp; now apply enumerate_rank in Hp |].
    destruct (Qsum_terms_from k (s + 1) b (enumerate (s + 1) tl))
      as [_ Hb1]; [lia | intros p Hp; now apply enumerate_rank in Hp |].
    rewrite map_snd_enumerate in Hb1.
    pose proof (sightings_nodup b tl Hnd') as Hone.
    pose proof (inv_rank_lt (k + s) (k + (s + 1)) Hs ltac:(lia)) as Hlt.
    pose proof (inv_pos (k + (s + 1)) ltac:(lia)) as Hpos.
    set (c := (1 / inject_Z (k + (s + 1)))%Q) in *.
    assert (Hx : (inject_Z (Z.of_nat (sightings b tl)) * c <= c)%Q).
    { destruct (sightings b tl) as [|[|n]]; [| |lia].
      - change (inject_Z (Z.of_nat 0)) with 0%Q. lra.
      - change (inject_Z (Z.of_nat 1)) with 1%Q. lra. }
    lra.
  - pose proof (before_in_l _ _ _ Hb') as Hina.
    pose proof (before_in_r _ _ _ Hb') as Hinb.
    apply in_map_hit_key in Hina. apply in_map_hit_key in Hinb.
    assert (Hnot : forall d, In d (keys_of tl) -> has_key d h = false).
    { intros d Hd. unfold has_key. destruct (hit_key h) as [x|] eqn:Hx; auto.
      apply String.eqb_neq. intros ->.
      unfold keys_of in Hnd. simpl in Hnd. rewrite Hx in Hnd. simpl in Hnd.
      inversion Hnd; subst. contradiction. }
    unfold term at 1 3. simpl. rewrite (Hnot a Hina), (Hnot b Hinb).
    specialize (IH (s + 1) ltac:(lia) Hnd' Hb'). lra.
Qed.

Lemma rrf_sum_before k a b results_list :
  0 <= k -> results_list <> [] ->
  (forall l, In l results_list ->
     NoDup (keys_of l) /\ before (Some a) (Some b) (map hit_key l)) ->
  (rrf_sum k b results_list < rrf_sum k a results_list)%Q.
Proof.
  intros Hk Hne Hall. unfold rrf_sum.
  induction results_list as [|l tl IH]; [contradiction|].
  cbn [map Qsum fold_right].
  destruct (Hall l (or_introl eq_refl)) as [Hnd Hb].
  pose proof (contribution_before k a b l 1 ltac:(lia) Hnd Hb) as Hl.
  destruct tl as [|l2 tl2].
  - simpl. lra.
  - assert (IH' : (fold_right Qplus 0
                     (map (list_contribution k 1 b) (l2 :: tl2))
                   < fold_right Qplus 0
                       (map (list_contribution k 1 a) (l2 :: tl2)))%Q).
    { apply IH; [discriminate|]. intros l' Hl'. apply Hall. now right. }
    unfold Qsum. lra.
Qed.

Lemma sorted_before {A : Type} (R : A -> A -> Prop) l x y :
  StronglySorted R l -> In x l -> In y l -> x <> y -> ~ R y x ->
  before x y l.
Proof.
  induction 1 as [|z tl Hs IH Hall]; intros Hx Hy Hne Hnot; [destruct Hx|].
  destruct Hx as [-> | Hx]; destruct Hy as [-> | Hy].
  - contradiction.
  - now constructor.
  - rewrite Forall_forall in Hall. exfalso. apply Hnot. now apply Hall.
  - apply before_later. auto.
Qed.

(** X7. If every input list (there is at least one) holds its document
    ids without repetition and ranks document [a] before document [b],
    then for [k >= 0] the fused output scores [a] strictly higher than [b]
    and ranks [a] before [b]. *)
Theorem rrf_unanimous_order :
  forall (results_list : list (list hit)) (k : Z) (a b : string),
    0 <= k -> results_list <> [] ->
    (forall l, In l results_list ->
       NoDup (keys_of l) /\ before (Some a) (Some b) (map hit_key l)) ->
    exists out ra rb,
      reciprocal_rank_fusion results_list k = Ok out /\
      f_document_id ra = a /\ f_document_id rb = b /\
      (f_score rb < f_score ra)%Q /\
      before ra rb out.
Proof.
  intros results_list k a b Hk Hne Hall.
  destruct (fusion_total results_list k Hk) as [out Hout].
  destruct (fusion_of _ _ _ Hout) as [st F].
  destruct results_list as [|l0 tl] eqn:E; [contradiction|]. rewrite <- E in *.
  assert (Hl0 : In l0 results_list) by (rewrite E; now left).
  destruct (Hall l0 Hl0) as [_ Hb0].
  assert (Hocc : forall d, In (Some d) (map hit_key l0) ->
            exists r, In r out /\ f_document_id r = d).
  { intros d Hd. apply in_map_iff in Hd. destruct Hd as (h & Hh & Hin).
    assert (Ho : occurs d results_list) by (exists l0, h; auto).
    apply (fusion_ids_iff _ _ _ _ d F) in Ho. apply in_map_iff in Ho.
    destruct Ho as (r & Hr & Hrin). eauto. }
  destruct (Hocc a (before_in_l _ _ _ Hb0)) as (ra & Hra & Hida).
  destruct (Hocc b (before_in_r _ _ _ Hb0)) as (rb & Hrb & Hidb).
  assert (Hlt : (f_score rb < f_score ra)%Q).
  { rewrite (fusion_scores _ _ _ _ F _ _ (fusion_in _ _ _ _ _ F Hra)).
    rewrite (fusion_scores _ _ _ _ F _ _ (fusion_in _ _ _ _ _ F Hrb)).
    rewrite Hida, Hidb. apply rrf_sum_before; auto. }
  exists out, ra, rb. repeat split; auto.
  apply (sorted_before (fun r1 r2 => (f_score r2 <= f_score r1)%Q)); auto.
  - exact (fusion_descending _ _ _ _ F).
  - intros ->. lra.
  - intros H. lra.
Qed.

Lemma rrf_unanimous_order_witness :
  exists out ra rb,
    reciprocal_rank_fusion
      [[doc "doc1"; doc "doc2"; doc "doc3"];
       [doc "doc4"; doc "doc1"; doc "doc3"]] 60 = Ok out /\
    f_document_id ra = "doc1" /\ f_document_id rb = "doc3" /\
    (f_score rb < f_score ra)%Q /\
    before ra rb out.
Proof.
  apply (rrf_unanimous_order
           [[doc "doc1"; doc "doc2"; doc "doc3"];
            [doc "doc4"; doc "doc1"; doc "doc3"]] 60 "doc1" "doc3").
  - discriminate.
  - discriminate.
  - intros l [<- | [<- | []]]; split;
      repeat constructor; simpl; intuition discriminate.
Defined.

End RrfMore.

(** ** More on the sparse vector *)

Module SparseMore.
Import Rrf RrfSpec Qdrant SparseSpec SparseFacts.

Lemma count_occ_filter_other (x t : string) l :
  x <> t ->
  count_occ string_dec (filter (fun y => negb (String.eqb x y)) l) t
  = count_occ string_dec l t.
Proof.
  intros Hne. induction l as [|y tl IH]; simpl; auto.
  destruct (String.eqb x y) eqn:E; simpl.
  - apply String.eqb_eq in E. subst y.
    destruct (string_dec x t); [contradiction | exact IH].
  - destruct (string_dec y t); simpl; now rewrite IH.
Qed.

(** The sum of [g] over a list without repetition, split at [x]. *)
Lemma list_sum_split (g : string -> nat) (x : string) l :
  NoDup l ->
  list_sum (map g l)
  = ((if in_dec string_dec x l then g x else 0)
     + list_sum (map g (filter (fun y => negb (String.eqb x y)) l)))%nat.
Proof.
  induction 1 as [|y tl Hnotin Hnd IH]; simpl; auto.
  destruct (String.eqb x y) eqn:E; simpl.
  - apply String.eqb_eq in E. subst y.
    destruct (string_dec x x) as [_|Hn]; [|contradiction].
    rewrite IH. destruct (in_dec string_dec x tl); [contradiction|].
    reflexivity.
  - apply String.eqb_neq in E. rewrite IH.
    destruct (string_dec y x) as [Heq|Hneq]; [subst; contradiction|].
    destruct (in_dec string_dec x tl); lia.
Qed.

Lemma counts_sum tokens :
  list_sum (map (count_occ string_dec tokens) (dedup_first tokens))
  = List.length tokens.
Proof.
  induction tokens as [|x tl IH]; simpl; auto.
  destruct (string_dec x x) as [_|Hn]; [|contradiction]. f_equal.
  rewrite <- IH.
  rewrite (list_sum_split (count_occ string_dec tl) x (dedup_first tl))
    by apply dedup_first_nodup.
  assert (Hx : (if in_dec string_dec x (dedup_first tl)
                then count_occ string_dec tl x else 0%nat)
               = count_occ string_dec tl x).
  { destruct (in_dec string_dec x (dedup_first tl)) as [_|Hn]; auto.
    symmetry. apply count_occ_not_In. now rewrite <- dedup_first_in. }
  rewrite Hx. cbn [Nat.add]. do 3 f_equal. apply map_ext_in. intros t Ht.
  apply filter_In in Ht. destruct Ht as [_ Hne].
  apply negb_true_iff, String.eqb_neq in Hne.
  destruct (string_dec x t); [contradiction | reflexivity].
Qed.

Lemma Qsum_inject (g : string -> nat) l :
  (Qsum (map (fun t => inject_Z (Z.of_nat (g t))) l)
   == inject_Z (Z.of_nat (list_sum (map g l))))%Q.
Proof.
  induction l as [|x tl IH]; simpl; [reflexivity|].
  rewrite IH, Nat2Z.inj_add, inject_Z_plus. reflexivity.
Qed.

Lemma bucket_range word : 0 <= bucket word < 10000.
Proof. unfold bucket. apply Z.mod_pos_bound. lia. Qed.

(** X8. For every ASCII text, the sparse vector has as many values as
    indices; every index lies in [0, 10000); every value is at least 1;
    and the values add up to the number of tokens of the text. *)
Theorem sparse_vector_shape :
  forall (self : QdrantService) (text : string),
    PyStr.isascii text = true ->
    let v := _create_sparse_vector self text in
    List.length (indices v) = List.length (values v) /\
    Forall (fun i => 0 <= i < 10000) (indices v) /\
    Forall (fun x => (1 <= x)%Q) (values v) /\
    (Qsum (values v)
     == inject_Z (Z.of_nat
          (List.length (PyStr.split (PyStr.lower text)))))%Q.
Proof.
  intros self text _ v. unfold v, _create_sparse_vector.
  set (tokens := PyStr.split (PyStr.lower text)).
  rewrite count_words_table. unfold freq_table. cbn [indices values].
  rewrite !map_map. cbn [fst snd]. split; [|split; [|split]].
  - now rewrite !length_map.
  - apply Forall_forall. intros i Hi. apply in_map_iff in Hi.
    destruct Hi as (t & <- & _). apply bucket_range.
  - apply Forall_forall. intros x Hx. apply in_map_iff in Hx.
    destruct Hx as (t & <- & Ht). apply (proj1 (dedup_first_in _ _)) in Ht.
    apply (proj1 (count_occ_In string_dec _ _)) in Ht.
    change 1%Q with (inject_Z 1). rewrite <- Zle_Qle. lia.
  - rewrite Qsum_inject, counts_sum. reflexivity.
Qed.

Lemma sparse_vector_shape_witness :
  let v :=
    _create_sparse_vector QdrantSpec.an_empty_service "to be or not to be" in
  List.length (indices v) = List.length (values v) /\
  Forall (fun i => 0 <= i < 10000) (indices v) /\
  Forall (fun x => (1 <= x)%Q) (values v) /\
  (Qsum (values v)
   == inject_Z (Z.of_nat
        (List.length
           (PyStr.split (PyStr.lower "to be or not to be")))))%Q.
Proof.
  apply (sparse_vector_shape QdrantSpec.an_empty_service
           "to be or not to be").
  reflexivity.
Defined.

(** *** Letter case *)

Lemma lower_char_twice c :
  PyStr.lower_char (PyStr.lower_char c) = PyStr.lower_char c.
Proof. destruct c as [[] [] [] [] [] [] [] []]; reflexivity. Qed.

Lemma lower_twice s : PyStr.lower (PyStr.lower s) = PyStr.lower s.
Proof.
  induction s as [|c tl IH]; simpl; auto. now rewrite lower_char_twice, IH.
Qed.

(** *** Word order *)

Lemma vector_pairs self text :
  combine (indices (_create_sparse_vector self text))
          (values (_create_sparse_vector self text))
  = map (fun t =>
           (bucket t,
            inject_Z (Z.of_nat
              (count_occ string_dec (PyStr.split (PyStr.lower text)) t))))
      (dedup_first (PyStr.split (PyStr.lower text))).
Proof.
  unfold _create_sparse_vector. rewrite count_words_table.
  unfold freq_table. cbn [indices values]. rewrite !map_map. cbn [fst snd].
  induction (dedup_first (PyStr.split (PyStr.lower text))) as [|t tl IH];
    simpl; auto. now rewrite IH.
Qed.

(** X9. On ASCII text the sparse vector is a bag of words: it ignores the
    case of the letters A to Z (the lower-cased text has the same vector),
    and two texts whose lower-cased tokens are the same up to order have
    the same (index, value) entries up to order. *)
Theorem sparse_vector_bag_of_words :
  forall (self : QdrantService) (text1 text2 : string),
    PyStr.isascii text1 = true -> PyStr.isascii text2 = true ->
    _create_sparse_vector self (PyStr.lower text1)
    = _create_sparse_vector self text1 /\
    (Permutation (PyStr.split (PyStr.lower text1))
                 (PyStr.split (PyStr.lower text2)) ->
     Permutation
       (combine (indices (_create_sparse_vector self text1))
                (values (_create_sparse_vector self text1)))
       (combine (indices (_create_sparse_vector self text2))
                (values (_create_sparse_vector self text2)))).
Proof.
  intros self text1 text2 _ _. split.
  - unfold _create_sparse_vector. now rewrite lower_twice.
  - intros Hperm. rewrite !vector_pairs.
    set (t1 := PyStr.split (PyStr.lower text1)) in *.
    set (t2 := PyStr.split (PyStr.lower text2)) in *.
    rewrite (map_ext
      (fun t => (bucket t, inject_Z (Z.of_nat (count_occ string_dec t1 t))))
      (fun t => (bucket t, inject_Z (Z.of_nat (count_occ string_dec t2 t))))).
    + apply Permutation_map. apply NoDup_Permutation;
        try apply dedup_first_nodup.
      intros x. rewrite !dedup_first_in. split; apply Permutation_in; auto.
      now symmetry.
    + intros t. do 3 f_equal.
      now apply (Permutation_count_occ string_dec).
Qed.

Lemma sparse_vector_bag_of_words_witness :
  _create_sparse_vector QdrantSpec.an_empty_service (PyStr.lower "His King")
  = _create_sparse_vector QdrantSpec.an_empty_service "His King" /\
  Permutation
    (combine (indices (_create_sparse_vector QdrantSpec.an_empty_service
                         "king his king"))
             (values (_create_sparse_vector QdrantSpec.an_empty_service
                        "king his king")))
    (combine (indices (_create_sparse_vector QdrantSpec.an_empty_service
                         "King King HIS"))
             (values (_create_sparse_vector QdrantSpec.an_empty_service
                        "King King HIS"))).
Proof.
  split.
  - apply (sparse_vector_bag_of_words QdrantSpec.an_empty_service
             "His King" ""); reflexivity.
  - apply (sparse_vector_bag_of_words QdrantSpec.an_empty_service
             "king his king" "King King HIS"); try reflexivity.
    vm_compute. apply perm_skip. apply perm_swap.
Defined.

End SparseMore.

(** ** More on the Vector Store service *)

Module QdrantMore.
Import Rrf RrfSpec Qdrant QdrantSpec QdrantFacts.

Lemma sorted_id_inj l p q :
  StronglySorted by_id l -> In p l -> In q l -> pt_id p = pt_id q -> p = q.
Proof.
  induction 1 as [|x tl Hs IH Hall]; intros Hp Hq Hid; [destruct Hp|].
  rewrite Forall_forall in Hall. unfold by_id in Hall.
  destruct Hp as [<- | Hp]; destruct Hq as [<- | Hq]; auto.
  - specialize (Hall q Hq). lia.
  - specialize (Hall p Hp). lia.
Qed.

Lemma page_ids_match (m : PointStruct -> bool) l p n :
  StronglySorted by_id l -> In p l ->
  id_in (map pt_id (firstn n (filter m l))) p = true -> m p = true.
Proof.
  intros Hs Hp Hin. apply id_in_map in Hin. apply in_map_iff in Hin.
  destruct Hin as (q & Hid & Hq). apply in_firstn in Hq.
  apply filter_In in Hq. destruct Hq as [Hq Hm].
  now rewrite <- (sorted_id_inj l q p Hs Hq Hp Hid).
Qed.

Lemma filter_nil {A : Type} (f : A -> bool) l :
  filter f l = [] -> forall x, In x l -> f x = false.
Proof.
  intros H x Hx. destruct (f x) eqn:E; auto.
  assert (Hin : In x (filter f l)) by (apply filter_In; auto).
  rewrite H in Hin. destruct Hin.
Qed.

Lemma delete_loop_points t : forall fuel self offset count n self',
  store_ok self ->
  reaches offset (of_tenant t self) ->
  delete_loop fuel self t offset count = Some (n, self') ->
  points self'
  = filter (fun p => negb (matches (tenant_filter t) p)) (points self).
Proof.
  induction fuel as [|fuel IH];
    intros self offset count n self' Hok Hreach Hrun; [discriminate|].
  cbn [delete_loop client_scroll log points svc_collection issued] in Hrun.
  set (m := matches (tenant_filter t)) in *.
  assert (Hrest : filter (fun p => m p && from_offset offset p)
                    (points self) = of_tenant t self).
  { unfold of_tenant. fold m. apply filter_ext_in. intros p Hp.
    destruct (m p) eqn:Hm; simpl; auto. apply Hreach.
    unfold of_tenant. fold m. apply filter_In. auto. }
  rewrite Hrest in Hrun.
  remember (of_tenant t self) as M eqn:HM.
  destruct (firstn 100 M) as [|p0 page] eqn:Hpage.
  - injection Hrun as _ <-. cbn [points].
    assert (M = []) by (destruct M; [auto | discriminate]). subst M.
    symmetry. apply filter_all. intros p Hp.
    unfold of_tenant in H. fold m in H.
    now rewrite (filter_nil m _ H p Hp).
  - rewrite <- Hpage in Hrun.
    set (self1 := client_delete _ _) in Hrun.
    assert (Hpts1 : points self1
              = filter (fun p => negb (id_in (map pt_id (firstn 100 M)) p))
                  (points self)) by reflexivity.
    assert (Hok1 : store_ok self1).
    { unfold store_ok. rewrite Hpts1. now apply sorted_filter. }
    assert (HM1 : of_tenant t self1 = skipn 100 M).
    { unfold of_tenant. rewrite Hpts1. fold m. rewrite HM.
      unfold of_tenant. fold m. now apply delete_page. }
    destruct (nth_error M 100) as [p1|] eqn:Hnth; cbn [option_map] in Hrun.
    + apply IH in Hrun; auto.
      * rewrite Hrun, Hpts1, filter_filter. apply filter_ext_in.
        intros p Hp. destruct (m p) eqn:Hm; [apply andb_false_r|].
        rewrite andb_true_r.
        destruct (id_in (map pt_id (firstn 100 M)) p) eqn:Hin; auto.
        rewrite HM in Hin. unfold of_tenant in Hin. fold m in Hin.
        apply (page_ids_match m _ p 100 Hok Hp) in Hin. congruence.
      * intros q Hq. rewrite HM1 in Hq. simpl. apply Z.leb_le.
        apply (sorted_nth_skipn M 100); auto.
        rewrite HM. unfold of_tenant. now apply sorted_filter.
    + injection Hrun as _ <-. rewrite Hpts1.
      apply nth_error_none_skipn in Hnth.
      assert (Hall : firstn 100 M = M).
      { rewrite <- (firstn_skipn 100 M) at 2. rewrite Hnth.
        now rewrite app_nil_r. }
      rewrite Hall. apply filter_ext_in. intros p Hp. f_equal.
      destruct (m p) eqn:Hm.
      * apply id_in_map. apply in_map. rewrite HM. unfold of_tenant.
        fold m. apply filter_In. auto.
      * destruct (id_in (map pt_id M) p) eqn:Hin; auto.
        rewrite <- Hall, HM in Hin. unfold of_tenant in Hin. fold m in Hin.
        apply (page_ids_match m _ p 100 Hok Hp) in Hin. congruence.
Qed.

Lemma matches_tenant_eqb t p :
  matches (tenant_filter t) p = String.eqb (p_tenant_id (pt_payload p)) t.
Proof.
  unfold matches, tenant_filter, cond_holds, payload_get. simpl.
  apply andb_true_r.
Qed.

(** X10. On a store whose points are kept by id, and with fuel above the
    number of stored points, [delete_by_tenant] removes exactly the points
    of the tenant: the points of every other tenant stay, in their order,
    and a search or a delete under another tenant sees what it saw
    before. *)
Theorem delete_by_tenant_keeps_other_tenants :
  forall (self : QdrantService) (tenant_id : string) (fuel : nat),
    store_ok self ->
    (List.length (points self) < fuel)%nat ->
    exists n self',
      delete_by_tenant fuel self tenant_id = Some (n, self') /\
      points self'
      = filter
          (fun p => negb (String.eqb (p_tenant_id (pt_payload p)) tenant_id))
          (points self) /\
      forall other,
        other <> tenant_id -> of_tenant other self' = of_tenant other self.
Proof.
  intros self t fuel Hok Hfuel.
  pose proof (of_tenant_length t self) as Hle.
  destruct (delete_loop_spec t fuel self None 0 Hok) as
    (self' & Hrun & _); [intros p _; reflexivity | lia |].
  pose proof (delete_loop_points t fuel self None 0 _ self' Hok
                ltac:(intros p _; reflexivity) Hrun) as Hpts.
  eexists. exists self'. split; [exact Hrun|]. split.
  - rewrite Hpts. apply filter_ext. intros p.
    now rewrite matches_tenant_eqb.
  - intros other Hne. unfold of_tenant. rewrite Hpts, filter_filter.
    apply filter_ext. intros p. rewrite !matches_tenant_eqb.
    destruct (String.eqb (p_tenant_id (pt_payload p)) other) eqn:E;
      [|apply andb_false_r].
    apply String.eqb_eq in E. rewrite E.
    apply String.eqb_neq in Hne. now rewrite Hne.
Qed.

Lemma delete_by_tenant_keeps_other_tenants_witness :
  exists n self',
    delete_by_tenant 4 a_service "tenant_a" = Some (n, self') /\
    points self'
    = filter
        (fun p => negb (String.eqb (p_tenant_id (pt_payload p)) "tenant_a"))
        (points a_service) /\
    forall other,
      other <> "tenant_a" -> of_tenant other self' = of_tenant other a_service.
Proof.
  apply (delete_by_tenant_keeps_other_tenants a_service "tenant_a" 4).
  - unfold store_ok. vm_compute. repeat constructor.
  - vm_compute. reflexivity.
Defined.

(** *** Ingestion *)

Lemma upsert_point_fresh p l :
  (forall q, In q l -> pt_id q <> pt_id p) ->
  Permutation (upsert_point p l) (p :: l).
Proof.
  induction l as [|x tl IH]; intros Hfresh; simpl; auto.
  destruct (pt_id p <? pt_id x); auto.
  destruct (pt_id p =? pt_id x) eqn:E.
  - apply Z.eqb_eq in E. exfalso. apply (Hfresh x); auto. now left.
  - rewrite IH by (intros q Hq; apply Hfresh; now right).
    apply perm_swap.
Qed.

Lemma upsert_point_filter_out (f : PointStruct -> bool) p l :
  (forall q, In q l -> pt_id q <> pt_id p) -> f p = false ->
  filter f (upsert_point p l) = filter f l.
Proof.
  intros Hfresh Hf. induction l as [|x tl IH]; simpl.
  - now rewrite Hf.
  - destruct (pt_id p <? pt_id x); simpl; [now rewrite Hf|].
    destruct (pt_id p =? pt_id x) eqn:E.
    + apply Z.eqb_eq in E. exfalso. apply (Hfresh x); auto. now left.
    + simpl. rewrite IH by (intros q Hq; apply Hfresh; now right).
      reflexivity.
Qed.

Lemma perm_filter {A : Type} (f : A -> bool) l l' :
  Permutation l l' -> Permutation (filter f l) (filter f l').
Proof.
  induction 1 as [|x l l' H IH|x y l|l l' l'' H1 IH1 H2 IH2]; simpl; auto.
  - destruct (f x); auto.
  - destruct (f x); destruct (f y); auto. apply perm_swap.
  - now transitivity (filter f l').
Qed.

Lemma insert_document_stored self uuid t d c m v :
  fst (insert_document self uuid t d c m v) = Ok tt ->
  points (snd (insert_document self uuid t d c m v))
  = upsert_point
      (mkPoint uuid v (_create_sparse_vector self c) (mkPayload t d c m))
      (points self).
Proof.
  destruct (insert_document_cases self uuid t d c m v)
    as [[_ ->] | [_ ->]]; [reflexivity | discriminate].
Qed.

Lemma insert_document_count self uuid t d c m v :
  (forall q, In q (points self) -> pt_id q <> uuid) ->
  fst (insert_document self uuid t d c m v) = Ok tt ->
  List.length (of_tenant t (snd (insert_document self uuid t d c m v)))
  = S (List.length (of_tenant t self)).
Proof.
  intros Hfresh Hok. unfold of_tenant.
  rewrite (insert_document_stored _ _ _ _ _ _ _ Hok).
  set (p := mkPoint uuid v (_create_sparse_vector _ c) (mkPayload t d c m)).
  assert (Hperm : Permutation (upsert_point p (points self))
                    (p :: points self))
    by (apply upsert_point_fresh; exact Hfresh).
  rewrite (Permutation_length
             (perm_filter (matches (tenant_filter t)) _ _ Hperm)).
  cbn [filter].
  assert (Hm : matches (tenant_filter t) p = true)
    by (apply matches_tenant; reflexivity).
  now rewrite Hm.
Qed.

(** X11. [insert_document] with an id that no stored point has makes one
    call to the Vector Store, the upsert of the new point.  When no two
    tokens of the content fall into the same bucket, it returns and adds
    one point, replacing none: every point stored before is still
    stored, also one of the same tenant and the same document id; the
    tenant has one point more, and the points of the other tenants are
    as before.  When two tokens share a bucket, the store refuses the
    point: the call raises and the stored points are as before. *)
Theorem insert_document_adds_a_point :
  forall (self : QdrantService) (uuid : Z)
         (tenant_id document_id content : string) (meta : metadata)
         (dense : list Q),
    (forall q, In q (points self) -> pt_id q <> uuid) ->
    let point :=
      mkPoint uuid dense (_create_sparse_vector self content)
        (mkPayload tenant_id document_id content meta) in
    let ingestion :=
      insert_document self uuid tenant_id document_id content meta dense in
    let self' := snd ingestion in
    issued self' = ReqUpsert (svc_collection self) point :: issued self /\
    (distinct (indices (_create_sparse_vector self content)) = true ->
     fst ingestion = Ok tt /\
     Permutation (points self') (point :: points self) /\
     List.length (of_tenant tenant_id self')
     = S (List.length (of_tenant tenant_id self)) /\
     (forall other,
        other <> tenant_id ->
        of_tenant other self' = of_tenant other self)) /\
    (distinct (indices (_create_sparse_vector self content)) = false ->
     (exists e, fst ingestion = Raise e) /\ points self' = points self).
Proof.
  intros self uuid t d c m v Hfresh point ingestion self'.
  pose proof (insert_document_count self uuid t d c m v Hfresh) as Hcount.
  unfold self', ingestion.
  destruct (insert_document_cases self uuid t d c m v)
    as [[Hd E] | [Hd E]]; rewrite E in *; cbn [fst snd issued points] in *;
    rewrite Hd; (split; [reflexivity|]); split; try discriminate; intros _.
  - split; [reflexivity|]. split; [|split].
    + apply upsert_point_fresh. exact Hfresh.
    + apply Hcount. reflexivity.
    + intros other Hne. unfold of_tenant. cbn [points].
      apply upsert_point_filter_out; [exact Hfresh|].
      rewrite matches_tenant_eqb. simpl. apply String.eqb_neq. auto.
  - split; [eauto | reflexivity].
Qed.

Lemma insert_document_adds_a_point_witness :
  let point :=
    mkPoint 4 [1%Q] (_create_sparse_vector a_service "Again.")
      (mkPayload "tenant_a" "doc_a1" "Again." []) in
  let ingestion :=
    insert_document a_service 4 "tenant_a" "doc_a1" "Again." [] [1%Q] in
  let self' := snd ingestion in
  issued self' = ReqUpsert (svc_collection a_service) point
                   :: issued a_service /\
  (distinct (indices (_create_sparse_vector a_service "Again.")) = true ->
   fst ingestion = Ok tt /\
   Permutation (points self') (point :: points a_service) /\
   List.length (of_tenant "tenant_a" self')
   = S (List.length (of_tenant "tenant_a" a_service)) /\
   (forall other,
      other <> "tenant_a" ->
      of_tenant other self' = of_tenant other a_service)) /\
  (distinct (indices (_create_sparse_vector a_service "Again.")) = false ->
   (exists e, fst ingestion = Raise e) /\ points self' = points a_service).
Proof.
  apply (insert_document_adds_a_point a_service 4 "tenant_a" "doc_a1"
           "Again." [] [1%Q]).
  intros q Hq. vm_compute in Hq.
  destruct Hq as [<- | [<- | [<- | []]]]; discriminate.
Defined.

(** A content whose tokens [his] and [king] share the bucket 3652 is not
    ingested. *)
Example insert_his_king_refused :
  exists e self',
    insert_document a_service 4 "tenant_a" "doc_a3" "his king" [] [1%Q]
    = (Raise e, self') /\
    points self' = points a_service.
Proof. do 2 eexists. split; [vm_compute; reflexivity|]. reflexivity. Qed.

(** X12. Ingest, then delete: on a store whose points are kept by id,
    after an [insert_document] that returned, under a tenant and with an
    id that no stored point has, [delete_by_tenant] for that tenant (with
    fuel above the number of stored points) returns the number of points
    the tenant had before, plus one. *)
Theorem insert_then_delete_counts_it :
  forall (self : QdrantService) (uuid : Z)
         (tenant_id document_id content : string) (meta : metadata)
         (dense : list Q) (fuel : nat),
    store_ok self ->
    (forall q, In q (points self) -> pt_id q <> uuid) ->
    (S (List.length (points self)) < fuel)%nat ->
    let ingestion :=
      insert_document self uuid tenant_id document_id content meta dense in
    fst ingestion = Ok tt ->
    exists self',
      delete_by_tenant fuel (snd ingestion) tenant_id
      = Some (Z.of_nat (List.length (of_tenant tenant_id self)) + 1, self')
      /\ of_tenant tenant_id self' = [].
Proof.
  intros self uuid t d c m v fuel Hok Hfresh Hfuel ingestion Hret.
  set (self1 := snd ingestion).
  assert (Hok1 : store_ok self1) by now apply insert_document_ok.
  assert (Hlen : List.length (points self1) = S (List.length (points self))).
  { unfold self1, ingestion.
    rewrite (insert_document_stored _ _ _ _ _ _ _ Hret).
    set (p := mkPoint uuid v (_create_sparse_vector _ c) (mkPayload t d c m)).
    rewrite (Permutation_length (upsert_point_fresh p _ Hfresh)).
    reflexivity. }
  pose proof (of_tenant_length t self1) as Hle.
  destruct (delete_loop_spec t fuel self1 None 0 Hok1) as
    (self' & Hrun & _ & Hempty & _); [intros p _; reflexivity | lia |].
  exists self'. split; [|exact Hempty].
  unfold delete_by_tenant. rewrite Hrun. f_equal. f_equal.
  unfold self1, ingestion.
  rewrite insert_document_count by assumption. lia.
Qed.

Lemma insert_then_delete_counts_it_witness :
  exists self',
    delete_by_tenant 5
      (snd (insert_document a_service 4 "tenant_a" "doc_a1" "Again." []
              [1%Q]))
      "tenant_a"
    = Some (Z.of_nat (List.length (of_tenant "tenant_a" a_service)) + 1,
            self')
    /\ of_tenant "tenant_a" self' = [].
Proof.
  apply (insert_then_delete_counts_it a_service 4 "tenant_a" "doc_a1"
           "Again." [] [1%Q] 5).
  - unfold store_ok. vm_compute. repeat constructor.
  - intros q Hq. vm_compute in Hq.
    destruct Hq as [<- | [<- | [<- | []]]]; discriminate.
  - vm_compute. repeat constructor.
  - reflexivity.
Defined.

(** *** Searches *)

Lemma sorted_firstn {A : Type} (R : A -> A -> Prop) l : forall n,
  StronglySorted R l -> StronglySorted R (firstn n l).
Proof.
  induction l as [|x tl IH]; intros [|n] H; simpl; try constructor.
  - inversion H; subst. auto.
  - inversion H as [|? ? _ Hall]; subst. rewrite Forall_forall in *.
    intros y Hy. apply Hall. now apply in_firstn in Hy.
Qed.

Lemma sorted_map_back {A B : Type} (g : A -> B) (R : B -> B -> Prop) l :
  StronglySorted (fun a b => R (g a) (g b)) l ->
  StronglySorted R (map g l).
Proof.
  induction 1 as [|x tl Hs IH Hall]; simpl; constructor; auto.
  rewrite Forall_forall in *. intros y Hy. apply in_map_iff in Hy.
  destruct Hy as (z & <- & Hz). auto.
Qed.

Section Engine.
Variable similarity : QueryVector -> PointStruct -> Q.

Lemma client_search_length self q flt k :
  (List.length (fst (client_search similarity self q flt k)) <= k)%nat.
Proof.
  unfold client_search. cbn [fst]. rewrite length_firstn. lia.
Qed.

(** X13. [search_dense] and [search_sparse] only read.  Each makes one
    call to the Vector Store, a search filtered on the tenant with limit
    [top_k], and leaves the stored points as they are.  Each returns at
    most [top_k] hits, and every hit carries the document id, the content
    and the metadata of a stored point of the tenant; a hit of the sparse
    search shows a point whose vector shares an index with the vector of
    the query text. *)
Theorem searches_are_bounded_and_read_only :
  forall (self : QdrantService) (tenant_id : string)
         (query_vector : list Q) (query_text : string) (top_k : nat),
    let dense := search_dense similarity self tenant_id query_vector top_k in
    let sparse := search_sparse similarity self tenant_id query_text top_k in
    let query := SparseQuery (_create_sparse_vector self query_text) in
    (points (snd dense) = points self /\
     issued (snd dense)
     = ReqSearch (svc_collection self) (DenseQuery query_vector)
         (tenant_filter tenant_id) top_k :: issued self /\
     (List.length (fst dense) <= top_k)%nat /\
     forall h, In h (fst dense) ->
       exists p, In p (points self)
         /\ p_tenant_id (pt_payload p) = tenant_id
         /\ h = hit_of similarity (DenseQuery query_vector) p)
    /\
    (points (snd sparse) = points self /\
     issued (snd sparse)
     = ReqSearch (svc_collection self) query (tenant_filter tenant_id)
         top_k :: issued self /\
     (List.length (fst sparse) <= top_k)%nat /\
     forall h, In h (fst sparse) ->
       exists p, In p (points self)
         /\ p_tenant_id (pt_payload p) = tenant_id
         /\ shares_index (_create_sparse_vector self query_text)
              (pt_sparse p) = true
         /\ h = hit_of similarity query p).
Proof.
  intros self t v text k dense sparse query. split.
  - pose proof (client_search_length self (DenseQuery v)
                  (tenant_filter t) k) as Hl.
    unfold dense, search_dense.
    destruct (client_search similarity self (DenseQuery v)
                (tenant_filter t) k) as [ps s1] eqn:E.
    destruct (client_search_spec _ _ _ _ _ _ _ E) as (Hp & _ & Hi & Hin).
    cbn [fst snd] in *. split; [exact Hp|]. split; [exact Hi|].
    split; [now rewrite length_map|].
    intros h Hh. apply in_map_iff in Hh. destruct Hh as (p & <- & Hpin).
    destruct (Hin p Hpin) as (Hst & Hm & _). exists p.
    split; [exact Hst|]. split; [now apply matches_tenant | reflexivity].
  - pose proof (client_search_length self query (tenant_filter t) k) as Hl.
    unfold sparse, search_sparse. fold query.
    destruct (client_search similarity self query (tenant_filter t) k)
      as [ps s1] eqn:E.
    destruct (client_search_spec _ _ _ _ _ _ _ E) as (Hp & _ & Hi & Hin).
    cbn [fst snd] in *. split; [exact Hp|]. split; [exact Hi|].
    split; [now rewrite length_map|].
    intros h Hh. apply in_map_iff in Hh. destruct Hh as (p & <- & Hpin).
    destruct (Hin p Hpin) as (Hst & Hm & Hc). exists p.
    split; [exact Hst|]. split; [now apply matches_tenant|].
    split; [exact Hc | reflexivity].
Qed.
End Engine.

(** *** The collection *)

Import Collection.

Lemma contains_iff names x : contains names x = true <-> In x names.
Proof.
  unfold contains. rewrite existsb_exists. split.
  - intros (y & Hy & E). apply String.eqb_eq in E. now subst.
  - intros H. exists x. split; auto. apply String.eqb_refl.
Qed.

(** X14. [_ensure_collection] is idempotent and never touches what the
    server already holds: afterwards a collection of the service's name
    exists; every collection held before is kept unchanged and in place,
    also a collection of that name whose vectors have another size or
    distance than the settings ask for; a collection is created, with a
    cosine [dense] vector of the configured size and a [sparse] vector,
    only when the name was not taken; a second call changes nothing. *)
Theorem ensure_collection_idempotent :
  forall (collection_name : string) (embedding_dimension : Z)
         (collections : list CollectionInfo),
    let after :=
      _ensure_collection collection_name embedding_dimension collections in
    In collection_name (collection_names after) /\
    (exists created, after = (collections ++ created)%list) /\
    (In collection_name (collection_names collections) ->
     after = collections) /\
    (~ In collection_name (collection_names collections) ->
     after
     = (collections
        ++ [mkCollection collection_name
              [("dense", mkVectorParams embedding_dimension COSINE)]
              ["sparse"]])%list) /\
    _ensure_collection collection_name embedding_dimension after = after.
Proof.
  intros cname dim cs after. unfold after, _ensure_collection.
  destruct (contains (collection_names cs) cname) eqn:E; cbn [negb].
  - pose proof (proj1 (contains_iff _ _) E) as Hin.
    split; [exact Hin|]. split; [exists []; now rewrite app_nil_r|].
    split; [reflexivity|]. split; [intros H; contradiction|].
    now rewrite E.
  - assert (Hnot : ~ In cname (collection_names cs)).
    { intros H. apply contains_iff in H. congruence. }
    assert (Hin : In cname (collection_names
              (create_collection cs
                 (mkCollection cname
                    [("dense", mkVectorParams dim COSINE)] ["sparse"])))).
    { unfold collection_names, create_collection. rewrite map_app.
      apply in_or_app. right. now left. }
    split; [exact Hin|]. split; [eexists; reflexivity|].
    split; [intros H; contradiction|]. split; [reflexivity|].
    apply contains_iff in Hin. now rewrite Hin.
Qed.

Lemma ensure_collection_idempotent_witness :
  let after := _ensure_collection "rag_documents" 384 an_old_collection in
  In "rag_documents" (collection_names after) /\
  (exists created, after = (an_old_collection ++ created)%list) /\
  (In "rag_documents" (collection_names an_old_collection) ->
   after = an_old_collection) /\
  (~ In "rag_documents" (collection_names an_old_collection) ->
   after
   = (an_old_collection
      ++ [mkCollection "rag_documents"
            [("dense", mkVectorParams 384 COSINE)] ["sparse"]])%list) /\
  _ensure_collection "rag_documents" 384 after = after.
Proof.
  apply (ensure_collection_idempotent "rag_documents" 384 an_old_collection).
Defined.

End QdrantMore.

(** ** More on hybrid search *)

Module SearchMore.
Import Rrf RrfSpec Qdrant Asyncio Search QdrantSpec SearchSpec.
Import RrfFacts QdrantFacts SearchFacts QdrantMore.

Lemma nodup_firstn {A : Type} (l : list A) n :
  NoDup l -> NoDup (firstn n l).
Proof.
  intros H. rewrite <- (firstn_skipn n l) in H.
  now apply NoDup_app_remove_r in H.
Qed.

Section Service.
Variable similarity : QueryVector -> PointStruct -> Q.
Variable encode : string -> list Q.

(** In time, the search is the fusion of the two hit lists, cut at
    [top_k]. *)
Lemma hybrid_search_runs cfg env self t query top_k merged :
  (dense_seconds env <= search_timeout cfg)%Q ->
  (sparse_seconds env <= search_timeout cfg)%Q ->
  reciprocal_rank_fusion
    [fst (search_dense similarity self t (encode query) (top_k * 2));
     fst (search_sparse similarity self t query (top_k * 2))] (rrf_k cfg)
  = Ok merged ->
  fst (hybrid_search similarity encode cfg env self t query top_k)
  = Ok (firstn top_k merged, ((end_time env - start_time env) * 1000)%Q).
Proof.
  intros Hd Hs Hm. rewrite hybrid_search_result.
  rewrite (positive_deadline cfg env Hd), Hm. reflexivity.
Qed.

(** X15. When both searches complete within [search_timeout] and
    [rrf_k >= 0], [hybrid_search] returns: its results are the first
    [top_k] entries of the fusion of the dense hits and the sparse hits
    (each fetched with limit [2 * top_k]), so they are at most [top_k],
    carry distinct document ids, have positive scores and are ordered from
    the highest score to the lowest; the latency is the difference of the
    two clock readings in milliseconds. *)
Theorem hybrid_search_in_time :
  forall (cfg : Settings) (env : timing) (self : QdrantService)
         (tenant_id query : string) (top_k : nat),
    (dense_seconds env <= search_timeout cfg)%Q ->
    (sparse_seconds env <= search_timeout cfg)%Q ->
    0 <= rrf_k cfg ->
    let dense :=
      fst (search_dense similarity self tenant_id (encode query)
             (top_k * 2)) in
    let sparse :=
      fst (search_sparse similarity self tenant_id query (top_k * 2)) in
    exists merged,
      reciprocal_rank_fusion [dense; sparse] (rrf_k cfg) = Ok merged /\
      fst (hybrid_search similarity encode cfg env self tenant_id query
             top_k)
      = Ok (firstn top_k merged,
            ((end_time env - start_time env) * 1000)%Q) /\
      (List.length (firstn top_k merged) <= top_k)%nat /\
      NoDup (map f_document_id (firstn top_k merged)) /\
      descending (firstn top_k merged) /\
      forall r, In r (firstn top_k merged) -> (0 < f_score r)%Q.
Proof.
  intros cfg env self t query top_k Hd Hs Hk dense sparse.
  destruct (fusion_total [dense; sparse] (rrf_k cfg) Hk) as [merged Hm].
  destruct (fusion_of _ _ _ Hm) as [st F].
  exists merged. split; [exact Hm|]. split; [|split; [|split; [|split]]].
  - now apply hybrid_search_runs.
  - rewrite length_firstn. lia.
  - rewrite <- firstn_map. apply nodup_firstn.
    exact (fusion_nodup _ _ _ _ F).
  - apply sorted_firstn. exact (fusion_descending _ _ _ _ F).
  - intros r Hr. apply in_firstn in Hr.
    destruct (RrfMore.rrf_score_bounds_aux [dense; sparse] (rrf_k cfg)
                merged st Hk F r Hr) as [Hpos _]. exact Hpos.
Qed.

(** X16. One [hybrid_search] changes no stored point.  With a positive
    [search_timeout] it makes, whatever the timing and the outcome,
    exactly two calls to the Vector Store: first the dense search, then
    the sparse search, both filtered on the tenant and both asking for
    [2 * top_k] candidates; nothing is retried and nothing is written.
    With a [search_timeout] that is not positive it makes no call. *)
Theorem hybrid_search_two_searches :
  forall (cfg : Settings) (env : timing) (self : QdrantService)
         (tenant_id query : string) (top_k : nat),
    let after :=
      snd (hybrid_search similarity encode cfg env self tenant_id query
             top_k) in
    points after = points self /\
    issued after
    = if Qle_bool (search_timeout cfg) 0 then issued self
      else
        ReqSearch (svc_collection self)
          (SparseQuery (_create_sparse_vector self query))
          (tenant_filter tenant_id) (top_k * 2)
        :: ReqSearch (svc_collection self) (DenseQuery (encode query))
             (tenant_filter tenant_id) (top_k * 2)
        :: issued self.
Proof.
  intros cfg env self t query top_k after. unfold after.
  destruct (hybrid_search similarity encode cfg env self t query top_k)
    as [found s'] eqn:E.
  destruct (hybrid_search_spec _ _ _ _ _ _ _ _ _ _ E) as (Hp & Hi & _).
  cbn [snd]. split; [exact Hp|]. rewrite Hi.
  destruct (Qle_bool (search_timeout cfg) 0); reflexivity.
Qed.

Lemma dense_candidates (flt : Filter) v (l : list PointStruct) :
  filter (fun p => matches flt p && candidate (DenseQuery v) p) l
  = filter (matches flt) l.
Proof. apply filter_ext. intros p. apply andb_true_r. Qed.

(** X17. Ingest, then search: after an [insert_document] that returned,
    under a tenant and with a non-empty document id, a [hybrid_search] of
    that tenant that completes in time (with [rrf_k >= 0]) returns the
    document, for every query, whenever the tenant has no more than
    [top_k] points. *)
Theorem ingest_then_search_finds_it :
  forall (cfg : Settings) (env : timing) (self : QdrantService) (uuid : Z)
         (tenant_id document_id content : string) (meta : metadata)
         (dense : list Q) (query : string) (top_k : nat),
    (dense_seconds env <= search_timeout cfg)%Q ->
    (sparse_seconds env <= search_timeout cfg)%Q ->
    0 <= rrf_k cfg ->
    document_id <> "" ->
    let ingestion :=
      insert_document self uuid tenant_id document_id content meta dense in
    let self1 := snd ingestion in
    fst ingestion = Ok tt ->
    (List.length (of_tenant tenant_id self1) <= top_k)%nat ->
    exists out latency,
      fst (hybrid_search similarity encode cfg env self1 tenant_id query
             top_k)
      = Ok (out, latency) /\
      In document_id (map f_document_id out).
Proof.
  intros cfg env self uuid t d c m v query top_k Hd Hs Hk Hne ingestion
    self1 Hret Hlen.
  destruct (fusion_total
              [fst (search_dense similarity self1 t (encode query)
                      (top_k * 2));
               fst (search_sparse similarity self1 t query (top_k * 2))]
              (rrf_k cfg) Hk) as [merged Hm].
  pose proof (hybrid_search_runs cfg env self1 t query top_k merged Hd Hs Hm)
    as Hrun.
  exists (firstn top_k merged). eexists. split; [exact Hrun|].
  destruct (fusion_of _ _ _ Hm) as [st F].
  set (dn := fst (search_dense similarity self1 t (encode query)
                    (top_k * 2))) in *.
  set (sp := fst (search_sparse similarity self1 t query (top_k * 2))) in *.
  (* every fused id is the document id of a point of the tenant *)
  assert (Hids : incl (map f_document_id merged)
                   (map (fun p => p_document_id (pt_payload p))
                      (of_tenant t self1))).
  { intros x Hx. apply (fusion_ids_iff _ _ _ _ x F) in Hx.
    destruct Hx as (l & h & Hl & Hh & Hkey).
    assert (Hfrom : hits_of_tenant similarity t self1 l).
    { destruct Hl as [<- | [<- | []]].
      - unfold dn.
        destruct (search_dense similarity self1 t (encode query)
                    (top_k * 2)) as [a b] eqn:E.
        now destruct (search_dense_spec _ _ _ _ _ _ _ E) as (_ & _ & _ & H).
      - unfold sp.
        destruct (search_sparse similarity self1 t query (top_k * 2))
          as [a b] eqn:E.
        now destruct (search_sparse_spec _ _ _ _ _ _ _ E)
          as (_ & _ & _ & H). }
    destruct (Hfrom h Hh) as (p & q & Hp & Ht & ->).
    apply hit_of_key in Hkey. subst x.
    apply (in_map (fun p => p_document_id (pt_payload p))).
    unfold of_tenant. apply filter_In. split; auto.
    now apply matches_tenant. }
  assert (Hshort : (List.length merged <= top_k)%nat).
  { pose proof (NoDup_incl_length (fusion_nodup _ _ _ _ F) Hids) as H.
    rewrite !length_map in H. lia. }
  rewrite firstn_all2 by exact Hshort.
  (* the dense search returns the new point *)
  apply (fusion_ids_iff _ _ _ _ d F).
  set (p := mkPoint uuid v (_create_sparse_vector self c)
              (mkPayload t d c m)).
  assert (Hp : In p (points self1)).
  { unfold self1, ingestion.
    rewrite (insert_document_stored _ _ _ _ _ _ _ Hret).
    apply upsert_point_self. }
  exists dn, (hit_of similarity (DenseQuery (encode query)) p).
  split; [now left|]. split.
  - unfold dn, search_dense, client_search. cbn [fst log points].
    rewrite dense_candidates.
    apply in_map. rewrite firstn_all2.
    + apply sorted_desc_in. apply filter_In. split; [exact Hp|].
      now apply matches_tenant.
    + rewrite (Permutation_length (sorted_desc_perm _ _)).
      unfold of_tenant in Hlen. lia.
  - unfold hit_key, hit_of. simpl.
    apply String.eqb_neq in Hne. now rewrite Hne.
Qed.

Lemma empty_tenant_search cfg env self t query top_k :
  (dense_seconds env <= search_timeout cfg)%Q ->
  (sparse_seconds env <= search_timeout cfg)%Q ->
  of_tenant t self = [] ->
  fst (hybrid_search similarity encode cfg env self t query top_k)
  = Ok ([], ((end_time env - start_time env) * 1000)%Q).
Proof.
  intros Hd Hs Hempty.
  rewrite hybrid_search_result, (positive_deadline cfg env Hd).
  unfold search_dense, search_sparse, client_search.
  cbn [log points fst snd]. unfold of_tenant in Hempty.
  rewrite <- !filter_filter, Hempty.
  cbn [filter sorted_desc fold_right]. rewrite !firstn_nil. cbn [map].
  unfold reciprocal_rank_fusion. simpl. now rewrite firstn_nil.
Qed.

(** X18. A tenant without points gets the empty result: if the dense and
    the sparse search complete in time, [hybrid_search] returns no result
    for every query and every [top_k], whatever [rrf_k] is. *)
Theorem hybrid_search_of_empty_tenant :
  forall (cfg : Settings) (env : timing) (self : QdrantService)
         (tenant_id query : string) (top_k : nat),
    (dense_seconds env <= search_timeout cfg)%Q ->
    (sparse_seconds env <= search_timeout cfg)%Q ->
    of_tenant tenant_id self = [] ->
    fst (hybrid_search similarity encode cfg env self tenant_id query top_k)
    = Ok ([], ((end_time env - start_time env) * 1000)%Q).
Proof.
  intros cfg env self t query top_k. apply empty_tenant_search.
Qed.

End Service.

Lemma hybrid_search_in_time_witness :
  let dense :=
    fst (search_dense a_similarity a_service "tenant_a"
           (an_encoder "secret information") (5 * 2)) in
  let sparse :=
    fst (search_sparse a_similarity a_service "tenant_a"
           "secret information" (5 * 2)) in
  exists merged,
    reciprocal_rank_fusion [dense; sparse] (rrf_k settings) = Ok merged /\
    fst (hybrid_search a_similarity an_encoder settings no_timeout a_service
           "tenant_a" "secret information" 5)
    = Ok (firstn 5 merged,
          ((end_time no_timeout - start_time no_timeout) * 1000)%Q) /\
    (List.length (firstn 5 merged) <= 5)%nat /\
    NoDup (map f_document_id (firstn 5 merged)) /\
    descending (firstn 5 merged) /\
    forall r, In r (firstn 5 merged) -> (0 < f_score r)%Q.
Proof.
  apply (hybrid_search_in_time a_similarity an_encoder settings no_timeout
           a_service "tenant_a" "secret information" 5);
    vm_compute; discriminate.
Defined.

Lemma ingest_then_search_finds_it_witness :
  exists out latency,
    fst (hybrid_search a_similarity an_encoder settings no_timeout
           (snd (insert_document a_service 4 "tenant_a" "doc_a3" "New." []
                   [1%Q]))
           "tenant_a" "anything" 3)
    = Ok (out, latency) /\
    In "doc_a3" (map f_document_id out).
Proof.
  apply (ingest_then_search_finds_it a_similarity an_encoder settings
           no_timeout a_service 4 "tenant_a" "doc_a3" "New." [] [1%Q]
           "anything" 3).
  - vm_compute. discriminate.
  - vm_compute. discriminate.
  - discriminate.
  - discriminate.
  - reflexivity.
  - vm_compute. repeat constructor.
Defined.

Lemma hybrid_search_of_empty_tenant_witness :
  fst (hybrid_search a_similarity an_encoder settings no_timeout a_service
         "tenant_c" "secret information" 5)
  = Ok ([], ((end_time no_timeout - start_time no_timeout) * 1000)%Q).
Proof.
  apply (hybrid_search_of_empty_tenant a_similarity an_encoder settings
           no_timeout a_service "tenant_c" "secret information" 5).
  - vm_compute. discriminate.
  - vm_compute. discriminate.
  - reflexivity.
Defined.

End SearchMore.

(** ** More on the LLM service *)

Module LlmMore.
Import Rrf RrfSpec Llm LlmStream.

Lemma firstn_min_length {A : Type} (l : list A) n :
  firstn (Nat.min n (List.length l)) l = firstn n l.
Proof.
  destruct (Nat.le_ge_cases n (List.length l)) as [H | H].
  - now rewrite Nat.min_l.
  - rewrite Nat.min_r by exact H.
    now rewrite firstn_all, firstn_all2.
Qed.

Lemma context_parts_contents l1 : forall l2 i,
  map f_content l1 = map f_content l2 ->
  context_parts i l1 = context_parts i l2.
Proof.
  induction l1 as [|r1 tl1 IH]; intros [|r2 tl2] i H; simpl in *;
    try discriminate; auto.
  injection H as Hc Htl. rewrite Hc. f_equal. now apply IH.
Qed.

Lemma context_parts_length l : forall i,
  List.length (context_parts i l) = List.length l.
Proof. induction l as [|r tl IH]; intros i; simpl; auto. Qed.

(** X19. The prompt is pruned to five results: [_create_prompt] depends
    on nothing but the query and the contents of the first five search
    results, which it lists as five context parts at most; ids, scores,
    metadata and every result after the fifth have no influence. *)
Theorem prompt_uses_first_five_contents :
  forall (self1 self2 : LLMService) (query : string)
         (results1 results2 : list fused),
    map f_content (firstn 5 results1) = map f_content (firstn 5 results2) ->
    _create_prompt self1 query results1 = _create_prompt self2 query results2
    /\
    (List.length
       (context_parts 1
          (firstn (Nat.min 5 (List.length results1)) results1)) <= 5)%nat.
Proof.
  intros self1 self2 query r1 r2 H. split.
  - unfold _create_prompt. rewrite !firstn_min_length.
    now rewrite (context_parts_contents _ _ 1 H).
  - rewrite context_parts_length, firstn_min_length, length_firstn. lia.
Qed.

Lemma prompt_uses_first_five_contents_witness :
  _create_prompt (mkLLM "groq" "m" 2 a_client) "q"
    (map (fun c => mkFused c c [] 1) ["a"; "b"; "c"; "d"; "e"; "f"; "g"])
  = _create_prompt (mkLLM "openai" "n" 3 a_client) "q"
      (map (fun c => mkFused "x" c [("k", "v")] 0) ["a"; "b"; "c"; "d"; "e"])
  /\
  (List.length
     (context_parts 1
        (firstn
           (Nat.min 5
              (List.length
                 (map (fun c => mkFused c c [] 1)
                    ["a"; "b"; "c"; "d"; "e"; "f"; "g"])))
           (map (fun c => mkFused c c [] 1)
              ["a"; "b"; "c"; "d"; "e"; "f"; "g"]))) <= 5)%nat.
Proof.
  apply (prompt_uses_first_five_contents (mkLLM "groq" "m" 2 a_client)
           (mkLLM "openai" "n" 3 a_client) "q").
  reflexivity.
Defined.

(** *** The streaming summary *)

Lemma append_empty (s : string) : (s ++ "")%string = s.
Proof. induction s as [|c tl IH]; simpl; congruence. Qed.

Lemma concat_cons (x : string) l :
  String.concat "" (x :: l) = (x ++ String.concat "" l)%string.
Proof. destruct l; simpl; auto. now rewrite append_empty. Qed.

Lemma concat_yielded cs :
  String.concat "" (yielded cs) = String.concat "" (map text_of cs).
Proof.
  induction cs as [|c tl IH]; [reflexivity|].
  cbn [map yielded]. rewrite concat_cons.
  destruct c as [s|]; cbn [has_content text_of get_or].
  - destruct (String.eqb s "") eqn:E; cbn [negb].
    + apply String.eqb_eq in E. subst s. exact IH.
    + rewrite concat_cons. now rewrite IH.
  - exact IH.
Qed.

Section Provider.
Variable complete_stream : chat_request -> stream_reply.

(** X20. [generate_summary_stream] never yields an empty chunk, and the
    chunks it yields, joined, are the contents the provider sent, joined:
    skipping the chunks without content loses no text.  An error of the
    provider ends the stream after the chunks that came before it.  With
    non-empty results the provider is called once; with no results the
    one chunk is the fixed message and the provider is not called. *)
Theorem stream_keeps_text :
  forall (self : LLMService) (query : string) (search_results : list fused)
         (calls : list chat_request),
    let run :=
      generate_summary_stream complete_stream self query search_results
        calls in
    let reply := complete_stream (chat_of self query search_results) in
    Forall (fun chunk => chunk <> "") (fst (fst run)) /\
    (search_results = [] ->
     run = ((["No search results found to summarize."], None), calls)) /\
    (search_results <> [] ->
     String.concat "" (fst (fst run))
     = String.concat "" (map text_of (chunks reply)) /\
     snd (fst run) = option_map OtherError (stream_error reply) /\
     snd run = chat_of self query search_results :: calls).
Proof.
  intros self query rs calls run reply. unfold run, reply,
    generate_summary_stream.
  destruct rs as [|r0 rest]; cbn [fst snd].
  - split; [repeat constructor; discriminate|]. split; [reflexivity|].
    intros H. now contradiction H.
  - split; [|split; [discriminate|]].
    + induction (chunks (complete_stream (chat_of self query (r0 :: rest))))
        as [|c tl IH]; simpl; [constructor|].
      destruct c as [s|]; simpl; auto.
      destruct (String.eqb s "") eqn:E; simpl; auto.
      apply String.eqb_neq in E. constructor; auto.
    + intros _. split; [apply concat_yielded|]. split; reflexivity.
Qed.
End Provider.

Lemma stream_keeps_text_witness :
  let run :=
    generate_summary_stream a_stream (mkLLM "groq" "m" 2 a_client) "q"
      [mkFused "d" "c" [] 1] [] in
  fst (fst run) = ["Fast"; "API"; " is a framework."] /\
  String.concat "" (fst (fst run))
  = String.concat ""
      (map text_of
         (chunks (a_stream (chat_of (mkLLM "groq" "m" 2 a_client) "q"
                              [mkFused "d" "c" [] 1])))).
Proof.
  split; [reflexivity|].
  apply (stream_keeps_text a_stream (mkLLM "groq" "m" 2 a_client) "q"
           [mkFused "d" "c" [] 1] []).
  discriminate.
Defined.

End LlmMore.


(** ** More on the endpoints *)

Module MainMore.
Import Rrf RrfSpec Qdrant Asyncio Search Llm Main Endpoints.
Import QdrantSpec SearchSpec MainSpec QdrantFacts SearchFacts SearchMore.

Section Api.
Variable similarity : QueryVector -> PointStruct -> Q.
Variable encode : string -> list Q.
Variable complete : chat_request -> reply.

(** X21. [POST /search] and [POST /search-with-summary] agree: for the
    same request against the same store and timing, and with an LLM
    service that exists or can be constructed, either both fail with
    status 500 on the same retrieval error, or both return, with the same
    results and the same search latency. *)
Theorem search_and_summary_agree :
  forall (cfg : Settings) (env : timing) (clk : clock)
         (request : SearchRequest) (w : world) (svc : LLMService),
    fst (get_llm_service cfg w) = Ok svc ->
    match fst (search similarity encode cfg env request w) with
    | Returns r =>
        exists body,
          fst (search_with_summary similarity encode complete cfg env clk
                 request w)
          = JSONResponse body /\
          results body = sr_results r /\
          search_latency_ms body = sr_latency_ms r
    | Fails status_code detail =>
        exists e,
          status_code = 500 /\
          detail = "Search failed: " ++ str e /\
          fst (search_with_summary similarity encode complete cfg env clk
                 request w)
          = HTTPException 500 ("Search with summary failed: " ++ str e)
    end.
Proof.
  intros cfg env clk request w svc Hsvc.
  unfold search, search_with_summary.
  destruct (hybrid_search similarity encode cfg env (w_qdrant w)
              (req_tenant_id request) (req_query request)
              (req_top_k request)) as [found q].
  destruct found as [[out latency]|e]; cbn [fst].
  - destruct out as [|r0 rest].
    + eexists. cbn [fst]. split; [reflexivity|]. split; reflexivity.
    + destruct (MainFacts.get_llm_service_world cfg w svc q Hsvc)
        as (w1 & Hget & _).
      rewrite Hget.
      destruct (summarize complete cfg svc (req_query request)
                  (r0 :: rest) (w_calls w1)) as [text calls].
      eexists. cbn [fst]. split; [reflexivity|]. split; reflexivity.
  - exists e. repeat split.
Qed.

(** X22. Delete, then search with summary: on a store whose points are
    kept by id (and with fuel above the number of stored points),
    [DELETE /documents/{tenant_id}] answers with status ["success"], the
    number of the tenant's points and the message that names both; a
    [POST /search-with-summary] of that tenant that follows and completes
    in time answers with no results and the fixed no-results message, and
    calls neither the LLM service nor the provider, whatever the
    configured provider is. *)
Theorem delete_then_summary_finds_nothing :
  forall (cfg : Settings) (env : timing) (clk : clock)
         (request : SearchRequest) (w : world) (fuel : nat),
    store_ok (w_qdrant w) ->
    (List.length (points (w_qdrant w)) < fuel)%nat ->
    (dense_seconds env <= search_timeout cfg)%Q ->
    (sparse_seconds env <= search_timeout cfg)%Q ->
    exists w1 w2 body,
      let n :=
        Z.of_nat (List.length (of_tenant (req_tenant_id request)
                                 (w_qdrant w))) in
      delete_tenant_documents fuel (req_tenant_id request) w
      = Some
          (Returns
             (mkDeleteResponse "success" (req_tenant_id request) n
                ("Deleted " ++ str_int n ++ " documents for tenant "
                   ++ req_tenant_id request)),
           w1) /\
      search_with_summary similarity encode complete cfg env clk request w1
      = (JSONResponse body, w2) /\
      results body = [] /\
      summary body = no_results_message /\
      llm_latency_ms body = 0%Q /\
      w_calls w2 = w_calls w /\ w_llm w2 = w_llm w.
Proof.
  intros cfg env clk request w fuel Hok Hfuel Hd Hs.
  set (t := req_tenant_id request).
  pose proof (of_tenant_length t (w_qdrant w)) as Hle.
  destruct (delete_loop_spec t fuel (w_qdrant w) None 0 Hok) as
    (q1 & Hrun & _ & Hempty & _); [intros p _; reflexivity | lia |].
  pose proof (empty_tenant_search similarity encode cfg env q1 t
                (req_query request) (req_top_k request) Hd Hs Hempty) as Hh.
  exists (mkWorld q1 (w_llm w) (w_calls w) (w_openai_api_key w)).
  unfold delete_tenant_documents, delete_by_tenant, search_with_summary.
  cbn [w_qdrant w_llm w_calls]. fold t. rewrite Hrun, Z.add_0_l.
  destruct (hybrid_search similarity encode cfg env q1 t
              (req_query request) (req_top_k request)) as [found q2].
  cbn [fst] in Hh. subst found.
  do 2 eexists. cbv zeta. split; [reflexivity|].
  split; [reflexivity|]. cbn. repeat split.
Qed.
End Api.

Lemma search_and_summary_agree_witness :
  exists r body,
    fst (search a_similarity an_encoder with_key no_timeout a_request
           a_world)
    = Returns r /\
    fst (search_with_summary a_similarity an_encoder a_failing_provider
           with_key no_timeout a_clock a_request a_world)
    = JSONResponse body /\
    results body = sr_results r /\
    search_latency_ms body = sr_latency_ms r.
Proof.
  pose proof (search_and_summary_agree a_similarity an_encoder
                a_failing_provider with_key no_timeout a_clock a_request
                a_world a_llm_service eq_refl) as H.
  destruct (fst (search a_similarity an_encoder with_key no_timeout
                   a_request a_world)) as [r|code detail] eqn:E.
  - destruct H as (body & H1 & H2 & H3). exists r, body. auto.
  - exfalso. vm_compute in E. discriminate.
Defined.

Lemma delete_then_summary_finds_nothing_witness :
  exists w1 w2 body,
    let n :=
      Z.of_nat (List.length (of_tenant (req_tenant_id a_request)
                               (w_qdrant a_world))) in
    delete_tenant_documents 4 (req_tenant_id a_request) a_world
    = Some
        (Returns
           (mkDeleteResponse "success" (req_tenant_id a_request) n
              ("Deleted " ++ str_int n ++ " documents for tenant "
                 ++ req_tenant_id a_request)),
         w1) /\
    search_with_summary a_similarity an_encoder a_failing_provider
      unsupported no_timeout a_clock a_request w1
    = (JSONResponse body, w2) /\
    results body = [] /\
    summary body = no_results_message /\
    llm_latency_ms body = 0%Q /\
    w_calls w2 = w_calls a_world /\ w_llm w2 = w_llm a_world.
Proof.
  apply (delete_then_summary_finds_nothing a_similarity an_encoder
           a_failing_provider unsupported no_timeout a_clock a_request
           a_world 4).
  - unfold store_ok. vm_compute. repeat constructor.
  - vm_compute. reflexivity.
  - vm_compute. discriminate.
  - vm_compute. discriminate.
Defined.

(** The delete of the witness, evaluated. *)
Example delete_message :
  exists w1,
    delete_tenant_documents 4 "tenant_a" a_world
    = Some
        (Returns
           (mkDeleteResponse "success" "tenant_a" 2
              "Deleted 2 documents for tenant tenant_a"),
         w1).
Proof. eexists. vm_compute. reflexivity. Qed.

End MainMore.
